(** * combyne: the template parser (lib/tree.js) and compiler (lib/compiler.js)

    A shallow embedding of the two core modules of the template engine.
    JavaScript strings are Rocq strings (a sequence of bytes, UTF-8 for
    the two separator code points the escaper knows); objects are records
    whose optional fields are [option]s; [throw] is an explicit result. *)

From Stdlib Require Import String Ascii List Bool Arith Lia.
Import ListNotations.
Open Scope string_scope.
Open Scope list_scope.

Set Implicit Arguments.
Set Warnings "-register-all".

(** ** JavaScript strings *)

Module JS.

(** The double quote, written by code so that no literal has to hold it. *)
Definition dquote : ascii := "034"%char.
Definition squote : ascii := "'"%char.

(** [s.indexOf(c) !== -1] for a one-character needle. *)
Fixpoint includes (c : ascii) (s : string) : bool :=
  match s with
  | EmptyString => false
  | String a r => if Ascii.eqb a c then true else includes c r
  end.

(** [s.split(c)] for a one-character separator: never the empty array. *)
Fixpoint split (c : ascii) (s : string) : list string :=
  match s with
  | EmptyString => [EmptyString]
  | String a r =>
      if Ascii.eqb a c then EmptyString :: split c r
      else match split c r with
           | h :: t => String a h :: t
           | [] => [String a EmptyString]
           end
  end.

(** [arr.join(sep)] on an array of strings. *)
Definition join (sep : string) (l : list string) : string := String.concat sep l.

(** String conversion of a possibly missing string, as [+] does it. *)
Definition str (o : option string) : string :=
  match o with Some s => s | None => "undefined" end.

(** An element of an array under [join]: [undefined] prints as nothing. *)
Definition elt (o : option string) : string :=
  match o with Some s => s | None => EmptyString end.

(** Truthiness of a possibly missing string. *)
Definition truthy (o : option string) : bool :=
  match o with Some (String _ _) => true | _ => false end.

(** [s.indexOf(needle) > -1] *)
Fixpoint occurs (needle s : string) : bool :=
  String.prefix needle s
  || match s with
     | EmptyString => false
     | String _ r => occurs needle r
     end.

End JS.

(** ** Failures *)

Inductive Exn : Type :=
| Error (message : string)   (* [throw new Error(message)] *)
| TypeError.                 (* a property read on [undefined] *)

Inductive Result (A : Type) : Type :=
| Ok (a : A)
| Throw (e : Exn).
Arguments Ok {A} a.
Arguments Throw {A} e.

Definition bind {A B} (r : Result A) (k : A -> Result B) : Result B :=
  match r with Ok a => k a | Throw e => Throw e end.

Notation "'do' x <- r ; k" := (bind r (fun x => k))
  (at level 10, x pattern, r at level 100, k at level 200).

Fixpoint mapM {A B} (f : A -> Result B) (l : list A) : Result (list B) :=
  match l with
  | [] => Ok []
  | x :: r => do y <- f x; do ys <- mapM f r; Ok (y :: ys)
  end.

(** ** The syntax tree *)

Inductive NodeType : Type :=
| Template | Text | Property | RawProperty
| ConditionalExpression | LoopExpression | PartialExpression.

Inductive ConditionType : Type :=
| Identifier | Not | Literal | Equality | Assignment.

(** A condition object [{ type, value }]; [Not] carries no value. *)
Record Condition : Type := mkCondition {
  ctype : ConditionType;
  cvalue : option string }.

(** A filter object [{ type: Filter, value, args }]; the name is missing
    when the chain holds no name token. *)
Record Filter : Type := mkFilter {
  fvalue : option string;
  fargs : list string }.

(** A tree node. The parser builds every kind of node by decorating one
    plain object, so a node is one record and a field the object lacks is
    [None]. *)
Inductive Node : Type := mkNode {
  type : option NodeType;
  value : option string;
  nodes : option (list Node);
  conditions : option (list Condition);
  els : option Node;
  elsif : option Node;
  filters : option (list Filter);
  args : option (list string) }.

(** [{ nodes: [] }] *)
Definition emptyRoot : Node :=
  mkNode None None (Some []) None None None None None.

Definition textNode (s : string) : Node :=
  mkNode (Some Text) (Some s) None None None None None None.

Definition set_type (n : Node) (t : option NodeType) : Node :=
  mkNode t (value n) (nodes n) (conditions n) (els n) (elsif n) (filters n) (args n).
Definition set_value (n : Node) (v : option string) : Node :=
  mkNode (type n) v (nodes n) (conditions n) (els n) (elsif n) (filters n) (args n).
Definition set_nodes (n : Node) (l : option (list Node)) : Node :=
  mkNode (type n) (value n) l (conditions n) (els n) (elsif n) (filters n) (args n).
Definition set_conditions (n : Node) (c : option (list Condition)) : Node :=
  mkNode (type n) (value n) (nodes n) c (els n) (elsif n) (filters n) (args n).
Definition set_els (n : Node) (e : option Node) : Node :=
  mkNode (type n) (value n) (nodes n) (conditions n) e (elsif n) (filters n) (args n).
Definition set_elsif (n : Node) (e : option Node) : Node :=
  mkNode (type n) (value n) (nodes n) (conditions n) (els n) e (filters n) (args n).
Definition set_args (n : Node) (a : option (list string)) : Node :=
  mkNode (type n) (value n) (nodes n) (conditions n) (els n) (elsif n) (filters n) a.

(** ** The compiler (lib/compiler.js) *)

Module Compiler.
#[local] Open Scope string_scope.

(** The escaper's table: backslash, single quote, CR, LF, TAB and the two
    separators U+2028 and U+2029 (bytes E2 80 A8 and E2 80 A9). *)
Fixpoint escapeValue (s : string) : string :=
  match s with
  | EmptyString => EmptyString
  | String a r =>
      let plain :=
        if Ascii.eqb a "\"%char then "\\" ++ escapeValue r
        else if Ascii.eqb a "'"%char then "\'" ++ escapeValue r
        else if Ascii.eqb a "013"%char then "\r" ++ escapeValue r
        else if Ascii.eqb a "010"%char then "\n" ++ escapeValue r
        else if Ascii.eqb a "009"%char then "\t" ++ escapeValue r
        else String a (escapeValue r) in
      match r with
      | String b (String c r') =>
          if Ascii.eqb a "226"%char && Ascii.eqb b "128"%char then
            if Ascii.eqb c "168"%char then "\u2028" ++ escapeValue r'
            else if Ascii.eqb c "169"%char then "\u2029" ++ escapeValue r'
            else plain
          else plain
      | _ => plain
      end
  end.

Definition lookup (property : string) : string := "['" ++ property ++ "']".

Definition normalizeIdentifier (identifier : string) : string :=
  if String.eqb identifier "." then "data['.']"
  else "data" ++ JS.join EmptyString (map lookup (JS.split "."%char identifier)).

(** The value expression of a property: the text itself when it holds a
    quote, a chain of keyed lookups otherwise. *)
Definition propertyIdentifier (v : string) : string :=
  if negb (JS.includes JS.squote v) && negb (JS.includes JS.dquote v)
  then normalizeIdentifier v
  else v.

(** The initial identifier value check. *)
Definition propertyValue (identifier : string) (encode : bool) : string :=
  JS.join " "
    [ "("; "typeof"; identifier; "==="; "'function'";
      "?"; if encode then "encode(" ++ identifier ++ "())" else identifier ++ "()";
      ":"; if encode then "encode(" ++ identifier ++ ")" else identifier;
      ")" ].

(** The callback of the [reduce] over the filters. *)
Definition nestFilter (memo : string) (filter : Filter) : string :=
  let args := match fargs filter with
              | [] => EmptyString
              | _ => ", " ++ JS.join ", " (fargs filter)
              end in
  "filters['" ++ JS.str (fvalue filter) ++ "']" ++ "(" ++ memo ++ args ++ ")".

Definition compileProperty (node : Node) (encode : bool) : Result string :=
  match value node with
  | None => Throw TypeError
  | Some v =>
      let identifier := propertyIdentifier v in
      let value := propertyValue identifier encode in
      match filters node with
      | None => Throw TypeError
      | Some fs => Ok (fold_left nestFilter fs value)
      end
  end.

Definition compilePartial (node : Node) : Result string :=
  match args node with
  | None => Throw TypeError
  | Some a =>
      Ok (JS.join EmptyString
            [ "(";
              "partials['" ++ JS.str (value node) ++ "'].render(";
              match a with
              | [] => "null"
              | arg :: _ => normalizeIdentifier arg
              end;
              ")";
              ")" ])
  end.

(** One condition of an [if], as the callback of the [map] compiles it;
    a kind the [switch] does not know yields [undefined]. *)
Definition compileCondition (condition : Condition) : Result (option string) :=
  match ctype condition with
  | Identifier =>
      match cvalue condition with
      | None => Throw TypeError
      | Some v => Ok (Some (normalizeIdentifier v))
      end
  | Not => Ok (Some "!")
  | Literal => Ok (cvalue condition)
  | Equality => Ok (cvalue condition)
  | Assignment => Ok None
  end.

(** [els || elsif || (the literal of the empty string)] *)
Definition alternative (els elsif : option string) : string :=
  if JS.truthy els then JS.elt els
  else if JS.truthy elsif then JS.elt elsif
  else "''".

(** The key and value keywords of a loop. *)
Definition keyVal (conditions : list Condition) : string * string :=
  ( match nth_error conditions 3 with
    | Some c => JS.elt (cvalue c)
    | None => "i"
    end,
    match nth_error conditions 2 with
    | Some c => JS.elt (cvalue c)
    | None => "."
    end ).

(** [conditions.length && conditions[0].value] *)
Definition loopValue (conditions : list Condition) : option string :=
  match conditions with
  | [] => None
  | c :: _ => cvalue c
  end.

Section Process.
Variables compileConditional compileLoop : Node -> Result string.

(** The [switch] on the node's type. *)
Definition compileNode (node : Node) : Result string :=
  match type node with
  | Some RawProperty => compileProperty node false
  | Some Property => compileProperty node true
  | Some ConditionalExpression => compileConditional node
  | Some LoopExpression => compileLoop node
  | Some PartialExpression => compilePartial node
  | _ =>
      match value node with
      | None => Throw TypeError
      | Some v => Ok ("'" ++ escapeValue v ++ "'")
      end
  end.

Definition processWith (nodes : option (list Node)) : Result string :=
  match nodes with
  | None => Throw TypeError
  | Some l => do commands <- mapM compileNode l; Ok (JS.join "+" commands)
  end.
End Process.

Fixpoint compileConditional (node : Node) : Result string :=
  match conditions node with
  | None => Throw TypeError
  | Some [] => Throw (Error "Missing conditions to if statement.")
  | Some cs =>
      do compiled <- mapM compileCondition cs;
      let condition := JS.join " " (map JS.elt compiled) in
      do els <- match els node with
                | Some e =>
                    do s <- processWith compileConditional compileLoop (nodes e);
                    Ok (Some s)
                | None => Ok None
                end;
      do elsif <- match elsif node with
                  | Some e => do s <- compileConditional e; Ok (Some s)
                  | None => Ok None
                  end;
      do body <- processWith compileConditional compileLoop (nodes node);
      Ok (JS.join EmptyString
            [ "("; "("; condition; ")"; "?"; body; ":";
              alternative els elsif;
              ")" ])
  end
with compileLoop (node : Node) : Result string :=
  let conditions := match conditions node with Some cs => cs | None => [] end in
  let keyVal := keyVal conditions in
  let value := loopValue conditions in
  do body <- processWith compileConditional compileLoop (nodes node);
  Ok (JS.join EmptyString
        [ "map("; if JS.truthy value then normalizeIdentifier (JS.elt value) else "data"; ",";
          "'"; fst keyVal; "'"; ",";
          "'"; if JS.truthy value then snd keyVal else EmptyString; "'"; ",";
          "data"; ",";
          "function(data) {";
            "return " ++ body;
          "}";
          ").join('')" ]).

Definition process : option (list Node) -> Result string :=
  processWith compileConditional compileLoop.

(** The body of the compiled function, as the constructor assembles it.
    The four helpers are functions of modules that are not part of this
    development; [join] prints each of them as its source text, which is
    all the constructor uses of them. *)
Section Body.
Variables createObject type map encode : string.

Definition body (tree : Node) : Result string :=
  do compiledSource <- process (nodes tree);
  let compiledSource :=
    match compiledSource with
    | EmptyString => compiledSource
    | _ => " + " ++ compiledSource
    end in
  let helpers :=
    app (if JS.occurs "map(" compiledSource then [createObject; type; map] else [])
        (if JS.occurs "encode(" compiledSource then [type; encode] else []) in
  Ok (JS.join (String ";" (String "010" EmptyString))
        (app helpers ["return ''" ++ compiledSource])).
End Body.

End Compiler.

(** ** The parser (lib/tree.js) *)

Module Tree.

(** The token kinds the lexer hands over: the names the parser compares
    a token's name with. *)
Inductive TokenName : Type :=
| START_RAW | END_RAW | START_PROP | END_PROP | START_EXPR | END_EXPR
| WHITESPACE | FILTER | START_EACH | END_EACH
| START_IF | ELSIF | ELSE | END_IF | NOT
| EQUALITY | NOT_EQUALITY | GREATER_THAN | GREATER_THAN_EQUAL
| LESS_THAN | LESS_THAN_EQUAL
| ASSIGN | COMMENT | PARTIAL | OTHER.

Definition TokenName_eq_dec (a b : TokenName) : {a = b} + {a <> b}.
Proof. decide equality. Defined.

Definition nameString (n : TokenName) : string :=
  match n with
  | START_RAW => "START_RAW" | END_RAW => "END_RAW"
  | START_PROP => "START_PROP" | END_PROP => "END_PROP"
  | START_EXPR => "START_EXPR" | END_EXPR => "END_EXPR"
  | WHITESPACE => "WHITESPACE" | FILTER => "FILTER"
  | START_EACH => "START_EACH" | END_EACH => "END_EACH"
  | START_IF => "START_IF" | ELSIF => "ELSIF" | ELSE => "ELSE"
  | END_IF => "END_IF" | NOT => "NOT"
  | EQUALITY => "EQUALITY" | NOT_EQUALITY => "NOT_EQUALITY"
  | GREATER_THAN => "GREATER_THAN" | GREATER_THAN_EQUAL => "GREATER_THAN_EQUAL"
  | LESS_THAN => "LESS_THAN" | LESS_THAN_EQUAL => "LESS_THAN_EQUAL"
  | ASSIGN => "ASSIGN" | COMMENT => "COMMENT" | PARTIAL => "PARTIAL"
  | OTHER => "OTHER"
  end.

(** A token [{ name, capture }]; [capture] is [capture[0]], the matched
    text, the only element the parser reads. *)
Record Token : Type := mkToken {
  name : TokenName;
  capture : string }.

(** [kind === END] against a terminator that may be [undefined]. *)
Definition isEnd (END : option TokenName) (n : TokenName) : bool :=
  match END with
  | Some e => if TokenName_eq_dec n e then true else false
  | None => false
  end.

(** The outcome of running a parsing method on a bounded number of steps:
    every loop iteration and every call takes one. *)
Inductive Run (A : Type) : Type :=
| Done (a : A)
| Raise (e : Exn)
| OutOfFuel.
Arguments Done {A} a.
Arguments Raise {A} e.
Arguments OutOfFuel {A}.

Definition andThen {A B} (r : Run A) (k : A -> Run B) : Run B :=
  match r with
  | Done a => k a
  | Raise e => Raise e
  | OutOfFuel => OutOfFuel
  end.

Notation "x <- r ;; k" := (andThen r (fun x => k))
  (at level 100, r at next level, k at level 200, right associativity).
Notation "' p <- r ;; k" := (andThen r (fun x => let 'p := x in k))
  (at level 100, p pattern, r at next level, k at level 200, right associativity).

(** What a parsing method hands back to [make]: a node, [null],
    [undefined] or [false]. *)
Inductive Returned : Type :=
| RNode (n : Node)
| RNull
| RUndefined
| RFalse.

(** What [make] returns: its root, or [null]. *)
Inductive Made : Type := Root | Null.

Definition unexpected (n : TokenName) : Exn :=
  Error ("Unexpected " ++ nameString n ++ " encountered.")%string.

(** [l[l.length - 1]] *)
Definition lastOf {A} (l : list A) : option A :=
  match rev l with
  | [] => None
  | x :: _ => Some x
  end.

(** [l[i] = f(l[i])] on an index the list has. *)
Fixpoint alter {A} (f : A -> A) (i : nat) (l : list A) : list A :=
  match l, i with
  | [], _ => []
  | x :: r, O => f x :: r
  | x :: r, S j => x :: alter f j r
  end.

(** [root.nodes.push(n)] *)
Definition push (root n : Node) : Run Node :=
  match nodes root with
  | None => Raise TypeError
  | Some ns => Done (set_nodes root (Some (ns ++ [n])))
  end.

(** [root.conditions.push(c)] *)
Definition pushCondition (root : Node) (c : Condition) : Run Node :=
  match conditions root with
  | None => Raise TypeError
  | Some cs => Done (set_conditions root (Some (cs ++ [c])))
  end.

(** The test of the regular expression [isString]: a single or a double
    quote occurs in the value. *)
Definition isString (value : string) : bool :=
  JS.includes JS.squote value || JS.includes JS.dquote value.

(** *** Properties and their filters

    A property descriptor while it is parsed. The filter objects live in
    a store, [heap], and [refs] is the descriptor's [filters] array of
    references into it: [constructFilter] pushes its [current] object and
    may still write to it afterwards, and may push it more than once. *)
Record Descriptor : Type := mkDescriptor {
  dtype : NodeType;
  dvalue : string;
  refs : list nat;
  heap : list Filter }.

(** The finished property node: every reference read off the store. *)
Definition freeze (d : Descriptor) : Node :=
  mkNode (Some (dtype d)) (Some (dvalue d)) None None None None
         (Some (map (fun r => nth r (heap d) (mkFilter None [])) (refs d))) None.

(** [var current = { type: Filter, args: [] }] *)
Definition allocate (d : Descriptor) : nat * Descriptor :=
  (length (heap d),
   mkDescriptor (dtype d) (dvalue d) (refs d) (heap d ++ [mkFilter None []])).

(** [root.filters.push(current)] *)
Definition pushFilter (d : Descriptor) (current : nat) : Descriptor :=
  mkDescriptor (dtype d) (dvalue d) (refs d ++ [current]) (heap d).

Section Parser.

(** [String.prototype.trim] and the test [Number(value) === Number(value)]
    belong to the host language. *)
Variable trim : string -> string.
Variable numeric : string -> bool.

(** The [OTHER] case: the first one names the filter, the later ones are
    its arguments. *)
Definition filterOther (text : string) (c : Filter) : Filter :=
  match fvalue c with
  | None => mkFilter (Some (trim text)) (fargs c)
  | Some _ => mkFilter (fvalue c) (fargs c ++ [trim text])
  end.

(** The loop of [constructFilter] around its [current] object. The nested
    call on a second separator allocates its own [current], runs the same
    loop, and gives the stack back to this one, which leaves its [switch]
    and goes on. The variable [previous] of the method is never read. *)
Fixpoint constructFilter_loop (fuel : nat) (current : nat) (root : Descriptor)
    (stack : list Token) : Run (Descriptor * list Token) :=
  match fuel with
  | O => OutOfFuel
  | S fuel =>
      match stack with
      | [] => Done (root, [])
      | node :: stack =>
          match name node with
          | OTHER =>
              let root := mkDescriptor (dtype root) (dvalue root) (refs root)
                            (alter (filterOther (capture node)) current (heap root)) in
              constructFilter_loop fuel current root stack
          | WHITESPACE => constructFilter_loop fuel current root stack
          | END_RAW | END_PROP => Done (pushFilter root current, stack)
          | FILTER =>
              let root := pushFilter root current in
              let (nested, root) := allocate root in
              '(root, stack) <- constructFilter_loop fuel nested root stack ;;
              constructFilter_loop fuel current root stack
          | other => Raise (unexpected other)
          end
      end
  end.

Definition constructFilter (fuel : nat) (root : Descriptor) (stack : list Token)
    : Run (Descriptor * list Token) :=
  let (current, root) := allocate root in
  constructFilter_loop fuel current root stack.

Fixpoint constructProperty_loop (fuel : nat) (propertyDescriptor : Descriptor)
    (stack : list Token) : Run (Node * list Token) :=
  match stack with
  | [] => Raise (Error "Unterminated property.")
  | node :: stack =>
      match name node with
      | WHITESPACE => constructProperty_loop fuel propertyDescriptor stack
      | FILTER =>
          '(root, stack) <- constructFilter fuel propertyDescriptor stack ;;
          Done (freeze root, stack)
      | END_RAW | END_PROP => Done (freeze propertyDescriptor, stack)
      | _ =>
          constructProperty_loop fuel
            (mkDescriptor (dtype propertyDescriptor)
               (dvalue propertyDescriptor ++ trim (capture node))%string
               (refs propertyDescriptor) (heap propertyDescriptor))
            stack
      end
  end.

Definition constructProperty (fuel : nat) (encoded : bool) (stack : list Token)
    : Run (Node * list Token) :=
  constructProperty_loop fuel
    (mkDescriptor (if encoded then Property else RawProperty) EmptyString [] []) stack.

(** *** Partials *)

Fixpoint constructPartial_loop (root : Node) (stack : list Token)
    : Run (Node * list Token) :=
  match stack with
  | [] => Done (root, [])
  | node :: stack =>
      match name node with
      | OTHER =>
          match value root with
          | None =>
              constructPartial_loop (set_value root (Some (trim (capture node)))) stack
          | Some _ =>
              match args root with
              | None => Raise TypeError
              | Some a =>
                  constructPartial_loop
                    (set_args root (Some (a ++ [trim (capture node)]))) stack
              end
          end
      | WHITESPACE => constructPartial_loop root stack
      | END_EXPR => Done (root, stack)
      | other => Raise (unexpected other)
      end
  end.

Definition constructPartial (root : Node) (stack : list Token)
    : Run (Node * list Token) :=
  constructPartial_loop
    (set_args (set_nodes (set_type root (Some PartialExpression)) None) (Some []))
    stack.

(** *** Comments

    [previous] is the name of the token of the iteration before, missing
    on the first one. The method always returns [false]; what is left of
    the stack is all the caller gets. *)
Fixpoint constructComment_loop (fuel : nat) (previous : option TokenName)
    (stack : list Token) : Run (list Token) :=
  match fuel with
  | O => OutOfFuel
  | S fuel =>
      match stack with
      | [] => Done []
      | node :: stack =>
          match name node with
          | COMMENT =>
              match previous with
              | Some START_EXPR =>
                  stack <- constructComment_loop fuel None stack ;;
                  constructComment_loop fuel (Some COMMENT) stack
              | _ => constructComment_loop fuel (Some COMMENT) stack
              end
          | END_EXPR =>
              match previous with
              | Some COMMENT => Done stack
              | _ => constructComment_loop fuel (Some END_EXPR) stack
              end
          | other => constructComment_loop fuel (Some other) stack
          end
      end
  end.

Definition constructComment (fuel : nat) (root : Node) (stack : list Token)
    : Run (list Token) :=
  constructComment_loop fuel None stack.

(** *** Bodies, expressions, loops and conditionals *)

(** [root.type = root.type || ...; root.conditions = root.conditions || []] *)
Definition asConditional (root : Node) : Node :=
  set_conditions
    (set_type root
       (Some (match type root with Some t => t | None => ConditionalExpression end)))
    (Some (match conditions root with Some cs => cs | None => [] end)).

(** [root.type = ...; root.conditions = []] *)
Definition asLoop (root : Node) : Node :=
  set_conditions (set_type root (Some LoopExpression)) (Some []).

(** The object [previous] refers to, as its index in [root.conditions]:
    [root.conditions[root.conditions.length - 1] || {}]. *)
Definition lastCondition (root : Node) : option nat :=
  match conditions root with
  | Some (c :: cs) => Some (length (c :: cs) - 1)
  | _ => None
  end.

(** [previous.type === Identifier] *)
Definition previousIsIdentifier (root : Node) (previous : option nat) : bool :=
  match previous, conditions root with
  | Some i, Some cs =>
      match nth_error cs i with
      | Some c => match ctype c with Identifier => true | _ => false end
      | None => false
      end
  | _, _ => false
  end.

(** [previous.value += value] *)
Definition appendToPrevious (root : Node) (previous : option nat) (v : string) : Node :=
  match previous, conditions root with
  | Some i, Some cs =>
      set_conditions root
        (Some (alter (fun c => mkCondition (ctype c) (Some (JS.str (cvalue c) ++ v)%string))
                     i cs))
  | _, _ => root
  end.

(** The [default] case of [make]: a text node that takes over the text of
    the sibling before it. *)
Definition pushText (root : Node) (ns : list Node) (node : Token) : Node :=
  match lastOf ns with
  | Some prev =>
      match type prev with
      | Some Text =>
          set_nodes root
            (Some (removelast ns ++ [textNode (JS.str (value prev) ++ capture node)%string]))
      | _ => set_nodes root (Some (ns ++ [textNode (capture node)]))
      end
  | None => set_nodes root (Some (ns ++ [textNode (capture node)]))
  end.

(** The methods below work on objects they share with their caller: the
    object a method got as [root] is the one the caller holds, and the
    object [constructConditional] attaches as [root.els] or [root.elsif]
    is the one it returns, which [make] may push among the children as
    well. Every method therefore returns the object it got as [root] in
    the state it left it in, next to its result and to the rest of the
    stack. No method writes to an object once it has returned it, so an
    object that is reachable twice is written as two equal values. *)
Fixpoint make (fuel : nat) (root : Node) (END : option TokenName)
    (stack : list Token) {struct fuel} : Run (Made * Node * list Token) :=
  match fuel with
  | O => OutOfFuel
  | S fuel =>
      match stack with
      | [] => Done (Root, root, [])
      | node :: stack =>
          match nodes root with
          | None => Raise TypeError
          | Some ns =>
              match name node with
              | START_RAW =>
                  '(property, stack) <- constructProperty fuel false stack ;;
                  root <- push root property ;;
                  make fuel root END stack
              | START_PROP =>
                  '(property, stack) <- constructProperty fuel true stack ;;
                  root <- push root property ;;
                  make fuel root END stack
              | START_EXPR =>
                  '(result, root, stack) <- constructExpression fuel root END stack ;;
                  match result with
                  | RNode n =>
                      root <- push root n ;;
                      make fuel root END stack
                  | RFalse => make fuel root END stack
                  | _ => Done (Null, root, stack)
                  end
              | END_EXPR => make fuel root END stack
              | _ => make fuel (pushText root ns node) END stack
              end
          end
      end
  end

with constructExpression (fuel : nat) (root : Node) (END : option TokenName)
    (stack : list Token) {struct fuel} : Run (Returned * Node * list Token) :=
  match fuel with
  | O => OutOfFuel
  | S fuel =>
      let expressionRoot := emptyRoot in
      match stack with
      | [] => Done (RUndefined, root, [])
      | type :: stack =>
          if isEnd END (name type) then Done (RUndefined, root, stack)
          else
            match name type with
            | WHITESPACE => constructExpression fuel root END stack
            | COMMENT =>
                stack <- constructComment fuel expressionRoot stack ;;
                Done (RFalse, root, stack)
            | START_EACH =>
                '(loop, stack) <- constructEach fuel expressionRoot stack ;;
                Done (RNode loop, root, stack)
            | ELSIF | ELSE =>
                constructConditional fuel root (Some (name type)) stack
            | START_IF =>
                '(result, _, stack) <-
                  constructConditional fuel expressionRoot (Some START_IF) stack ;;
                Done (result, root, stack)
            | PARTIAL =>
                '(partial, stack) <- constructPartial expressionRoot stack ;;
                Done (RNode partial, root, stack)
            | _ => Raise (Error "Invalid expression type.")
            end
      end
  end

with constructEach (fuel : nat) (root : Node) (stack : list Token)
    {struct fuel} : Run (Node * list Token) :=
  match fuel with
  | O => OutOfFuel
  | S fuel => constructEach_loop fuel (asLoop root) stack
  end

with constructEach_loop (fuel : nat) (root : Node) (stack : list Token)
    {struct fuel} : Run (Node * list Token) :=
  match fuel with
  | O => OutOfFuel
  | S fuel =>
      let body stack :=
        '(_, root, stack) <- make fuel root (Some END_EACH) stack ;;
        Done (root, stack) in
      match stack with
      | [] => body []
      | node :: stack =>
          match name node with
          | OTHER =>
              root <- pushCondition root
                        (mkCondition Identifier (Some (trim (capture node)))) ;;
              constructEach_loop fuel root stack
          | ASSIGN =>
              root <- pushCondition root
                        (mkCondition Assignment (Some (trim (capture node)))) ;;
              constructEach_loop fuel root stack
          | END_EXPR => body stack
          | _ => constructEach_loop fuel root stack
          end
      end
  end

with constructConditional (fuel : nat) (root : Node) (kind : option TokenName)
    (stack : list Token) {struct fuel} : Run (Returned * Node * list Token) :=
  match fuel with
  | O => OutOfFuel
  | S fuel =>
      let root := asConditional root in
      match kind with
      | Some ELSE =>
          '(made, els, stack) <- make fuel emptyRoot (Some END_IF) stack ;;
          Done (match made with Root => RNode els | Null => RNull end,
                set_els root (Some els), stack)
      | Some ELSIF =>
          '(result, elsif, stack) <- constructConditional fuel emptyRoot None stack ;;
          Done (result, set_elsif root (Some elsif), stack)
      | _ => constructConditional_loop fuel root None stack
      end
  end

with constructConditional_loop (fuel : nat) (root : Node) (previous : option nat)
    (stack : list Token) {struct fuel} : Run (Returned * Node * list Token) :=
  match fuel with
  | O => OutOfFuel
  | S fuel =>
      let body stack :=
        '(_, root, stack) <- make fuel root (Some END_IF) stack ;;
        Done (RNode root, root, stack) in
      match stack with
      | [] => body []
      | node :: stack =>
          let value := trim (capture node) in
          let next root := constructConditional_loop fuel root (lastCondition root) stack in
          match name node with
          | NOT =>
              root <- pushCondition root (mkCondition Not None) ;;
              next root
          | EQUALITY | NOT_EQUALITY | GREATER_THAN | GREATER_THAN_EQUAL
          | LESS_THAN | LESS_THAN_EQUAL =>
              root <- pushCondition root (mkCondition Equality (Some value)) ;;
              next root
          | END_EXPR => body stack
          | WHITESPACE => next root
          | _ =>
              if String.eqb value "false" || String.eqb value "true" then
                root <- pushCondition root (mkCondition Literal (Some value)) ;;
                next root
              else if numeric value then
                root <- pushCondition root (mkCondition Literal (Some value)) ;;
                next root
              else if isString value then
                root <- pushCondition root (mkCondition Literal (Some value)) ;;
                next root
              else if previousIsIdentifier root previous then
                next (appendToPrevious root previous value)
              else
                root <- pushCondition root (mkCondition Identifier (Some value)) ;;
                next root
          end
      end
  end.

(** [new Tree(stack).make()]: the root is a [Template] without children.
    Four steps a token and one more always suffice. *)
Definition templateRoot : Node :=
  mkNode (Some Template) None (Some []) None None None None None.

Definition parse (stack : list Token) : Run (Made * Node * list Token) :=
  make (4 * length stack + 1) templateRoot None stack.

End Parser.

End Tree.

(** ** The two host functions, for running the parser

    [trim] strips, at both ends, the white space and the line terminators
    of the language: TAB, LF, VT, FF, CR and space, and in their UTF-8
    bytes U+00A0, U+1680, U+2000 to U+200A, U+2028, U+2029, U+202F,
    U+205F, U+3000 and U+FEFF. [numeric] accepts what [Number] reads as a number among the
    ASCII spellings: the empty string, a decimal literal with an optional
    sign, fraction and exponent, [Infinity] with an optional sign, and a
    hexadecimal, octal or binary literal. *)

Module Host.

Definition isSpace (a : ascii) : bool :=
  let n := nat_of_ascii a in
  (Nat.leb 9 n && Nat.leb n 13) || Nat.eqb n 32.

(** The two bytes of U+00A0. *)
Definition wide2 (a b : nat) : bool := Nat.eqb a 194 && Nat.eqb b 160.

(** The three bytes of the other white space code points. *)
Definition wide3 (a b c : nat) : bool :=
  (Nat.eqb a 225 && Nat.eqb b 154 && Nat.eqb c 128)
  || (Nat.eqb a 226 && Nat.eqb b 128
      && ((Nat.leb 128 c && Nat.leb c 138)
          || Nat.eqb c 168 || Nat.eqb c 169 || Nat.eqb c 175))
  || (Nat.eqb a 226 && Nat.eqb b 129 && Nat.eqb c 159)
  || (Nat.eqb a 227 && Nat.eqb b 128 && Nat.eqb c 128)
  || (Nat.eqb a 239 && Nat.eqb b 187 && Nat.eqb c 191).

(** White space taken from the front of the bytes of a string, and from
    the front of its bytes read backwards. *)
Fixpoint trimLeft (l : list ascii) : list ascii :=
  match l with
  | a :: r =>
      if isSpace a then trimLeft r
      else
        match r with
        | b :: r' =>
            if wide2 (nat_of_ascii a) (nat_of_ascii b) then trimLeft r'
            else
              match r' with
              | c :: r'' =>
                  if wide3 (nat_of_ascii a) (nat_of_ascii b) (nat_of_ascii c)
                  then trimLeft r''
                  else l
              | [] => l
              end
        | [] => l
        end
  | [] => []
  end.

Fixpoint trimRight (l : list ascii) : list ascii :=
  match l with
  | c :: r =>
      if isSpace c then trimRight r
      else
        match r with
        | b :: r' =>
            if wide2 (nat_of_ascii b) (nat_of_ascii c) then trimRight r'
            else
              match r' with
              | a :: r'' =>
                  if wide3 (nat_of_ascii a) (nat_of_ascii b) (nat_of_ascii c)
                  then trimRight r''
                  else l
              | [] => l
              end
        | [] => l
        end
  | [] => []
  end.

Definition trim (s : string) : string :=
  string_of_list_ascii
    (rev (trimRight (rev (trimLeft (list_ascii_of_string s))))).

Definition isDigit (a : ascii) : bool :=
  let n := nat_of_ascii a in Nat.leb 48 n && Nat.leb n 57.

Definition isHexDigit (a : ascii) : bool :=
  let n := nat_of_ascii a in
  isDigit a || (Nat.leb 65 n && Nat.leb n 70) || (Nat.leb 97 n && Nat.leb n 102).

(** The longest prefix of digits: how many, and what follows. *)
Fixpoint digits (l : list ascii) : nat * list ascii :=
  match l with
  | a :: r => if isDigit a then let (n, r') := digits r in (S n, r') else (O, l)
  | [] => (O, [])
  end.

Definition signed (l : list ascii) : list ascii :=
  match l with
  | "+"%char :: r => r
  | "-"%char :: r => r
  | _ => l
  end.

Definition exponent (l : list ascii) : bool :=
  match l with
  | [] => true
  | a :: r =>
      if Ascii.eqb a "e"%char || Ascii.eqb a "E"%char then
        match digits (signed r) with
        | (S _, []) => true
        | _ => false
        end
      else false
  end.

Definition unsignedDecimal (l : list ascii) : bool :=
  let (n, r) := digits l in
  match r with
  | "."%char :: r' =>
      let (m, r'') := digits r' in
      negb (Nat.eqb (n + m) 0) && exponent r''
  | _ => negb (Nat.eqb n 0) && exponent r
  end.

Definition isOctalDigit (a : ascii) : bool :=
  let n := nat_of_ascii a in Nat.leb 48 n && Nat.leb n 55.

Definition isBinaryDigit (a : ascii) : bool :=
  let n := nat_of_ascii a in Nat.leb 48 n && Nat.leb n 49.

Definition prefixed (l : list ascii) : bool :=
  match l with
  | "0"%char :: x :: (_ :: _) as r =>
      ((Ascii.eqb x "x"%char || Ascii.eqb x "X"%char) && forallb isHexDigit r)
      || ((Ascii.eqb x "o"%char || Ascii.eqb x "O"%char) && forallb isOctalDigit r)
      || ((Ascii.eqb x "b"%char || Ascii.eqb x "B"%char) && forallb isBinaryDigit r)
  | _ => false
  end.

Definition numeric (s : string) : bool :=
  let l := list_ascii_of_string (trim s) in
  match l with
  | [] => true
  | _ =>
      String.eqb (string_of_list_ascii (signed l)) "Infinity"
      || unsignedDecimal (signed l)
      || prefixed l
  end.

End Host.

(** ** Predicates on trees and on stacks *)

Definition set_filters (n : Node) (f : option (list Filter)) : Node :=
  mkNode (type n) (value n) (nodes n) (conditions n) (els n) (elsif n) f (args n).

(** A chain of keyed lookups on the current data scope, written out:
    [data], then each key in single quotes between square brackets. *)
Fixpoint keyed (keys : list string) : string :=
  match keys with
  | [] => EmptyString
  | key :: more => ("['" ++ key ++ "']" ++ keyed more)%string
  end.

Definition lookups (keys : list string) : string := ("data" ++ keyed keys)%string.

(** A character that a string does not hold. *)
Definition absent (c : ascii) (s : string) : bool := negb (JS.includes c s).

Definition missingConditions : Exn := Error "Missing conditions to if statement.".

Definition raisesNot {A} (e : Exn) (r : Result A) : Prop := r <> Throw e.

(** Every conditional the compiler reaches from a node has a condition.
    The traversal is the compiler's: the children by their type, the
    else-body, and the elsif whatever its type. *)
Module Conditioned.
Section Children.
Variables conditional loop : Node -> bool.

Definition child (node : Node) : bool :=
  match type node with
  | Some ConditionalExpression => conditional node
  | Some LoopExpression => loop node
  | _ => true
  end.

Definition children (nodes : option (list Node)) : bool :=
  match nodes with
  | Some l => forallb child l
  | None => true
  end.
End Children.

Fixpoint conditional (node : Node) : bool :=
  match conditions node with Some [] => false | _ => true end
  && match els node with
     | Some e => children conditional loop (nodes e)
     | None => true
     end
  && match elsif node with
     | Some e => conditional e
     | None => true
     end
  && children conditional loop (nodes node)
with loop (node : Node) : bool :=
  children conditional loop (nodes node).
End Conditioned.

(** No two neighbours in a list of siblings are both [Text]. *)
Definition isText (n : Node) : bool :=
  match type n with Some Text => true | _ => false end.

Fixpoint separated (l : list Node) : bool :=
  match l with
  | a :: (b :: _) as r => negb (isText a && isText b) && separated r
  | _ => true
  end.

(** Every list of children in a tree is separated: the children of the
    node, of its else-body, of its elsif, and of their descendants. *)
Fixpoint coalesced (n : Node) : bool :=
  match nodes n with
  | Some l => separated l && forallb coalesced l
  | None => true
  end
  && match els n with Some e => coalesced e | None => true end
  && match elsif n with Some e => coalesced e | None => true end.

(** A root or a result of the parser: coalesced, and not itself a text. *)
Definition wellFormed (n : Node) : bool := negb (isText n) && coalesced n.

(** Total correctness of a run: it ends within its fuel, and if it ends
    without an exception its result satisfies [Q]. *)
Definition total {A} (r : Tree.Run A) (Q : A -> Prop) : Prop :=
  match r with
  | Tree.Done a => Q a
  | Tree.Raise _ => True
  | Tree.OutOfFuel => False
  end.

(** What the parsing methods promise about the root they were given, the
    node they return and the stack they leave. *)
Definition madeOk (root : Node) (stack : list Tree.Token)
    (r : Tree.Made * Node * list Tree.Token) : Prop :=
  let '(_, root', rest) := r in
  length rest <= length stack /\
  (wellFormed root = true -> wellFormed root' = true).

Definition returnedOk (root : Node) (stack : list Tree.Token)
    (r : Tree.Returned * Node * list Tree.Token) : Prop :=
  let '(result, root', rest) := r in
  length rest <= length stack /\
  (wellFormed root = true ->
   wellFormed root' = true /\
   match result with Tree.RNode n => wellFormed n = true | _ => True end).

Definition loopOk (root : Node) (stack : list Tree.Token)
    (r : Node * list Tree.Token) : Prop :=
  let '(root', rest) := r in
  length rest <= length stack /\
  (wellFormed root = true -> wellFormed root' = true).

(** The fuel each method needs on a stack of [n] tokens, and what it
    achieves with it. *)
Definition conditionalFuel (kind : option Tree.TokenName) (n : nat) : nat :=
  4 * n + match kind with Some Tree.ELSIF => 4 | _ => 3 end.

Section Fuel.
Variable trim : string -> string.
Variable numeric : string -> bool.

Definition totalAt (fuel : nat) : Prop :=
  (forall root END stack,
     4 * length stack + 1 <= fuel ->
     total (Tree.make trim numeric fuel root END stack) (madeOk root stack)) /\
  (forall root END stack,
     4 * length stack + 1 <= fuel ->
     total (Tree.constructExpression trim numeric fuel root END stack)
           (returnedOk root stack)) /\
  (forall root stack,
     4 * length stack + 3 <= fuel ->
     total (Tree.constructEach trim numeric fuel root stack)
           (loopOk (Tree.asLoop root) stack)) /\
  (forall root stack,
     4 * length stack + 2 <= fuel ->
     total (Tree.constructEach_loop trim numeric fuel root stack)
           (loopOk root stack)) /\
  (forall root kind stack,
     conditionalFuel kind (length stack) <= fuel ->
     total (Tree.constructConditional trim numeric fuel root kind stack)
           (returnedOk root stack)) /\
  (forall root previous stack,
     4 * length stack + 2 <= fuel ->
     total (Tree.constructConditional_loop trim numeric fuel root previous stack)
           (returnedOk root stack)).
End Fuel.

(** The tokens the [default] case of [make] turns into text. *)
Definition textToken (n : Tree.TokenName) : bool :=
  match n with
  | Tree.START_RAW | Tree.START_PROP | Tree.START_EXPR | Tree.END_EXPR => false
  | _ => true
  end.

(** A comment end, [COMMENT] then [END_EXPR], occurs in the stack, the
    token before the stack being [previous]. *)
Fixpoint closes (previous : option Tree.TokenName) (stack : list Tree.Token) : bool :=
  match stack with
  | [] => false
  | node :: rest =>
      match previous, Tree.name node with
      | Some Tree.COMMENT, Tree.END_EXPR => true
      | _, _ => closes (Some (Tree.name node)) rest
      end
  end.

(** No token of the stack ends a property or starts a filter. *)
Definition unterminated (stack : list Tree.Token) : bool :=
  forallb (fun node =>
             match Tree.name node with
             | Tree.END_RAW | Tree.END_PROP | Tree.FILTER => false
             | _ => true
             end) stack.

(** The inside of a comment that neither ends nor nests one. *)
Definition plain (stack : list Tree.Token) : bool :=
  forallb (fun node =>
             match Tree.name node with
             | Tree.COMMENT | Tree.START_EXPR => false
             | _ => true
             end) stack.

(** The type and the conditions a root has, it keeps. *)
Definition keeps (root root' : Node) : Prop :=
  (forall t, type root = Some t -> type root' = Some t) /\
  (forall cs, conditions root = Some cs -> conditions root' = Some cs).

(** The inside of a loop tag that names no source and no alias. *)
Definition bareHeader (stack : list Tree.Token) : bool :=
  forallb (fun node =>
             match Tree.name node with
             | Tree.OTHER | Tree.ASSIGN | Tree.END_EXPR => false
             | _ => true
             end) stack.

(** The name and the arguments of one filter. *)
Definition filterWords (stack : list Tree.Token) : bool :=
  forallb (fun node =>
             match Tree.name node with
             | Tree.OTHER | Tree.WHITESPACE => true
             | _ => false
             end) stack.

(** ** Sample trees and token streams *)

Module Sample.
Import Tree.

Definition run : list Token -> Run (Made * Node * list Token) :=
  parse Host.trim Host.numeric.

Definition template (children : list Node) : Node :=
  set_nodes templateRoot (Some children).

Definition property (t : NodeType) (v : string) (fs : list Filter) : Node :=
  mkNode (Some t) (Some v) None None None None (Some fs) None.

Definition ifNode (c : string) (body : list Node) (e ei : option Node) : Node :=
  mkNode (Some ConditionalExpression) None (Some body)
    (Some [mkCondition Identifier (Some c)]) e ei None None.

Definition elseBody (body : list Node) : Node := set_nodes emptyRoot (Some body).

Definition noConditions : Node :=
  mkNode (Some ConditionalExpression) None (Some []) (Some []) None None None None.

Definition quotedProperty : Node := property Property "'hello'" [].
Definition dottedProperty : Node := property RawProperty "user.name" [].

Definition upperTruncate : Node :=
  property Property "x" [mkFilter (Some "upper"%string) [];
                         mkFilter (Some "truncate"%string) ["5"%string]].

Definition elseAndElsif : Node :=
  ifNode "a" [textNode "A"] (Some (elseBody [textNode "E"]))
    (Some (ifNode "b" [textNode "B"] None None)).

Definition bareLoop : Node :=
  mkNode (Some LoopExpression) None (Some [property Property "." []])
    (Some []) None None None None.

(** [{%each%}{{.}}{%endeach%}] *)
Definition bareEach : list Token :=
  [ mkToken START_EXPR "{%"; mkToken START_EACH "each"; mkToken END_EXPR "%}";
    mkToken START_PROP "{{"; mkToken OTHER "."; mkToken END_PROP "}}";
    mkToken START_EXPR "{%"; mkToken END_EACH "endeach"; mkToken END_EXPR "%}" ].

(** [{{hello}}{%--{{test}}] *)
Definition openComment : list Token :=
  [ mkToken START_PROP "{{"; mkToken OTHER "hello"; mkToken END_PROP "}}";
    mkToken START_EXPR "{%"; mkToken COMMENT "--";
    mkToken START_PROP "{{"; mkToken OTHER "test"; mkToken END_PROP "}}" ].

(** [{{test}}--%}har], what follows the marker of a closed comment *)
Definition closedComment : list Token :=
  [ mkToken START_PROP "{{"; mkToken OTHER "test"; mkToken END_PROP "}}";
    mkToken COMMENT "--"; mkToken END_EXPR "%}"; mkToken OTHER "har" ].

(** [{{x|a}}y] and [{{x|a|b}}y] *)
Definition oneFilter : list Token :=
  [ mkToken START_PROP "{{"; mkToken OTHER "x"; mkToken FILTER "|";
    mkToken OTHER "a"; mkToken END_PROP "}}"; mkToken OTHER "y" ].

Definition twoFilters : list Token :=
  [ mkToken START_PROP "{{"; mkToken OTHER "x"; mkToken FILTER "|";
    mkToken OTHER "a"; mkToken FILTER "|"; mkToken OTHER "b";
    mkToken END_PROP "}}"; mkToken OTHER "y" ].

(** [{{x|a|b}}{{z}}] *)
Definition twoFiltersThenProperty : list Token :=
  [ mkToken START_PROP "{{"; mkToken OTHER "x"; mkToken FILTER "|";
    mkToken OTHER "a"; mkToken FILTER "|"; mkToken OTHER "b";
    mkToken END_PROP "}}";
    mkToken START_PROP "{{"; mkToken OTHER "z"; mkToken END_PROP "}}" ].

(** [{%if a%}A{%elsif%}{%endif%}] *)
Definition ifBareElsif : list Token :=
  [ mkToken START_EXPR "{%"; mkToken START_IF "if"; mkToken WHITESPACE " ";
    mkToken OTHER "a"; mkToken END_EXPR "%}"; mkToken OTHER "A";
    mkToken START_EXPR "{%"; mkToken ELSIF "elsif"; mkToken END_EXPR "%}";
    mkToken START_EXPR "{%"; mkToken END_IF "endif"; mkToken END_EXPR "%}" ].

(** [{%if a%}A{%else%}B{%endif%}rest] *)
Definition ifElse : list Token :=
  [ mkToken START_EXPR "{%"; mkToken START_IF "if"; mkToken WHITESPACE " ";
    mkToken OTHER "a"; mkToken END_EXPR "%}"; mkToken OTHER "A";
    mkToken START_EXPR "{%"; mkToken ELSE "else"; mkToken END_EXPR "%}";
    mkToken OTHER "B";
    mkToken START_EXPR "{%"; mkToken END_IF "endif"; mkToken END_EXPR "%}";
    mkToken OTHER "rest" ].

(** [{%if a%}A{%elsif b%}B{%endif%}rest] *)
Definition ifElsif : list Token :=
  [ mkToken START_EXPR "{%"; mkToken START_IF "if"; mkToken WHITESPACE " ";
    mkToken OTHER "a"; mkToken END_EXPR "%}"; mkToken OTHER "A";
    mkToken START_EXPR "{%"; mkToken ELSIF "elsif"; mkToken WHITESPACE " ";
    mkToken OTHER "b"; mkToken END_EXPR "%}"; mkToken OTHER "B";
    mkToken START_EXPR "{%"; mkToken END_IF "endif"; mkToken END_EXPR "%}";
    mkToken OTHER "rest" ].

End Sample.

(** ** Further predicates and readers *)

(** Reading the inside of a single-quoted literal back: the escapes the
    escaper writes are undone; a bare quote, line feed or carriage return,
    and any other escape, do not belong to such a literal. *)
Fixpoint unescape (s : string) : option string :=
  match s with
  | EmptyString => Some EmptyString
  | String a r =>
      if Ascii.eqb a "\"%char then
        match r with
        | String b r' =>
            let escaped (c : ascii) := option_map (String c) (unescape r') in
            if Ascii.eqb b "\"%char then escaped "\"%char
            else if Ascii.eqb b "'"%char then escaped "'"%char
            else if Ascii.eqb b "r"%char then escaped "013"%char
            else if Ascii.eqb b "n"%char then escaped "010"%char
            else if Ascii.eqb b "t"%char then escaped "009"%char
            else if Ascii.eqb b "u"%char then
              match r' with
              | String "2" (String "0" (String "2" (String d r''))) =>
                  let separator (c : ascii) :=
                    option_map (fun t => String "226" (String "128" (String c t)))
                               (unescape r'') in
                  if Ascii.eqb d "8"%char then separator "168"%char
                  else if Ascii.eqb d "9"%char then separator "169"%char
                  else None
              | _ => None
              end
            else None
        | EmptyString => None
        end
      else if Ascii.eqb a "'"%char || Ascii.eqb a "010"%char || Ascii.eqb a "013"%char
      then None
      else option_map (String a) (unescape r)
  end.

(** A stack of tokens that all become text, and the text they hold. *)
Definition textOnly (stack : list Tree.Token) : bool :=
  forallb (fun node => textToken (Tree.name node)) stack.

Definition sourceText (stack : list Tree.Token) : string :=
  String.concat EmptyString (map Tree.capture stack).

(** Only white space. *)
Definition blank (stack : list Tree.Token) : bool :=
  forallb (fun node =>
             match Tree.name node with Tree.WHITESPACE => true | _ => false end)
          stack.

(** The token names that open a construct inside an expression tag. *)
Definition construct (n : Tree.TokenName) : bool :=
  match n with
  | Tree.WHITESPACE | Tree.COMMENT | Tree.START_EACH | Tree.ELSIF | Tree.ELSE
  | Tree.START_IF | Tree.PARTIAL => true
  | _ => false
  end.

(** What the words of a tag amount to. *)
Section Words.
Variable trim : string -> string.

(** The trimmed texts of the [OTHER] tokens, in their order. *)
Definition wordsOf (stack : list Tree.Token) : list string :=
  map (fun node => trim (Tree.capture node))
      (filter (fun node =>
                 match Tree.name node with Tree.OTHER => true | _ => false end)
              stack).

(** The trimmed texts of all tokens but white space, run together. *)
Definition propertyText (stack : list Tree.Token) : string :=
  String.concat EmptyString
    (map (fun node => trim (Tree.capture node))
         (filter (fun node =>
                    match Tree.name node with Tree.WHITESPACE => false | _ => true end)
                 stack)).

(** A filter from its words: the first names it, the others are its
    arguments. *)
Definition filterOf (stack : list Tree.Token) : Filter :=
  match wordsOf stack with
  | [] => mkFilter None []
  | n :: a => mkFilter (Some n) a
  end.

(** The conditions of a loop tag: its words and its assignment markers. *)
Definition headerConditions (stack : list Tree.Token) : list Condition :=
  flat_map (fun node =>
              match Tree.name node with
              | Tree.OTHER => [mkCondition Identifier (Some (trim (Tree.capture node)))]
              | Tree.ASSIGN => [mkCondition Assignment (Some (trim (Tree.capture node)))]
              | _ => []
              end) stack.
End Words.

(** The tokens of a tag before its end. *)
Definition unclosed (stack : list Tree.Token) : bool :=
  forallb (fun node =>
             match Tree.name node with Tree.END_EXPR => false | _ => true end)
          stack.

(** A token that may stand in a partial tag. *)
Definition partialToken (n : Tree.TokenName) : bool :=
  match n with
  | Tree.OTHER | Tree.WHITESPACE | Tree.END_EXPR => true
  | _ => false
  end.

(** A filter with more words: the first names it when it has no name. *)
Definition extend (f : Filter) (words : list string) : Filter :=
  match words with
  | [] => f
  | w :: r =>
      match fvalue f with
      | None => mkFilter (Some w) (fargs f ++ r)
      | Some _ => mkFilter (fvalue f) (fargs f ++ words)
      end
  end.

(** A partial node with its name and its arguments. *)
Definition partialNode (v : option string) (a : list string) : Node :=
  mkNode (Some PartialExpression) v None None None None None (Some a).

(** The name and the arguments of a partial with more words. *)
Definition named (v : option string) (a words : list string)
    : option string * list string :=
  match words with
  | [] => (v, a)
  | w :: r =>
      match v with
      | None => (Some w, a ++ r)
      | Some _ => (v, a ++ words)
      end
  end.

(** No two neighbours in a list of conditions are both identifiers. *)
Definition isIdentifier (c : Condition) : bool :=
  match ctype c with Identifier => true | _ => false end.

Fixpoint repaired (cs : list Condition) : bool :=
  match cs with
  | a :: (b :: _) as r => negb (isIdentifier a && isIdentifier b) && repaired r
  | _ => true
  end.

(** What the tokens of a conditional tag amount to, read from the left
    with the conditions so far: a negation and a comparison are new
    conditions, white space is nothing, and a word is a new literal when
    it is [true] or [false], reads as a number or holds a quote; any
    other word is added to the text of the last condition when that is an
    identifier, and is a new identifier otherwise. *)
Section Conditions.
Variable trim : string -> string.
Variable numeric : string -> bool.

Definition literal (word : string) : bool :=
  String.eqb word "false" || String.eqb word "true"
  || numeric word || Tree.isString word.

Definition withWord (cs : list Condition) (word : string) : list Condition :=
  match Tree.lastOf cs with
  | Some last =>
      if isIdentifier last
      then removelast cs
           ++ [mkCondition Identifier (Some (JS.str (cvalue last) ++ word)%string)]
      else cs ++ [mkCondition Identifier (Some word)]
  | None => cs ++ [mkCondition Identifier (Some word)]
  end.

Definition withToken (cs : list Condition) (node : Tree.Token) : list Condition :=
  let word := trim (Tree.capture node) in
  match Tree.name node with
  | Tree.NOT => cs ++ [mkCondition Not None]
  | Tree.EQUALITY | Tree.NOT_EQUALITY | Tree.GREATER_THAN
  | Tree.GREATER_THAN_EQUAL | Tree.LESS_THAN | Tree.LESS_THAN_EQUAL =>
      cs ++ [mkCondition Equality (Some word)]
  | Tree.WHITESPACE | Tree.END_EXPR => cs
  | _ =>
      if literal word then cs ++ [mkCondition Literal (Some word)]
      else withWord cs word
  end.

Definition tagConditions (stack : list Tree.Token) : list Condition :=
  fold_left withToken stack [].

(** The words of a tag none of which is written as a literal. *)
Definition bareWords (stack : list Tree.Token) : bool :=
  forallb (fun node =>
             match Tree.name node with
             | Tree.OTHER => negb (literal (trim (Tree.capture node)))
             | Tree.WHITESPACE => true
             | _ => false
             end) stack.
End Conditions.

(** The first token, if there is one, is not the end of a tag. *)
Definition startsOpen (stack : list Tree.Token) : bool :=
  match stack with
  | node :: _ => match Tree.name node with Tree.END_EXPR => false | _ => true end
  | [] => true
  end.

(** The exceptions of the parser: the three it throws by itself. *)
Definition parseError (e : Exn) : Prop :=
  e = Error "Unterminated property." \/
  e = Error "Invalid expression type." \/
  exists n, e = Tree.unexpected n.

(** A run that, when it throws, throws one of those; and whose result,
    when it has one, satisfies [Q]. *)
Definition careful {A} (r : Tree.Run A) (Q : A -> Prop) : Prop :=
  match r with
  | Tree.Done a => Q a
  | Tree.Raise e => parseError e
  | Tree.OutOfFuel => True
  end.

Definition hasNodes (n : Node) : bool :=
  match nodes n with Some _ => true | None => false end.

Definition hasConditions (n : Node) : bool :=
  match conditions n with Some _ => true | None => false end.

Section Careful.
Variable trim : string -> string.
Variable numeric : string -> bool.

Definition carefulAt (fuel : nat) : Prop :=
  (forall root END stack,
     hasNodes root = true ->
     careful (Tree.make trim numeric fuel root END stack)
             (fun '(_, root', _) => hasNodes root' = true)) /\
  (forall root END stack,
     hasNodes root = true ->
     careful (Tree.constructExpression trim numeric fuel root END stack)
             (fun '(_, root', _) => hasNodes root' = true)) /\
  (forall root stack,
     hasNodes root = true ->
     careful (Tree.constructEach trim numeric fuel root stack) (fun _ => True)) /\
  (forall root stack,
     hasNodes root = true -> hasConditions root = true ->
     careful (Tree.constructEach_loop trim numeric fuel root stack) (fun _ => True)) /\
  (forall root kind stack,
     hasNodes root = true ->
     careful (Tree.constructConditional trim numeric fuel root kind stack)
             (fun '(_, root', _) => hasNodes root' = true)) /\
  (forall root previous stack,
     hasNodes root = true -> hasConditions root = true ->
     careful (Tree.constructConditional_loop trim numeric fuel root previous stack)
             (fun '(_, root', _) => hasNodes root' = true)).
End Careful.

(** The compiler reaches, from a list of children, a node that [leaf]
    picks: among the children themselves, in the body of a loop or of a
    conditional, in an else-body, or along an elsif that no else-body
    stands before. *)
Module Reaches.
Section Leaf.
Variable leaf : Node -> bool.

Section Children.
Variables conditional loop : Node -> bool.

Definition child (node : Node) : bool :=
  leaf node
  || match type node with
     | Some ConditionalExpression => conditional node
     | Some LoopExpression => loop node
     | _ => false
     end.

Definition children (nodes : option (list Node)) : bool :=
  match nodes with
  | Some l => existsb child l
  | None => false
  end.
End Children.

Fixpoint conditional (node : Node) : bool :=
  children conditional loop (nodes node)
  || match els node with
     | Some e => children conditional loop (nodes e)
     | None => match elsif node with
               | Some e => conditional e
               | None => false
               end
     end
with loop (node : Node) : bool :=
  children conditional loop (nodes node).

Definition tree (nodes : option (list Node)) : bool :=
  children conditional loop nodes.
End Leaf.
End Reaches.

Definition isLoop (n : Node) : bool :=
  match type n with Some LoopExpression => true | _ => false end.

Definition isEncoded (n : Node) : bool :=
  match type n with Some Property => true | _ => false end.

(** A semicolon and a line feed, what the constructor joins the parts
    of the body with. *)
Definition semicolonNewline : string := String ";" (String "010" EmptyString).

(** A node the compiler cannot compile: one without a type and without a
    value, which the [default] case of the [switch] escapes the value of,
    or a conditional without a condition. *)
Definition uncompilable (n : Node) : bool :=
  match conditions n with
  | None | Some [] => true
  | _ => false
  end
  && match type n with
     | None => match value n with None => true | Some _ => false end
     | Some ConditionalExpression => true
     | _ => false
     end.

(** ** Further sample token streams *)

Module Stacks.
Import Tree.

(** [a b], three tokens of text *)
Definition words : list Token :=
  [ mkToken OTHER "a"; mkToken WHITESPACE " "; mkToken OTHER "b" ].

(** [ user . name ] between the braces of a property *)
Definition dotted : list Token :=
  [ mkToken WHITESPACE " "; mkToken OTHER "user"; mkToken OTHER ".";
    mkToken OTHER "name"; mkToken WHITESPACE " " ].

(** [ truncate 5 ], the words of a filter *)
Definition truncate : list Token :=
  [ mkToken WHITESPACE " "; mkToken OTHER "truncate"; mkToken WHITESPACE " ";
    mkToken OTHER "5" ].

Definition upper : list Token := [ mkToken OTHER "upper" ].

(** [ header user ], the words of a partial tag *)
Definition header : list Token :=
  [ mkToken WHITESPACE " "; mkToken OTHER "header"; mkToken WHITESPACE " ";
    mkToken OTHER "user" ].

(** [ 5 > 4], what the partial tag of the test of the repository holds *)
Definition comparison : list Token :=
  [ mkToken WHITESPACE " "; mkToken OTHER "5"; mkToken WHITESPACE " ";
    mkToken GREATER_THAN ">"; mkToken WHITESPACE " "; mkToken OTHER "4";
    mkToken END_EXPR "%}" ].

(** [ items as v k] after the keyword of a loop *)
Definition items : list Token :=
  [ mkToken WHITESPACE " "; mkToken OTHER "items"; mkToken WHITESPACE " ";
    mkToken ASSIGN "as"; mkToken WHITESPACE " "; mkToken OTHER "v";
    mkToken WHITESPACE " "; mkToken OTHER "k" ].

(** [{%endeach%}], what closes the loop *)
Definition endeach : list Token :=
  [ mkToken START_EXPR "{%"; mkToken END_EACH "endeach"; mkToken END_EXPR "%}" ].

(** [ not a b == c d], the words of a conditional tag, and its end *)
Definition negated : list Token :=
  [ mkToken WHITESPACE " "; mkToken NOT "not"; mkToken WHITESPACE " ";
    mkToken OTHER "a"; mkToken WHITESPACE " "; mkToken OTHER "b";
    mkToken WHITESPACE " "; mkToken EQUALITY "=="; mkToken WHITESPACE " ";
    mkToken OTHER "c"; mkToken WHITESPACE " "; mkToken OTHER "d";
    mkToken END_EXPR "%}";
    mkToken START_EXPR "{%"; mkToken END_IF "endif"; mkToken END_EXPR "%}" ].

(** [ a b c], three words of a conditional tag, and [{%endif%}] *)
Definition threeWords : list Token :=
  [ mkToken WHITESPACE " "; mkToken OTHER "a"; mkToken WHITESPACE " ";
    mkToken OTHER "b"; mkToken WHITESPACE " "; mkToken OTHER "c" ].

Definition endif : list Token :=
  [ mkToken START_EXPR "{%"; mkToken END_IF "endif"; mkToken END_EXPR "%}" ].

(** [{%foo%}], a tag that opens nothing *)
Definition unknown : list Token :=
  [ mkToken START_EXPR "{%"; mkToken WHITESPACE " "; mkToken OTHER "foo";
    mkToken END_EXPR "%}" ].

(** A loop over a list with one encoded property in its body. *)
Definition loopOver : Node :=
  mkNode (Some LoopExpression) None
    (Some [mkNode (Some Property) (Some "."%string) None None None None
             (Some []) None])
    (Some [mkCondition Identifier (Some "items"%string)]) None None None None.

(** What [loopOver] compiles to. *)
Definition loopOverSource : string :=
  "map(data['items'],'i','.',data,function(data) {return ( typeof data['.'] === 'function' ? encode(data['.']()) : encode(data['.']) )}).join('')".

(** The loop that [items], the text [x] and [endeach] parse to. *)
Definition itemsLoop : Node :=
  mkNode (Some LoopExpression) None (Some [textNode "x"])
    (Some [ mkCondition Identifier (Some "items"%string);
            mkCondition Assignment (Some "as"%string);
            mkCondition Identifier (Some "v"%string);
            mkCondition Identifier (Some "k"%string) ])
    None None None None.

(** The conditional that [negated] parses to. *)
Definition negatedNode : Node :=
  mkNode (Some ConditionalExpression) None (Some [])
    (Some [ mkCondition Not None;
            mkCondition Identifier (Some "ab"%string);
            mkCondition Equality (Some "=="%string);
            mkCondition Identifier (Some "cd"%string) ])
    None None None None.

End Stacks.
(** * Properties of the compiler *)

Import Compiler Sample.

Section SplitJoin.
Variable c : ascii.

Lemma split_not_nil (s : string) : JS.split c s <> [].
Proof.
  destruct s as [|a r]; simpl; [discriminate|].
  destruct (Ascii.eqb a c); [discriminate|].
  destruct (JS.split c r); discriminate.
Qed.

(** Joining what [split] cut gives the string back. *)
Lemma join_split (s : string) : JS.join (String c EmptyString) (JS.split c s) = s.
Proof.
  unfold JS.join.
  induction s as [|a r IH]; simpl; [reflexivity|].
  destruct (Ascii.eqb_spec a c) as [->|Hac].
  - pose proof (split_not_nil r) as Hne.
    destruct (JS.split c r) as [|h t] eqn:E; [contradiction|].
    simpl in *. now rewrite IH.
  - pose proof (split_not_nil r) as Hne.
    destruct (JS.split c r) as [|h t] eqn:E; [contradiction|].
    destruct t as [|h' t']; simpl in *; now rewrite <- IH.
Qed.

(** No piece holds the separator. *)
Lemma split_pieces (s : string) :
  Forall (fun piece => JS.includes c piece = false) (JS.split c s).
Proof.
  induction s as [|a r IH]; simpl.
  - constructor; [reflexivity|constructor].
  - destruct (Ascii.eqb_spec a c) as [->|Hac].
    + constructor; [reflexivity|exact IH].
    + pose proof (split_not_nil r) as Hne.
      destruct (JS.split c r) as [|h t]; [contradiction|].
      inversion IH; subst. constructor; [|assumption].
      simpl. destruct (Ascii.eqb_spec a c); [contradiction|assumption].
Qed.
End SplitJoin.

Lemma concat_empty_cons (s : string) (l : list string) :
  String.concat EmptyString (s :: l) = (s ++ String.concat EmptyString l)%string.
Proof.
  destruct l as [|x l]; simpl; [|reflexivity].
  induction s as [|a s IH]; simpl; [reflexivity|now rewrite <- IH].
Qed.

Lemma append_assoc (a b c : string) : ((a ++ b) ++ c = a ++ (b ++ c))%string.
Proof. induction a as [|x a IH]; simpl; [reflexivity|now rewrite IH]. Qed.

Lemma append_empty (a : string) : (a ++ EmptyString)%string = a.
Proof. induction a as [|x a IH]; simpl; [reflexivity|now rewrite IH]. Qed.

(** The compiler's chain of lookups is the chain written out. *)
Lemma join_lookup_keyed (keys : list string) :
  JS.join EmptyString (map lookup keys) = keyed keys.
Proof.
  unfold JS.join. induction keys as [|key more IH]; [reflexivity|].
  cbn [map]. rewrite concat_empty_cons, IH. unfold lookup. cbn [keyed].
  now rewrite !append_assoc.
Qed.

Lemma normalizeIdentifier_lookups (v : string) :
  exists keys,
    normalizeIdentifier v = lookups keys /\ keys <> [] /\
    (v = "."%string -> keys = ["."%string]) /\
    (v <> "."%string ->
       JS.join "." keys = v /\
       Forall (fun key => JS.includes "."%char key = false) keys).
Proof.
  unfold normalizeIdentifier.
  destruct (String.eqb_spec v ".") as [->|Hv].
  - exists ["."%string].
    split; [reflexivity|split; [discriminate|split; [reflexivity|]]].
    intros Hne. now elim Hne.
  - exists (JS.split "."%char v).
    split; [unfold lookups; now rewrite join_lookup_keyed
           |split; [apply split_not_nil|split]].
    + intros ->. now elim Hv.
    + intros _. split; [apply join_split|apply split_pieces].
Qed.

(** *** Where a needle can occur *)

(** A needle that does not hold a character is found before it or
    after it, never across it. *)
Lemma prefix_absent (c : ascii) (needle a b : string) :
  absent c needle = true ->
  String.prefix needle (a ++ String c b) = String.prefix needle a.
Proof.
  unfold absent. revert needle.
  induction a as [|x a IH]; intros [|y needle] H; try reflexivity.
  - simpl in H. simpl.
    destruct (Ascii.eqb_spec y c) as [->|Hyc]; [discriminate|].
    destruct (ascii_dec y c); [contradiction|reflexivity].
  - simpl in H. destruct (Ascii.eqb y c); [discriminate|]. simpl.
    destruct (ascii_dec y x); [now apply IH|reflexivity].
Qed.

Lemma occurs_absent (c : ascii) (x : ascii) (needle a b : string) :
  absent c (String x needle) = true ->
  JS.occurs (String x needle) (a ++ String c b)
  = JS.occurs (String x needle) a || JS.occurs (String x needle) b.
Proof.
  intros H. induction a as [|y a IH].
  - change (EmptyString ++ String c b)%string with (String c b).
    change (JS.occurs (String x needle) (String c b))
      with (String.prefix (String x needle) (String c b)
            || JS.occurs (String x needle) b).
    replace (String.prefix (String x needle) (String c b)) with false;
      [reflexivity|].
    unfold absent in H. simpl in H. simpl.
    destruct (Ascii.eqb_spec x c) as [->|Hxc]; [discriminate|].
    destruct (ascii_dec x c); [contradiction|reflexivity].
  - change (String y a ++ String c b)%string with (String y (a ++ String c b)).
    change (JS.occurs (String x needle) (String y (a ++ String c b)))
      with (String.prefix (String x needle) (String y a ++ String c b)
            || JS.occurs (String x needle) (a ++ String c b)).
    rewrite prefix_absent by exact H. rewrite IH.
    change (JS.occurs (String x needle) (String y a))
      with (String.prefix (String x needle) (String y a)
            || JS.occurs (String x needle) a).
    now rewrite orb_assoc.
Qed.

(** The initial identifier value check, as the text it is. *)
Lemma propertyValue_text (identifier : string) (encode : bool) :
  propertyValue identifier encode
  = ("( typeof " ++ identifier ++ " === 'function' ? "
       ++ (if encode then "encode(" ++ identifier ++ "())" else identifier ++ "()")
       ++ " : "
       ++ (if encode then "encode(" ++ identifier ++ ")" else identifier)
       ++ " )")%string.
Proof.
  reflexivity.
Qed.

Lemma occurs_join_absent (c : ascii) (x : ascii) (needle : string)
    (l : list string) :
  absent c (String x needle) = true ->
  JS.occurs (String x needle) (JS.join (String c EmptyString) l)
  = existsb (JS.occurs (String x needle)) l.
Proof.
  intros H. unfold JS.join. induction l as [|a l IH]; [reflexivity|].
  destruct l as [|b l].
  - cbn [String.concat existsb]. now rewrite orb_false_r.
  - change (String.concat (String c EmptyString) (a :: b :: l))
      with (a ++ String c (String.concat (String c EmptyString) (b :: l)))%string.
    rewrite occurs_absent by exact H. now rewrite IH.
Qed.

(** The value check names [data] only where the identifier does. *)
Lemma propertyValue_data (v : string) (encode : bool) :
  JS.occurs "data" v = false ->
  JS.occurs "data" (propertyValue v encode) = false.
Proof.
  intros Hv.
  assert (Hcall : JS.occurs "data" (v ++ "()") = false).
  { now rewrite (@occurs_absent "("%char "d" "ata" v ")" eq_refl), Hv. }
  assert (Hcalled : JS.occurs "data" ("encode(" ++ v ++ "())") = false).
  { change (JS.occurs "data" ("encode" ++ String "(" (v ++ "())")) = false).
    rewrite (@occurs_absent "("%char "d" "ata" "encode" (v ++ "())") eq_refl).
    now rewrite (@occurs_absent "("%char "d" "ata" v "))" eq_refl), Hv. }
  assert (Hencoded : JS.occurs "data" ("encode(" ++ v ++ ")") = false).
  { change (JS.occurs "data" ("encode" ++ String "(" (v ++ ")")) = false).
    rewrite (@occurs_absent "("%char "d" "ata" "encode" (v ++ ")") eq_refl).
    now rewrite (@occurs_absent ")"%char "d" "ata" v EmptyString eq_refl), Hv. }
  unfold propertyValue.
  rewrite (@occurs_join_absent " "%char "d" "ata" _ eq_refl).
  cbn [existsb]. rewrite Hv.
  destruct encode; [rewrite Hcalled, Hencoded|rewrite Hcall, Hv]; reflexivity.
Qed.

(** C10. A property whose text holds a single or a double quote is
    compiled with that text itself as the value expression, and the
    expression names [data] nowhere but where the text does; a property
    whose text holds neither is compiled with a chain of keyed lookups on
    [data], one per dot-separated piece of the text, and with the one
    lookup of the key [.] when the text is the single dot. The value
    expression is the text of the type check around the identifier, which
    the filters of the node are then nested around. *)
Theorem compileProperty_identifier (node : Node) (encode : bool)
    (v : string) (fs : list Filter) :
  value node = Some v ->
  filters node = Some fs ->
  exists identifier expression,
    expression
      = ("( typeof " ++ identifier ++ " === 'function' ? "
           ++ (if encode then "encode(" ++ identifier ++ "())"
               else identifier ++ "()")
           ++ " : "
           ++ (if encode then "encode(" ++ identifier ++ ")" else identifier)
           ++ " )")%string /\
    compileProperty node encode = Ok (fold_left nestFilter fs expression) /\
    (JS.includes JS.squote v = true \/ JS.includes JS.dquote v = true ->
       identifier = v /\
       (JS.occurs "data" v = false -> JS.occurs "data" expression = false)) /\
    (JS.includes JS.squote v = false /\ JS.includes JS.dquote v = false ->
       exists keys,
         identifier = lookups keys /\ keys <> [] /\
         (v = "."%string -> keys = ["."%string]) /\
         (v <> "."%string ->
            JS.join "." keys = v /\
            Forall (fun key => JS.includes "."%char key = false) keys)).
Proof.
  intros Hv Hf.
  exists (propertyIdentifier v), (propertyValue (propertyIdentifier v) encode).
  split; [apply propertyValue_text|split; [|split]].
  - unfold compileProperty. now rewrite Hv, Hf.
  - intros H.
    assert (Hid : propertyIdentifier v = v).
    { unfold propertyIdentifier. destruct H as [H|H]; rewrite H; simpl;
        [reflexivity|now rewrite andb_false_r]. }
    split; [exact Hid|]. intros Hd.
    rewrite Hid. now apply propertyValue_data.
  - intros [H1 H2]. unfold propertyIdentifier. rewrite H1, H2. simpl.
    apply normalizeIdentifier_lookups.
Qed.

Lemma compileProperty_identifier_witness :
  compileProperty quotedProperty true
    = Ok "( typeof 'hello' === 'function' ? encode('hello'()) : encode('hello') )"%string /\
  JS.occurs "data"
    "( typeof 'hello' === 'function' ? encode('hello'()) : encode('hello') )"
    = false /\
  (exists keys,
     compileProperty dottedProperty false
       = Ok ("( typeof data" ++ keyed keys ++ " === 'function' ? data"
               ++ keyed keys ++ "() : data" ++ keyed keys ++ " )")%string /\
     JS.join "." keys = "user.name"%string) /\
  compileProperty dottedProperty false
    = Ok "( typeof data['user']['name'] === 'function' ? data['user']['name']() : data['user']['name'] )"%string.
Proof.
  destruct (@compileProperty_identifier quotedProperty true "'hello'" []
              eq_refl eq_refl) as (identifier & expression & He & H & Hq & _).
  destruct (Hq (or_introl eq_refl)) as [Hid Hd]. subst identifier expression.
  destruct (@compileProperty_identifier dottedProperty false "user.name" []
              eq_refl eq_refl) as (identifier & expression & He & H' & _ & Hk).
  destruct (Hk (conj eq_refl eq_refl)) as (keys & Hid & _ & _ & Hj).
  subst identifier expression.
  split; [exact H|]. split; [exact (Hd eq_refl)|]. split; [|reflexivity].
  exists keys. split; [|apply Hj; discriminate].
  unfold lookups in H'. rewrite !append_assoc in H'. exact H'.
Defined.

(** C8. The filters of a property nest in the order they are written:
    without filters the compiled value is the base value; with the
    filters [fs] followed by [f], it is a call of [f] whose first argument
    is the value compiled with [fs] alone and whose other arguments are
    the raw arguments of [f], in their order. *)
Theorem compileProperty_nests (node : Node) (encode : bool) (v : string) :
  value node = Some v ->
  compileProperty (set_filters node (Some [])) encode
    = Ok (propertyValue (propertyIdentifier v) encode) /\
  forall (fs : list Filter) (f : Filter),
    exists inner,
      compileProperty (set_filters node (Some fs)) encode = Ok inner /\
      compileProperty (set_filters node (Some (fs ++ [f]))) encode
        = Ok ("filters['" ++ JS.str (fvalue f) ++ "'](" ++ inner
              ++ match fargs f with
                 | [] => EmptyString
                 | a :: r => ", " ++ JS.join ", " (a :: r)
                 end
              ++ ")")%string.
Proof.
  intros Hv. unfold compileProperty, set_filters. simpl. rewrite Hv.
  split; [reflexivity|]. intros fs f.
  exists (fold_left nestFilter fs (propertyValue (propertyIdentifier v) encode)).
  split; [reflexivity|].
  rewrite fold_left_app. simpl. unfold nestFilter at 1.
  destruct (fargs f); reflexivity.
Qed.

Lemma compileProperty_nests_witness :
  exists inner,
    compileProperty (set_filters upperTruncate
                       (Some [mkFilter (Some "upper"%string) []])) true
      = Ok inner /\
    compileProperty upperTruncate true
      = Ok ("filters['truncate'](" ++ inner ++ ", 5)")%string.
Proof.
  destruct (@compileProperty_nests upperTruncate true "x" eq_refl) as [_ H].
  destruct (H [mkFilter (Some "upper"%string) []]
              (mkFilter (Some "truncate"%string) ["5"%string]))
    as (inner & H1 & H2).
  exists inner. split; [exact H1|exact H2].
Defined.

(** Induction on a node with its children, its else-body and its elsif. *)
Lemma Node_nested_ind (P : Node -> Prop) :
  (forall n,
     (forall l, nodes n = Some l -> Forall P l) ->
     (forall e, els n = Some e -> P e) ->
     (forall e, elsif n = Some e -> P e) ->
     P n) ->
  forall n, P n.
Proof.
  intros H. fix IH 1. intros [ty v ns cs e ei fs ar].
  assert (Hns : match ns with Some l => Forall P l | None => True end).
  { destruct ns as [l|]; [|exact I].
    induction l as [|a l IHl]; constructor; [apply IH|exact IHl]. }
  assert (He : match e with Some x => P x | None => True end).
  { destruct e as [x|]; [apply IH|exact I]. }
  assert (Hei : match ei with Some x => P x | None => True end).
  { destruct ei as [x|]; [apply IH|exact I]. }
  apply H; simpl.
  - intros l ->. exact Hns.
  - intros x ->. exact He.
  - intros x ->. exact Hei.
Qed.

Lemma raisesNot_bind {A B} (e : Exn) (r : Result A) (k : A -> Result B) :
  raisesNot e r -> (forall a, r = Ok a -> raisesNot e (k a)) ->
  raisesNot e (bind r k).
Proof.
  unfold raisesNot. destruct r as [a|e']; simpl; intros Hr Hk.
  - now apply Hk.
  - intros [= ->]. now apply Hr.
Qed.

Lemma raisesNot_mapM {A B} (e : Exn) (f : A -> Result B) (l : list A) :
  Forall (fun x => raisesNot e (f x)) l -> raisesNot e (mapM f l).
Proof.
  induction 1 as [|x l Hx Hl IH]; simpl; [discriminate|].
  apply raisesNot_bind; [exact Hx|]. intros y _.
  apply raisesNot_bind; [exact IH|]. intros ys _. discriminate.
Qed.

Lemma compileCondition_typeError (c : Condition) :
  raisesNot missingConditions (compileCondition c).
Proof.
  unfold compileCondition, raisesNot.
  destruct (ctype c); try discriminate. destruct (cvalue c); discriminate.
Qed.

Lemma compileProperty_typeError (node : Node) (encode : bool) :
  raisesNot missingConditions (compileProperty node encode).
Proof.
  unfold compileProperty, raisesNot.
  destruct (value node); [|discriminate]. destruct (filters node); discriminate.
Qed.

Lemma compilePartial_typeError (node : Node) :
  raisesNot missingConditions (compilePartial node).
Proof.
  unfold compilePartial, raisesNot. destruct (args node); discriminate.
Qed.

Lemma processWith_conditioned (c l : Node -> Result string) (ns : option (list Node)) :
  (forall x, ns = Some x ->
     Forall (fun n =>
               (Conditioned.conditional n = true -> raisesNot missingConditions (c n)) /\
               (Conditioned.loop n = true -> raisesNot missingConditions (l n))) x) ->
  Conditioned.children Conditioned.conditional Conditioned.loop ns = true ->
  raisesNot missingConditions (processWith c l ns).
Proof.
  intros Hall Hc. unfold processWith. destruct ns as [x|]; [|discriminate].
  specialize (Hall x eq_refl). simpl in Hc.
  apply raisesNot_bind; [|intros; discriminate].
  apply raisesNot_mapM. rewrite forallb_forall in Hc.
  rewrite Forall_forall in *. intros n Hn.
  specialize (Hall n Hn). specialize (Hc n Hn). destruct Hall as [HC HL].
  unfold compileNode, Conditioned.child in *.
  destruct (type n) as [[]|];
    try (destruct (value n); discriminate);
    auto using compileProperty_typeError, compilePartial_typeError.
Qed.

Lemma compileLoop_body (node : Node) (e : Exn) :
  raisesNot e (compileLoop node) ->
  raisesNot e (processWith compileConditional compileLoop (nodes node)).
Proof.
  destruct node as [ty v ns cs x ei fs ar]. unfold raisesNot. simpl.
  intros H E. apply H. now rewrite E.
Qed.

Lemma conditioned_compiles (node : Node) :
  (Conditioned.conditional node = true ->
     raisesNot missingConditions (compileConditional node)) /\
  (Conditioned.loop node = true ->
     raisesNot missingConditions (compileLoop node)).
Proof.
  induction node as [node Hnodes Hels Helsif] using Node_nested_ind.
  assert (Hbody : Conditioned.children Conditioned.conditional Conditioned.loop
                    (nodes node) = true ->
                  raisesNot missingConditions
                    (processWith compileConditional compileLoop (nodes node))).
  { apply processWith_conditioned. exact Hnodes. }
  split.
  - destruct node as [ty v ns cs e ei fs ar]. simpl in *.
    intros H. apply andb_prop in H as [H H4]. apply andb_prop in H as [H H3].
    apply andb_prop in H as [H1 H2].
    destruct cs as [[|c cs]|]; try discriminate.
    apply raisesNot_bind.
    { apply raisesNot_mapM. apply Forall_forall. intros x _.
      apply compileCondition_typeError. }
    intros compiled _. apply raisesNot_bind.
    { destruct e as [x|]; [|discriminate].
      apply raisesNot_bind; [|intros; discriminate].
      apply compileLoop_body. apply (Hels x eq_refl).
      destruct x; exact H2. }
    intros s1 _. apply raisesNot_bind.
    { destruct ei as [x|]; [|discriminate].
      apply raisesNot_bind; [|intros; discriminate].
      apply (Helsif x eq_refl). exact H3. }
    intros s2 _. apply raisesNot_bind; [|intros; discriminate].
    apply Hbody. exact H4.
  - destruct node as [ty v ns cs e ei fs ar]. simpl in *.
    intros H. apply raisesNot_bind; [|intros; discriminate].
    apply Hbody. exact H.
Qed.

(** C9. Compiling a conditional whose list of conditions is empty fails
    with the message of the missing conditions. Compiling a conditional
    never fails with that message when the conditional and every
    conditional the compilation reaches from it (through bodies,
    else-bodies, loops and the elsif chain) hold a condition. *)
Theorem compileConditional_missing (node : Node) :
  (conditions node = Some [] ->
     compileConditional node = Throw (Error "Missing conditions to if statement.")) /\
  (Conditioned.conditional node = true ->
     compileConditional node <> Throw (Error "Missing conditions to if statement.")).
Proof.
  split.
  - intros H. destruct node as [ty v ns cs e ei fs ar]. simpl in *. now rewrite H.
  - apply conditioned_compiles.
Qed.

Lemma compileConditional_missing_witness :
  compileConditional noConditions
    = Throw (Error "Missing conditions to if statement.") /\
  compileConditional (ifNode "a" [textNode "A"] None (Some (ifNode "b" [] None None)))
    <> Throw (Error "Missing conditions to if statement.").
Proof.
  split.
  - apply (compileConditional_missing noConditions). reflexivity.
  - apply (compileConditional_missing
             (ifNode "a" [textNode "A"] None (Some (ifNode "b" [] None None)))).
    reflexivity.
Defined.

(** A conditional with a condition whose elsif has none, built by hand
    and as the parser builds it from [{%if a%}A{%elsif%}{%endif%}]: the
    compilation of the outer one fails with the message. *)
Lemma compileConditional_missing_nested :
  conditions (ifNode "a" [textNode "A"] None (Some noConditions))
    = Some [mkCondition Identifier (Some "a"%string)] /\
  compileConditional (ifNode "a" [textNode "A"] None (Some noConditions))
    = Throw (Error "Missing conditions to if statement.") /\
  run ifBareElsif
    = Tree.Done (Tree.Root,
                 template [ifNode "a" [textNode "A"; noConditions] None
                             (Some noConditions)], []) /\
  compileConditional (ifNode "a" [textNode "A"; noConditions] None (Some noConditions))
    = Throw (Error "Missing conditions to if statement.").
Proof. repeat split; vm_compute; reflexivity. Qed.

Lemma compileConditional_nonempty (node : Node) (s : string) :
  compileConditional node = Ok s -> JS.truthy (Some s) = true.
Proof.
  destruct node as [ty v ns cs e ei fs ar]. simpl.
  destruct cs as [[|c cs]|]; try discriminate.
  destruct (mapM compileCondition (c :: cs)); [simpl|discriminate].
  destruct (match e with Some _ => _ | None => _ end); [simpl|discriminate].
  destruct (match ei with Some _ => _ | None => _ end); [simpl|discriminate].
  destruct (processWith compileConditional compileLoop ns); [simpl|discriminate].
  intros [= <-]. reflexivity.
Qed.

(** C1. The compiled conditional is a three-way choice
    [((condition)?body:alternative)]. The alternative is the compiled
    else-body when the node has one that compiles to a non-empty
    expression; otherwise it is the compiled elsif when the node has one;
    otherwise it is the literal of the empty string. *)
Theorem compileConditional_alternative (node : Node) (s : string) :
  compileConditional node = Ok s ->
  exists condition body alt,
    process (nodes node) = Ok body /\
    s = ("((" ++ condition ++ ")?" ++ body ++ ":" ++ alt ++ ")")%string /\
    let otherwise :=
      match elsif node with
      | Some ei => compileConditional ei = Ok alt
      | None => alt = "''"%string
      end in
    match els node with
    | Some e =>
        exists se, process (nodes e) = Ok se /\
                   (se <> EmptyString -> alt = se) /\
                   (se = EmptyString -> otherwise)
    | None => otherwise
    end.
Proof.
  destruct node as [ty v ns cs e ei fs ar]. unfold process. simpl.
  destruct cs as [[|c cs]|]; try discriminate.
  destruct (mapM compileCondition (c :: cs)) as [compiled|]; [simpl|discriminate].
  destruct e as [e|]; simpl.
  - destruct (processWith compileConditional compileLoop (nodes e)) as [se|];
      [simpl|discriminate].
    destruct ei as [ei|]; simpl.
    + destruct (compileConditional ei) as [sei|] eqn:Eei; [simpl|discriminate].
      destruct (processWith compileConditional compileLoop ns) as [body|];
        [simpl|discriminate].
      intros [= <-]. exists (JS.join " " (map JS.elt compiled)), body.
      unfold alternative.
      destruct se as [|a se].
      * pose proof (compileConditional_nonempty _ Eei) as Hne.
        simpl JS.truthy at 1. cbv iota. rewrite Hne.
        exists sei. split; [reflexivity|]. split; [reflexivity|].
        exists EmptyString. split; [reflexivity|]. split; [congruence|reflexivity].
      * exists (String a se). split; [reflexivity|]. split; [reflexivity|].
        exists (String a se). split; [reflexivity|]. split; [reflexivity|discriminate].
    + destruct (processWith compileConditional compileLoop ns) as [body|];
        [simpl|discriminate].
      intros [= <-]. exists (JS.join " " (map JS.elt compiled)), body.
      unfold alternative.
      destruct se as [|a se].
      * exists "''"%string. split; [reflexivity|]. split; [reflexivity|].
        exists EmptyString. split; [reflexivity|]. split; [congruence|reflexivity].
      * exists (String a se). split; [reflexivity|]. split; [reflexivity|].
        exists (String a se). split; [reflexivity|]. split; [reflexivity|discriminate].
  - destruct ei as [ei|]; simpl.
    + destruct (compileConditional ei) as [sei|] eqn:Eei; [simpl|discriminate].
      destruct (processWith compileConditional compileLoop ns) as [body|];
        [simpl|discriminate].
      intros [= <-]. exists (JS.join " " (map JS.elt compiled)), body, sei.
      split; [reflexivity|]. split; [|reflexivity].
      unfold alternative. pose proof (compileConditional_nonempty _ Eei) as Hne.
      simpl JS.truthy at 1. cbv iota. now rewrite Hne.
    + destruct (processWith compileConditional compileLoop ns) as [body|];
        [simpl|discriminate].
      intros [= <-]. exists (JS.join " " (map JS.elt compiled)), body, "''"%string.
      split; [reflexivity|]. split; reflexivity.
Qed.

Lemma compileConditional_alternative_witness :
  exists condition body alt,
    compileConditional (ifNode "a" [textNode "A"] None None)
      = Ok ("((" ++ condition ++ ")?" ++ body ++ ":" ++ alt ++ ")")%string /\
    alt = "''"%string.
Proof.
  destruct (@compileConditional_alternative
              (ifNode "a" [textNode "A"] None None) "((data['a'])?'A':'')" eq_refl)
    as (condition & body & alt & Hb & Hs & Halt).
  exists condition, body, alt. split; [|exact Halt].
  rewrite <- Hs. reflexivity.
Defined.

(** On a node with both, the alternative is the else-body and nothing of
    the elsif is compiled into the result. *)
Lemma compileConditional_else_before_elsif :
  compileConditional elseAndElsif = Ok "((data['a'])?'A':'E')"%string /\
  compileConditional (ifNode "b" [textNode "B"] None None)
    = Ok "((data['b'])?'B':'')"%string /\
  compileConditional elseAndElsif
    <> Ok "((data['a'])?'A':((data['b'])?'B':'E'))"%string.
Proof. repeat split; try reflexivity. discriminate. Qed.

(** A loop without conditions: the current data, the key keyword [i] and
    the empty value keyword. *)
Lemma compileLoop_without_conditions (node : Node) (body : string) :
  conditions node = Some [] ->
  process (nodes node) = Ok body ->
  compileLoop node
    = Ok ("map(data,'i','',data,function(data) {return " ++ body ++ "}).join('')")%string.
Proof.
  destruct node as [ty v ns cs e ei fs ar]. unfold process. simpl.
  intros -> ->. reflexivity.
Qed.

(** * Properties of the parser *)

Import Tree Sample.

Lemma total_andThen {A B} (r : Run A) (k : A -> Run B) (Q1 : A -> Prop) (Q : B -> Prop) :
  total r Q1 -> (forall a, Q1 a -> total (k a) Q) -> total (andThen r k) Q.
Proof. destruct r; simpl; auto. Qed.

Lemma total_mono {A} (r : Run A) (Q1 Q2 : A -> Prop) :
  total r Q1 -> (forall a, Q1 a -> Q2 a) -> total r Q2.
Proof. destruct r; simpl; auto. Qed.

Lemma lastOf_snoc {A} (l : list A) (x : A) : lastOf (l ++ [x]) = Some x.
Proof. unfold lastOf. now rewrite rev_app_distr. Qed.

Lemma lastOf_cases {A} (l : list A) :
  (l = [] /\ lastOf l = None) \/ (exists x, l = removelast l ++ [x] /\ lastOf l = Some x).
Proof.
  destruct l as [|a l] using rev_ind; [left; split; reflexivity|right].
  exists a. rewrite removelast_last, lastOf_snoc. split; reflexivity.
Qed.

Lemma separated_snoc (l : list Node) (x : Node) :
  separated (l ++ [x])
  = separated l && match lastOf l with
                   | Some p => negb (isText p && isText x)
                   | None => true
                   end.
Proof.
  induction l as [|a l IH]; [reflexivity|].
  destruct l as [|b l].
  - simpl. unfold lastOf. simpl. now rewrite andb_true_r.
  - change (separated ((a :: b :: l) ++ [x]))
      with (negb (isText a && isText b) && separated ((b :: l) ++ [x])).
    rewrite IH.
    change (separated (a :: b :: l))
      with (negb (isText a && isText b) && separated (b :: l)).
    replace (lastOf (a :: b :: l)) with (lastOf (b :: l)).
    + now rewrite andb_assoc.
    + unfold lastOf. simpl. destruct (rev l ++ [b]) eqn:E; [|reflexivity].
      now destruct (rev l).
Qed.

Lemma separated_removelast (l : list Node) :
  separated l = true -> separated (removelast l) = true.
Proof.
  destruct (lastOf_cases l) as [[-> _]|(x & E & _)]; [auto|].
  rewrite E at 1. rewrite separated_snoc. intros H.
  now apply andb_prop in H as [H _].
Qed.

Lemma forallb_snoc {A} (f : A -> bool) (l : list A) (x : A) :
  forallb f (l ++ [x]) = forallb f l && f x.
Proof. rewrite forallb_app. simpl. now rewrite andb_true_r. Qed.

Lemma forallb_removelast {A} (f : A -> bool) (l : list A) :
  forallb f l = true -> forallb f (removelast l) = true.
Proof.
  destruct (lastOf_cases l) as [[-> _]|(x & E & _)]; [auto|].
  rewrite E at 1. rewrite forallb_snoc. intros H.
  now apply andb_prop in H as [H _].
Qed.

Lemma coalesced_unfold (n : Node) :
  coalesced n
  = match nodes n with
    | Some l => separated l && forallb coalesced l
    | None => true
    end
    && match els n with Some e => coalesced e | None => true end
    && match elsif n with Some e => coalesced e | None => true end.
Proof. destruct n; reflexivity. Qed.

Lemma wellFormed_inv (n : Node) :
  wellFormed n = true -> isText n = false /\ coalesced n = true.
Proof.
  unfold wellFormed. intros H. apply andb_prop in H as [H1 H2].
  split; [now apply negb_true_iff|assumption].
Qed.

Lemma wellFormed_intro (n : Node) :
  isText n = false -> coalesced n = true -> wellFormed n = true.
Proof. unfold wellFormed. intros -> ->. reflexivity. Qed.

Lemma coalesced_nodes (root : Node) (ns : list Node) :
  nodes root = Some ns -> coalesced root = true ->
  separated ns = true /\ forallb coalesced ns = true.
Proof.
  intros E H. rewrite coalesced_unfold, E in H.
  apply andb_prop in H as [H _]. apply andb_prop in H as [H _].
  now apply andb_prop in H.
Qed.

Lemma coalesced_set_nodes (root : Node) (ns : list Node) :
  coalesced root = true ->
  separated ns = true -> forallb coalesced ns = true ->
  coalesced (set_nodes root (Some ns)) = true.
Proof.
  intros H H0 H1. rewrite coalesced_unfold in H.
  apply andb_prop in H as [H H3]. apply andb_prop in H as [_ H2].
  rewrite coalesced_unfold. destruct root; simpl in *.
  now rewrite H0, H1, H2, H3.
Qed.

(** Pushing a well-formed node keeps the root well formed. *)
Lemma wellFormed_push (root n : Node) :
  wellFormed root = true -> wellFormed n = true ->
  total (push root n) (fun root' => wellFormed root' = true).
Proof.
  intros Hr Hn. unfold push. destruct (nodes root) as [ns|] eqn:E; [simpl|exact I].
  apply wellFormed_inv in Hr as [Ht Hc]. apply wellFormed_inv in Hn as [Hnt Hnc].
  destruct (coalesced_nodes _ E Hc) as [H0 H1].
  apply wellFormed_intro; [destruct root; exact Ht|].
  apply coalesced_set_nodes; [assumption| |].
  - rewrite separated_snoc, H0, Hnt.
    destruct (lastOf ns); simpl; [now rewrite andb_false_r|reflexivity].
  - now rewrite forallb_snoc, H1, Hnc.
Qed.

Lemma coalesced_textNode (s : string) : coalesced (textNode s) = true.
Proof. reflexivity. Qed.

(** The text case of [make] keeps the root well formed. *)
Lemma wellFormed_pushText (root : Node) (ns : list Node) (node : Token) :
  nodes root = Some ns ->
  wellFormed root = true -> wellFormed (pushText root ns node) = true.
Proof.
  intros E Hr. apply wellFormed_inv in Hr as [Ht Hc].
  destruct (coalesced_nodes _ E Hc) as [H0 H1].
  assert (Hplain : forall s,
             match lastOf ns with Some p => isText p = false | None => True end ->
             wellFormed (set_nodes root (Some (ns ++ [textNode s]))) = true).
  { intros s Hp. apply wellFormed_intro; [destruct root; exact Ht|].
    apply coalesced_set_nodes; [assumption| |].
    - rewrite separated_snoc, H0. destruct (lastOf ns); [now rewrite Hp|reflexivity].
    - now rewrite forallb_snoc, H1. }
  unfold pushText.
  destruct (lastOf_cases ns) as [[-> Hl]|(p & Ens & Hl)]; rewrite Hl.
  - apply (Hplain _). rewrite Hl. exact I.
  - destruct (type p) as [[]|] eqn:Ep;
      try (apply (Hplain _); rewrite Hl; unfold isText; now rewrite Ep).
    apply wellFormed_intro; [destruct root; exact Ht|].
    apply coalesced_set_nodes; [assumption| |].
    + rewrite separated_snoc, (separated_removelast _ H0). simpl.
      destruct (lastOf_cases (removelast ns)) as [[_ ->]|(q & Eq & ->)]; [reflexivity|].
      rewrite Ens, Eq, separated_snoc, lastOf_snoc in H0.
      apply andb_prop in H0 as [_ H0].
      unfold isText at 2 in H0. rewrite Ep in H0.
      unfold isText at 2. simpl. now rewrite andb_true_r in *.
    + now rewrite forallb_snoc, (forallb_removelast _ _ H1).
Qed.

Section ParserFacts.
Variable trim : string -> string.
Variable numeric : string -> bool.

(** *** The methods that call no body *)

Lemma constructFilter_loop_total (fuel current : nat) (root : Descriptor)
    (stack : list Token) :
  length stack < fuel ->
  total (constructFilter_loop trim fuel current root stack)
        (fun '(root', rest) =>
           length rest <= length stack /\ dtype root' = dtype root).
Proof.
  revert current root stack.
  induction fuel as [|fuel IH]; intros current root stack Hf; [lia|].
  destruct stack as [|node stack]; simpl; [auto|]. simpl in Hf.
  destruct (name node); simpl; try exact I; try (split; [lia|reflexivity]);
    try (eapply total_mono; [apply IH; lia|];
         intros [root' rest] [Hl Hd]; split; [lia|exact Hd]).
  eapply total_andThen; [apply IH; lia|].
  intros [root' rest] [Hl Hd].
  eapply total_mono; [apply IH; lia|].
  intros [root'' rest'] [Hl' Hd']. split; [lia|]. simpl in *. congruence.
Qed.

Lemma wellFormed_freeze (d : Descriptor) :
  dtype d <> Text -> wellFormed (freeze d) = true.
Proof. destruct d as [[] v r h]; simpl; intros H; try reflexivity. now elim H. Qed.

Lemma constructProperty_total (fuel : nat) (encoded : bool) (stack : list Token) :
  length stack <= fuel ->
  total (constructProperty trim fuel encoded stack)
        (fun '(property, rest) =>
           length rest <= length stack /\ wellFormed property = true).
Proof.
  unfold constructProperty.
  assert (H : forall d, dtype d <> Text ->
                length stack <= fuel ->
                total (constructProperty_loop trim fuel d stack)
                      (fun '(property, rest) =>
                         length rest <= length stack /\ wellFormed property = true)).
  { induction stack as [|node stack IH]; intros d Hd Hf; simpl; [exact I|].
    simpl in Hf.
    assert (Hstep : forall d', dtype d' <> Text ->
              total (constructProperty_loop trim fuel d' stack)
                (fun '(property, rest) =>
                   length rest <= S (length stack) /\ wellFormed property = true)).
    { intros d' Hd'. eapply total_mono; [apply IH; [exact Hd'|lia]|].
      intros [p r] [Hl Hw]. split; [lia|exact Hw]. }
    destruct (name node); simpl; try (apply Hstep; exact Hd);
      try (split; [lia|now apply wellFormed_freeze]).
    unfold constructFilter. simpl.
    eapply total_andThen; [apply constructFilter_loop_total; lia|].
    intros [root' rest] [Hl Hd']. simpl. split; [lia|].
    apply wellFormed_freeze. simpl in Hd'. congruence. }
  intros Hf. apply H; [destruct encoded; discriminate|exact Hf].
Qed.

Lemma constructPartial_total (root : Node) (stack : list Token) :
  coalesced root = true ->
  total (constructPartial trim root stack)
        (fun '(partial, rest) =>
           length rest <= length stack /\ wellFormed partial = true).
Proof.
  intros Hc. unfold constructPartial.
  assert (H : forall r, wellFormed r = true ->
                total (constructPartial_loop trim r stack)
                      (fun '(partial, rest) =>
                         length rest <= length stack /\ wellFormed partial = true)).
  { induction stack as [|node stack IH]; intros r Hr; simpl; [auto|].
    assert (Hstep : forall r', wellFormed r' = true ->
              total (constructPartial_loop trim r' stack)
                (fun '(partial, rest) =>
                   length rest <= S (length stack) /\ wellFormed partial = true)).
    { intros r' Hr'. eapply total_mono; [apply IH; exact Hr'|].
      intros [p q] [Hl Hw]. split; [lia|exact Hw]. }
    destruct (name node); simpl; try exact I; try (apply Hstep; exact Hr);
      try (split; [lia|exact Hr]).
    destruct (value r); [destruct (args r); [|exact I]|];
      apply Hstep; destruct r; exact Hr. }
  apply H. rewrite coalesced_unfold in Hc.
  apply andb_prop in Hc as [Hc H3]. apply andb_prop in Hc as [_ H2].
  apply wellFormed_intro; [reflexivity|].
  rewrite coalesced_unfold. destruct root; simpl in *. now rewrite H2, H3.
Qed.

(** The comment loop throws nothing: it ends, and what it leaves is a
    suffix of the stack it got. *)
Lemma constructComment_loop_done (fuel : nat) (previous : option TokenName)
    (stack : list Token) :
  length stack < fuel ->
  exists dropped rest,
    stack = dropped ++ rest /\
    constructComment_loop fuel previous stack = Done rest.
Proof.
  revert previous stack.
  induction fuel as [|fuel IH]; intros previous stack Hf; [lia|].
  destruct stack as [|node stack]; simpl; [now exists [], []|]. simpl in Hf.
  assert (Hstep : forall p,
            exists dropped rest,
              node :: stack = dropped ++ rest /\
              constructComment_loop fuel p stack = Done rest).
  { intros p. destruct (IH p stack) as (dropped & rest & -> & E); [lia|].
    now exists (node :: dropped), rest. }
  destruct (name node); try apply Hstep.
  - destruct previous as [[]|]; try apply Hstep. now exists [node], stack.
  - destruct previous as [[]|]; try apply Hstep.
    destruct (IH None stack) as (dropped & rest & -> & E); [lia|].
    rewrite E. simpl.
    destruct (IH (Some COMMENT) rest) as (dropped' & rest' & -> & E');
      [rewrite length_app in Hf; lia|].
    exists (node :: dropped ++ dropped'), rest'.
    split; [simpl; now rewrite <- app_assoc|exact E'].
Qed.

Lemma constructComment_loop_total (fuel : nat) (previous : option TokenName)
    (stack : list Token) :
  length stack < fuel ->
  total (constructComment_loop fuel previous stack)
        (fun rest => exists dropped, stack = dropped ++ rest).
Proof.
  intros Hf.
  destruct (constructComment_loop_done previous stack Hf) as (dropped & rest & H & ->).
  now exists dropped.
Qed.

End ParserFacts.

Lemma wellFormed_emptyRoot : wellFormed emptyRoot = true.
Proof. reflexivity. Qed.

Lemma wellFormed_set_conditions (root : Node) (cs : option (list Condition)) :
  wellFormed root = true -> wellFormed (set_conditions root cs) = true.
Proof. destruct root; auto. Qed.

Lemma wellFormed_asConditional (root : Node) :
  wellFormed root = true -> wellFormed (asConditional root) = true.
Proof. destruct root as [[[]|] v ns cs e ei fs ar]; auto. Qed.

Lemma wellFormed_asLoop (root : Node) :
  wellFormed root = true -> wellFormed (asLoop root) = true.
Proof.
  intros H. apply wellFormed_inv in H as [_ H].
  apply wellFormed_intro; [reflexivity|]. destruct root; exact H.
Qed.

Lemma wellFormed_set_els (root e : Node) :
  wellFormed root = true -> wellFormed e = true ->
  wellFormed (set_els root (Some e)) = true.
Proof.
  intros H He. apply wellFormed_inv in H as [Ht H]. apply wellFormed_inv in He as [_ He].
  apply wellFormed_intro; [destruct root; exact Ht|].
  rewrite coalesced_unfold in H. rewrite coalesced_unfold.
  destruct root; simpl in *.
  apply andb_prop in H as [H H3]. apply andb_prop in H as [H1 _].
  now rewrite H1, He, H3.
Qed.

Lemma wellFormed_set_elsif (root e : Node) :
  wellFormed root = true -> wellFormed e = true ->
  wellFormed (set_elsif root (Some e)) = true.
Proof.
  intros H He. apply wellFormed_inv in H as [Ht H]. apply wellFormed_inv in He as [_ He].
  apply wellFormed_intro; [destruct root; exact Ht|].
  rewrite coalesced_unfold in H. rewrite coalesced_unfold.
  destruct root; simpl in *.
  apply andb_prop in H as [H _]. now rewrite H, He.
Qed.

Lemma wellFormed_pushCondition (root : Node) (c : Condition) :
  total (pushCondition root c)
        (fun root' => wellFormed root = true -> wellFormed root' = true).
Proof.
  unfold pushCondition. destruct (conditions root); simpl; [|exact I].
  apply wellFormed_set_conditions.
Qed.

Lemma wellFormed_appendToPrevious (root : Node) (previous : option nat) (v : string) :
  wellFormed root = true -> wellFormed (appendToPrevious root previous v) = true.
Proof.
  unfold appendToPrevious. destruct previous; [|auto].
  destruct (conditions root); [|auto]. apply wellFormed_set_conditions.
Qed.

Section ParserTotal.
Variable trim : string -> string.
Variable numeric : string -> bool.


Lemma make_step (fuel : nat) :
  totalAt trim numeric fuel ->
  forall root END stack,
    4 * length stack + 1 <= S fuel ->
    total (make trim numeric (S fuel) root END stack) (madeOk root stack).
Proof.
  intros (IHmake & IHexpr & _) root END stack Hf.
  destruct stack as [|node stack]; [simpl; auto|].
  simpl in Hf. simpl.
  destruct (nodes root) as [ns|] eqn:Ens; [|exact I].
  assert (Hnext : forall root',
            (wellFormed root = true -> wellFormed root' = true) ->
            forall rest, length rest <= length stack ->
            total (make trim numeric fuel root' END rest) (madeOk root (node :: stack))).
  { intros root' Hw rest Hl. eapply total_mono; [apply IHmake; lia|].
    intros [[m r] q] [Hl' Hw']. split; [simpl; lia|auto]. }
  assert (Hproperty : forall encoded,
            total ('(property, stack0) <- constructProperty trim fuel encoded stack ;;
                   root0 <- push root property ;;
                   make trim numeric fuel root0 END stack0)
                  (madeOk root (node :: stack))).
  { intros encoded.
    eapply total_andThen; [apply constructProperty_total; lia|].
    intros [property rest] [Hl Hp].
    apply total_andThen with (Q1 := fun root' => wellFormed root = true -> wellFormed root' = true).
    - unfold push. rewrite Ens. simpl. intros Hr.
      pose proof (wellFormed_push root property Hr Hp) as H.
      unfold push in H. now rewrite Ens in H.
    - intros root' Hw. now apply Hnext. }
  destruct (name node); try apply Hproperty;
    try (apply Hnext; [now apply wellFormed_pushText|lia]);
    try (apply Hnext; [auto|lia]).
  eapply total_andThen; [apply IHexpr; lia|].
  intros [[result root'] rest] [Hl Hw].
  destruct result as [n| | |].
  - apply total_andThen with (Q1 := fun root'' => wellFormed root = true -> wellFormed root'' = true).
    + destruct (push root' n) eqn:E; simpl; auto.
      * intros Hr. destruct (Hw Hr) as [Hr' Hn].
        pose proof (wellFormed_push root' n Hr' Hn) as H. now rewrite E in H.
      * unfold push in E. destruct (nodes root'); discriminate.
    + intros root'' Hw''. apply Hnext; [exact Hw''|lia].
  - simpl. split; [lia|]. intros Hr. now apply Hw.
  - simpl. split; [lia|]. intros Hr. now apply Hw.
  - apply Hnext; [|lia]. intros Hr. now apply Hw.
Qed.

Lemma constructExpression_step (fuel : nat) :
  totalAt trim numeric fuel ->
  forall root END stack,
    4 * length stack + 1 <= S fuel ->
    total (constructExpression trim numeric (S fuel) root END stack) (returnedOk root stack).
Proof.
  intros (_ & IHexpr & IHeach & _ & IHcond & _) root END stack Hf.
  destruct stack as [|type stack]; [simpl; auto|].
  simpl in Hf. simpl.
  destruct (isEnd END (name type)); [simpl; split; [lia|auto]|].
  destruct (name type); try exact I.
  - (* WHITESPACE *)
    eapply total_mono; [apply IHexpr; lia|].
    intros [[result root'] rest] [Hl Hw]. split; [simpl; lia|exact Hw].
  - (* START_EACH *)
    eapply total_andThen; [apply IHeach; lia|].
    intros [loop rest] [Hl Hw]. simpl. split; [lia|]. intros Hr. split; [exact Hr|].
    apply Hw. now apply wellFormed_asLoop.
  - (* START_IF *)
    eapply total_andThen; [apply (IHcond emptyRoot (Some START_IF)); unfold conditionalFuel; lia|].
    intros [[result root'] rest] [Hl Hw]. simpl. split; [lia|]. intros Hr.
    split; [exact Hr|]. now apply Hw.
  - (* ELSIF *)
    eapply total_mono; [apply (IHcond root (Some ELSIF)); unfold conditionalFuel; lia|].
    intros [[result root'] rest] [Hl Hw]. split; [simpl; lia|exact Hw].
  - (* ELSE *)
    eapply total_mono; [apply (IHcond root (Some ELSE)); unfold conditionalFuel; lia|].
    intros [[result root'] rest] [Hl Hw]. split; [simpl; lia|exact Hw].
  - (* COMMENT *)
    unfold constructComment.
    eapply total_andThen; [apply constructComment_loop_total; lia|].
    intros rest [dropped ->]. simpl. rewrite length_app. split; [lia|auto].
  - (* PARTIAL *)
    eapply total_andThen; [apply constructPartial_total; reflexivity|].
    intros [partial rest] [Hl Hw]. simpl. split; [lia|auto].
Qed.

Lemma constructEach_step (fuel : nat) :
  totalAt trim numeric fuel ->
  forall root stack,
    4 * length stack + 3 <= S fuel ->
    total (constructEach trim numeric (S fuel) root stack) (loopOk (asLoop root) stack).
Proof.
  intros (_ & _ & _ & IHloop & _) root stack Hf.
  simpl. apply IHloop. lia.
Qed.

Lemma constructEach_loop_step (fuel : nat) :
  totalAt trim numeric fuel ->
  forall root stack,
    4 * length stack + 2 <= S fuel ->
    total (constructEach_loop trim numeric (S fuel) root stack) (loopOk root stack).
Proof.
  intros (IHmake & _ & _ & IHloop & _) root stack Hf.
  assert (Hbody : forall rest, length rest <= length stack ->
            total ('(_, root0, stack0) <- make trim numeric fuel root (Some END_EACH) rest ;;
                   Done (root0, stack0))
                  (loopOk root stack)).
  { intros rest Hl. eapply total_andThen; [apply IHmake; lia|].
    intros [[m root'] rest'] [Hl' Hw]. simpl. split; [lia|exact Hw]. }
  destruct stack as [|node stack]; [apply Hbody; simpl; lia|].
  simpl in Hf. simpl.
  assert (Hnext : forall root',
            (wellFormed root = true -> wellFormed root' = true) ->
            total (constructEach_loop trim numeric fuel root' stack)
                  (loopOk root (node :: stack))).
  { intros root' Hw. eapply total_mono; [apply IHloop; lia|].
    intros [r q] [Hl' Hw']. split; [simpl; lia|auto]. }
  assert (Hpush : forall c,
            total (root0 <- pushCondition root c ;;
                   constructEach_loop trim numeric fuel root0 stack)
                  (loopOk root (node :: stack))).
  { intros c. eapply total_andThen; [apply wellFormed_pushCondition|].
    intros root' Hw. now apply Hnext. }
  destruct (name node); try (apply Hnext; auto); try apply Hpush.
  apply (Hbody stack). simpl. lia.
Qed.

Lemma constructConditional_step (fuel : nat) :
  totalAt trim numeric fuel ->
  forall root kind stack,
    conditionalFuel kind (length stack) <= S fuel ->
    total (constructConditional trim numeric (S fuel) root kind stack) (returnedOk root stack).
Proof.
  intros (IHmake & _ & _ & _ & IHcond & IHloop) root kind stack Hf.
  simpl.
  assert (Hloop : 4 * length stack + 3 <= S fuel ->
            total (constructConditional_loop trim numeric fuel
                     (asConditional root) None stack)
                  (returnedOk root stack)).
  { intros Hf'. eapply total_mono; [apply IHloop; lia|].
    intros [[result root'] rest] [Hl Hw]. split; [exact Hl|].
    intros Hr. apply Hw. now apply wellFormed_asConditional. }
  unfold conditionalFuel in Hf.
  destruct kind as [[]|]; try (apply Hloop; lia).
  - (* ELSIF *)
    eapply total_andThen;
      [apply (IHcond emptyRoot None); unfold conditionalFuel; lia|].
    intros [[result elsif] rest] [Hl Hw]. simpl. split; [exact Hl|].
    intros Hr. destruct (Hw wellFormed_emptyRoot) as [He Hres].
    split; [|exact Hres].
    apply wellFormed_set_elsif; [now apply wellFormed_asConditional|exact He].
  - (* ELSE *)
    eapply total_andThen; [apply IHmake; lia|].
    intros [[made els] rest] [Hl Hw]. simpl. split; [exact Hl|].
    intros Hr. pose proof (Hw wellFormed_emptyRoot) as He.
    split; [|destruct made; auto].
    apply wellFormed_set_els; [now apply wellFormed_asConditional|exact He].
Qed.

Lemma constructConditional_loop_step (fuel : nat) :
  totalAt trim numeric fuel ->
  forall root previous stack,
    4 * length stack + 2 <= S fuel ->
    total (constructConditional_loop trim numeric (S fuel) root previous stack)
          (returnedOk root stack).
Proof.
  intros (IHmake & _ & _ & _ & _ & IHloop) root previous stack Hf.
  assert (Hbody : forall rest, length rest <= length stack ->
            total ('(_, root0, stack0) <- make trim numeric fuel root (Some END_IF) rest ;;
                   Done (RNode root0, root0, stack0))
                  (returnedOk root stack)).
  { intros rest Hl. eapply total_andThen; [apply IHmake; lia|].
    intros [[m root'] rest'] [Hl' Hw]. simpl. split; [lia|auto]. }
  destruct stack as [|node stack]; [apply Hbody; simpl; lia|].
  simpl in Hf. simpl.
  assert (Hnext : forall root',
            (wellFormed root = true -> wellFormed root' = true) ->
            total (constructConditional_loop trim numeric fuel root'
                     (lastCondition root') stack)
                  (returnedOk root (node :: stack))).
  { intros root' Hw. eapply total_mono; [apply IHloop; lia|].
    intros [[result r] q] [Hl' Hw']. split; [simpl; lia|auto]. }
  assert (Hpush : forall c,
            total (root0 <- pushCondition root c ;;
                   constructConditional_loop trim numeric fuel root0
                     (lastCondition root0) stack)
                  (returnedOk root (node :: stack))).
  { intros c. eapply total_andThen; [apply wellFormed_pushCondition|].
    intros root' Hw. now apply Hnext. }
  assert (Hother :
            total (if (trim (capture node) =? "false")%string
                      || (trim (capture node) =? "true")%string
                   then root0 <- pushCondition root
                                   (mkCondition Literal (Some (trim (capture node)))) ;;
                        constructConditional_loop trim numeric fuel root0
                          (lastCondition root0) stack
                   else if numeric (trim (capture node))
                   then root0 <- pushCondition root
                                   (mkCondition Literal (Some (trim (capture node)))) ;;
                        constructConditional_loop trim numeric fuel root0
                          (lastCondition root0) stack
                   else if isString (trim (capture node))
                   then root0 <- pushCondition root
                                   (mkCondition Literal (Some (trim (capture node)))) ;;
                        constructConditional_loop trim numeric fuel root0
                          (lastCondition root0) stack
                   else if previousIsIdentifier root previous
                   then constructConditional_loop trim numeric fuel
                          (appendToPrevious root previous (trim (capture node)))
                          (lastCondition
                             (appendToPrevious root previous (trim (capture node))))
                          stack
                   else root0 <- pushCondition root
                                   (mkCondition Identifier (Some (trim (capture node)))) ;;
                        constructConditional_loop trim numeric fuel root0
                          (lastCondition root0) stack)
                  (returnedOk root (node :: stack))).
  { destruct (_ || _); [apply Hpush|].
    destruct (numeric _); [apply Hpush|].
    destruct (isString _); [apply Hpush|].
    destruct (previousIsIdentifier _ _); [|apply Hpush].
    apply Hnext. now apply wellFormed_appendToPrevious. }
  destruct (name node); try exact Hother; try apply Hpush; try (apply Hnext; auto).
  apply (Hbody stack). simpl. lia.
Qed.

(** Four steps a token, and a few more, are enough for every method. *)
Lemma parser_total (fuel : nat) : totalAt trim numeric fuel.
Proof.
  induction fuel as [|fuel IH].
  - unfold totalAt, conditionalFuel.
    repeat split; intros; try lia; destruct kind as [[]|]; lia.
  - repeat split.
    + now apply make_step.
    + now apply constructExpression_step.
    + now apply constructEach_step.
    + now apply constructEach_loop_step.
    + now apply constructConditional_step.
    + now apply constructConditional_loop_step.
Qed.

End ParserTotal.

Section ParserClaims.
Variable trim : string -> string.
Variable numeric : string -> bool.


(** *** What a body parse leaves of its root *)

(** The loop of a conditional returns the root it worked on. *)
Lemma constructConditional_loop_returns (fuel : nat) (root : Node)
    (previous : option nat) (stack : list Token) result root' rest :
  constructConditional_loop trim numeric fuel root previous stack
    = Done (result, root', rest) ->
  result = RNode root'.
Proof.
  revert root previous stack.
  induction fuel as [|fuel IH]; intros root previous stack; [discriminate|].
  assert (Hbody : forall s,
            ('(_, root0, stack0) <- make trim numeric fuel root (Some END_IF) s ;;
             Done (RNode root0, root0, stack0)) = Done (result, root', rest) ->
            result = RNode root').
  { intros s. destruct (make trim numeric fuel root (Some END_IF) s) as [[[m r] q]| |];
      simpl; [|discriminate|discriminate]. now intros [= <- <- <-]. }
  destruct stack as [|node stack]; [apply Hbody|]. simpl.
  assert (Hpush : forall c,
            (root0 <- pushCondition root c ;;
             constructConditional_loop trim numeric fuel root0 (lastCondition root0) stack)
            = Done (result, root', rest) -> result = RNode root').
  { intros c. destruct (pushCondition root c); simpl; [apply IH|discriminate|discriminate]. }
  destruct (name node); try apply Hpush; try apply IH; try apply Hbody;
    (destruct (_ || _); [apply Hpush|]);
    (destruct (numeric _); [apply Hpush|]);
    (destruct (isString _); [apply Hpush|]);
    (destruct (previousIsIdentifier _ _); [apply IH|apply Hpush]).
Qed.

(** An expression tag leaves the root of the body as it was, or attaches
    an else-body or an elsif to it; the children of the root are not
    touched. *)
Lemma constructExpression_root (fuel : nat) (root : Node) (END : option TokenName)
    (stack : list Token) result root' rest :
  constructExpression trim numeric fuel root END stack = Done (result, root', rest) ->
  root' = root \/
  (exists e, root' = set_els (asConditional root) (Some e) /\
             (result = RNode e \/ result = RNull)) \/
  (exists e, root' = set_elsif (asConditional root) (Some e) /\ result = RNode e).
Proof.
  revert stack.
  induction fuel as [|fuel IH]; intros stack; [discriminate|].
  destruct stack as [|type stack]; simpl; [intros [= <- <- <-]; now left|].
  destruct (isEnd END (name type)); [intros [= <- <- <-]; now left|].
  destruct (name type); try discriminate.
  - apply IH.
  - destruct (constructEach trim numeric fuel emptyRoot stack) as [[l q]| |];
      simpl; [|discriminate|discriminate]. intros [= <- <- <-]. now left.
  - destruct (constructConditional trim numeric fuel emptyRoot (Some START_IF) stack)
      as [[[r n] q]| |]; simpl; [|discriminate|discriminate].
    intros [= <- <- <-]. now left.
  - destruct fuel as [|fuel]; [discriminate|]. simpl.
    destruct (constructConditional trim numeric fuel emptyRoot None stack)
      as [[[r n] q]| |] eqn:E; simpl; [|discriminate|discriminate].
    intros [= <- <- <-]. right. right. exists n. split; [reflexivity|].
    destruct fuel as [|fuel]; [discriminate|]. simpl in E.
    now apply constructConditional_loop_returns in E.
  - destruct fuel as [|fuel]; [discriminate|]. simpl.
    destruct (make trim numeric fuel emptyRoot (Some END_IF) stack)
      as [[[m n] q]| |]; simpl; [|discriminate|discriminate].
    intros [= <- <- <-]. right. left. exists n. split; [reflexivity|].
    destruct m; auto.
  - destruct (constructComment fuel emptyRoot stack); simpl;
      [|discriminate|discriminate]. intros [= <- <- <-]. now left.
  - destruct (constructPartial trim emptyRoot stack) as [[p q]| |];
      simpl; [|discriminate|discriminate]. intros [= <- <- <-]. now left.
Qed.

Lemma keeps_refl (root : Node) : keeps root root.
Proof. split; auto. Qed.

Lemma keeps_trans (a b c : Node) : keeps a b -> keeps b c -> keeps a c.
Proof. intros [H1 H2] [H3 H4]. split; auto. Qed.

Lemma keeps_set_nodes (root : Node) ns : keeps root (set_nodes root ns).
Proof. destruct root. split; auto. Qed.

Lemma keeps_asConditional (root : Node) : keeps root (asConditional root).
Proof. destruct root. split; simpl; intros ? ->; reflexivity. Qed.

Lemma keeps_push (root n root' : Node) : push root n = Done root' -> keeps root root'.
Proof.
  unfold push. destruct (nodes root); [|discriminate].
  intros [= <-]. apply keeps_set_nodes.
Qed.

Lemma make_keeps (fuel : nat) (root : Node) (END : option TokenName)
    (stack : list Token) made root' rest :
  make trim numeric fuel root END stack = Done (made, root', rest) ->
  keeps root root'.
Proof.
  revert root stack.
  induction fuel as [|fuel IH]; intros root stack; [discriminate|].
  destruct stack as [|node stack]; simpl; [intros [= _ <- _]; apply keeps_refl|].
  destruct (nodes root) as [ns|] eqn:Ens; [|discriminate].
  assert (Hproperty : forall encoded,
            ('(property, stack0) <- constructProperty trim fuel encoded stack ;;
             root0 <- push root property ;;
             make trim numeric fuel root0 END stack0) = Done (made, root', rest) ->
            keeps root root').
  { intros encoded.
    destruct (constructProperty trim fuel encoded stack) as [[p q]| |];
      simpl; [|discriminate|discriminate].
    destruct (push root p) as [r| |] eqn:E; simpl; [|discriminate|discriminate].
    intros H. eapply keeps_trans; [eapply keeps_push; exact E|eapply IH; exact H]. }
  assert (Htext : make trim numeric fuel (pushText root ns node) END stack
                  = Done (made, root', rest) -> keeps root root').
  { intros H. eapply keeps_trans; [|eapply IH; exact H].
    unfold pushText. destruct (lastOf ns) as [p|]; [|apply keeps_set_nodes].
    destruct (type p) as [[]|]; apply keeps_set_nodes. }
  destruct (name node); try apply Hproperty; try exact Htext; try apply IH.
  destruct (constructExpression trim numeric fuel root END stack)
    as [[[result r] q]| |] eqn:E; simpl; [|discriminate|discriminate].
  assert (Hr : keeps root r).
  { destruct (constructExpression_root _ _ _ _ E)
      as [->|[(e & -> & _)|(e & -> & _)]].
    - apply keeps_refl.
    - eapply keeps_trans; [apply keeps_asConditional|]. destruct root; split; auto.
    - eapply keeps_trans; [apply keeps_asConditional|]. destruct root; split; auto. }
  destruct result as [n| | |].
  - destruct (push r n) as [r'| |] eqn:Ep; simpl; [|discriminate|discriminate].
    intros H. eapply keeps_trans; [exact Hr|].
    eapply keeps_trans; [eapply keeps_push; exact Ep|eapply IH; exact H].
  - intros [= _ <- _]. exact Hr.
  - intros [= _ <- _]. exact Hr.
  - intros H. eapply keeps_trans; [exact Hr|eapply IH; exact H].
Qed.

(** A loop whose tag holds no word and no assignment has no conditions. *)
Lemma constructEach_loop_bare (skipped : list Token) (close : Token)
    (stack : list Token) (fuel : nat) (root : Node) loop rest :
  bareHeader skipped = true ->
  name close = END_EXPR ->
  constructEach_loop trim numeric fuel root (skipped ++ close :: stack)
    = Done (loop, rest) ->
  keeps root loop.
Proof.
  intros Hs Hclose. revert fuel root.
  induction skipped as [|node skipped IH]; intros fuel root.
  - destruct fuel as [|fuel]; [discriminate|]. simpl. rewrite Hclose.
    destruct (make trim numeric fuel root (Some END_EACH) stack)
      as [[[m r] q]| |] eqn:E; simpl; [|discriminate|discriminate].
    intros [= <- <-]. eapply make_keeps. exact E.
  - destruct fuel as [|fuel]; [discriminate|].
    simpl in Hs. apply andb_prop in Hs as [Hn Hs]. simpl.
    destruct (name node); try discriminate; now apply IH.
Qed.

(** C2. A loop parsed from a tag without source and aliases compiles to
    a call of the iteration helper on the current data, [data], with the
    key keyword [i] and with the empty string as the value keyword. *)
Theorem compileLoop_defaults (fuel : nat) (root : Node) (skipped : list Token)
    (close : Token) (stack : list Token) (loop : Node) (rest : list Token)
    (body : string) :
  bareHeader skipped = true ->
  name close = END_EXPR ->
  constructEach trim numeric fuel root (skipped ++ close :: stack)
    = Done (loop, rest) ->
  Compiler.process (nodes loop) = Ok body ->
  Compiler.compileLoop loop
    = Ok ("map(data,'i','',data,function(data) {return " ++ body ++ "}).join('')")%string.
Proof.
  intros Hs Hclose Heach Hbody.
  apply compileLoop_without_conditions; [|exact Hbody].
  destruct fuel as [|fuel]; [discriminate|]. simpl in Heach.
  destruct (constructEach_loop_bare _ _ _ _ _ Hs Hclose Heach) as [_ Hc].
  apply Hc. destruct root; reflexivity.
Qed.

(** One filter: the loop stops right after the end of the property. *)
Lemma constructFilter_stops (fuel : nat) (root : Descriptor)
    (words rest : list Token) (terminator : Token) :
  filterWords words = true ->
  name terminator = END_PROP \/ name terminator = END_RAW ->
  length words < fuel ->
  exists root', constructFilter trim fuel root (words ++ terminator :: rest)
                = Done (root', rest).
Proof.
  intros Hw Ht. unfold constructFilter.
  destruct (allocate root) as [current root0]. clear root.
  revert fuel root0.
  induction words as [|node words IH]; intros fuel root0 Hf.
  - destruct fuel as [|fuel]; [simpl in Hf; lia|]. simpl.
    destruct Ht as [-> | ->]; eexists; reflexivity.
  - destruct fuel as [|fuel]; [simpl in Hf; lia|].
    simpl in Hw. apply andb_prop in Hw as [Hn Hw]. simpl in Hf. simpl.
    destruct (name node); try discriminate; apply IH; try assumption; lia.
Qed.

(** C5. A property whose tokens run out before an end of property or a
    filter separator is a fatal error: [constructProperty] throws, and so
    does the body parse that met the start of the property. *)
Theorem constructProperty_unterminated (fuel : nat) (encoded : bool)
    (stack : list Token) :
  unterminated stack = true ->
  constructProperty trim fuel encoded stack = Raise (Error "Unterminated property.") /\
  forall root END start ns,
    nodes root = Some ns ->
    name start = (if encoded then START_PROP else START_RAW) ->
    make trim numeric (S fuel) root END (start :: stack)
    = Raise (Error "Unterminated property.").
Proof.
  intros Hu.
  assert (H : forall d,
             constructProperty_loop trim fuel d stack
             = Raise (Error "Unterminated property.")).
  { induction stack as [|node stack IH]; intros d; [reflexivity|].
    simpl in *. apply andb_prop in Hu as [Hn Hu].
    destruct (name node); try discriminate; now apply IH. }
  split; [apply H|].
  intros root END start ns Hns Hstart. simpl. rewrite Hns, Hstart.
  unfold constructProperty. destruct encoded; now rewrite H.
Qed.

Lemma closes_None (previous : option TokenName) (stack : list Token) :
  closes previous stack = false -> closes None stack = false.
Proof.
  destruct stack as [|node stack]; [reflexivity|]. simpl.
  destruct previous as [[]|]; auto. destruct (name node); auto. discriminate.
Qed.

(** Without an end of comment the loop eats the whole stack. *)
Lemma constructComment_loop_exhausts (fuel : nat) (previous : option TokenName)
    (stack : list Token) :
  length stack < fuel ->
  closes previous stack = false ->
  constructComment_loop fuel previous stack = Done [].
Proof.
  revert previous stack.
  induction fuel as [|fuel IH]; intros previous stack Hf Hc; [lia|].
  destruct stack as [|node stack]; [reflexivity|]. simpl in *.
  assert (Hnext : match previous, name node with
                  | Some COMMENT, END_EXPR => False
                  | _, _ => constructComment_loop fuel (Some (name node)) stack = Done []
                  end).
  { destruct previous as [[]|]; destruct (name node) eqn:En;
      try discriminate; rewrite <- ?En; apply IH; try lia; now rewrite ?En. }
  destruct (name node) eqn:En;
    try (destruct previous as [[]|]; first [exact Hnext | contradiction]).
  assert (Hrest : closes (Some COMMENT) stack = false).
  { destruct previous as [[]|]; exact Hc. }
  destruct previous as [[]|]; try exact Hnext.
  rewrite (IH None stack); [simpl|lia|now apply closes_None with (Some COMMENT)].
  destruct fuel; [lia|reflexivity].
Qed.

(** A plain inside followed by an end of comment: the loop stops right
    after the end. *)
Lemma constructComment_loop_closes (fuel : nat) (previous : option TokenName)
    (inside after : list Token) (c e : Token) :
  plain inside = true ->
  name c = COMMENT -> name e = END_EXPR ->
  previous <> Some COMMENT -> previous <> Some START_EXPR ->
  length inside + 2 <= fuel ->
  constructComment_loop fuel previous (inside ++ c :: e :: after) = Done after.
Proof.
  intros Hp Hc He. revert fuel previous.
  induction inside as [|node inside IH]; intros fuel previous H1 H2 Hf.
  - destruct fuel as [|[|fuel]]; try (simpl in Hf; lia). simpl. rewrite Hc, He.
    destruct previous as [[]|]; try reflexivity. now elim H2.
  - destruct fuel as [|fuel]; [simpl in Hf; lia|].
    simpl in Hp. apply andb_prop in Hp as [Hn Hp]. simpl in Hf.
    simpl. destruct (name node) eqn:En; try discriminate;
      try (apply IH; [exact Hp|discriminate|discriminate|lia]).
    destruct previous as [[]|]; try (apply IH; [exact Hp|discriminate|discriminate|lia]).
    now elim H1.
Qed.

(** The [START_EXPR] case of [make]. *)
Lemma make_expression (fuel : nat) (root : Node) (END : option TokenName)
    (node : Token) (stack : list Token) (ns : list Node) :
  nodes root = Some ns ->
  name node = START_EXPR ->
  make trim numeric (S fuel) root END (node :: stack)
  = ('(result, root, stack) <- constructExpression trim numeric fuel root END stack ;;
     match result with
     | RNode n =>
         root <- push root n ;;
         make trim numeric fuel root END stack
     | RFalse => make trim numeric fuel root END stack
     | _ => Done (Null, root, stack)
     end).
Proof. intros Hns Hname. simpl. now rewrite Hns, Hname. Qed.

(** C6. Comment parsing throws nothing and returns [false], never a node
    and never the result that stops the body: it only drops tokens from
    the front of the stack, up to the end of the comment when the inside
    is plain, and all of them when no end of comment follows. The body
    parse goes on with the same root, so the siblings before the comment
    stay and nothing of the comment becomes a node; an unterminated
    comment ends the parse with that root and without an error. *)
Theorem constructComment_discards (fuel : nat) (root : Node) (END : option TokenName)
    (ns : list Node) (open marker : Token) (stack : list Token) :
  nodes root = Some ns ->
  name open = START_EXPR -> name marker = COMMENT ->
  isEnd END COMMENT = false ->
  length stack < fuel ->
  exists dropped rest,
    stack = dropped ++ rest /\
    constructComment fuel emptyRoot stack = Done rest /\
    constructExpression trim numeric (S fuel) root END (marker :: stack)
      = Done (RFalse, root, rest) /\
    make trim numeric (S (S fuel)) root END (open :: marker :: stack)
      = make trim numeric (S fuel) root END rest /\
    (closes None stack = false ->
       rest = [] /\
       make trim numeric (S (S fuel)) root END (open :: marker :: stack)
         = Done (Root, root, [])) /\
    (forall inside after c e,
       stack = inside ++ c :: e :: after ->
       plain inside = true -> name c = COMMENT -> name e = END_EXPR ->
       rest = after).
Proof.
  intros Hns Hopen Hmarker HEND Hf.
  destruct (constructComment_loop_done None stack Hf) as (dropped & rest & Hd & E).
  exists dropped, rest. unfold constructComment.
  assert (Hexpr : constructExpression trim numeric (S fuel) root END (marker :: stack)
                  = Done (RFalse, root, rest)).
  { simpl. rewrite Hmarker, HEND. unfold constructComment. now rewrite E. }
  assert (Hmake : make trim numeric (S (S fuel)) root END (open :: marker :: stack)
                  = make trim numeric (S fuel) root END rest).
  { rewrite (make_expression (S fuel) root END open (marker :: stack) Hns Hopen).
    rewrite Hexpr. reflexivity. }
  split; [exact Hd|]. split; [exact E|]. split; [exact Hexpr|].
  split; [exact Hmake|]. split.
  - intros Hc. rewrite (constructComment_loop_exhausts None stack Hf Hc) in E.
    injection E as <-. split; [reflexivity|]. rewrite Hmake. reflexivity.
  - intros inside after c e -> Hp Hc He.
    rewrite (@constructComment_loop_closes fuel None inside after c e) in E;
      try assumption; try discriminate; [now injection E|].
    rewrite length_app in Hf. simpl in Hf. lia.
Qed.

End ParserClaims.

(** ** The sample templates *)

Lemma compileLoop_defaults_witness :
  constructEach Host.trim Host.numeric 9 emptyRoot (skipn 2 bareEach)
    = Done (bareLoop, [mkToken END_EXPR "%}"]) /\
  compileLoop bareLoop
    = Ok ("map(data,'i','',data,function(data) {return "
          ++ "( typeof data['.'] === 'function' ? encode(data['.']()) : encode(data['.']) )"
          ++ "}).join('')")%string.
Proof.
  split; [vm_compute; reflexivity|].
  apply (@compileLoop_defaults Host.trim Host.numeric 9 emptyRoot []
           (mkToken END_EXPR "%}") (skipn 3 bareEach) bareLoop [mkToken END_EXPR "%}"]
           "( typeof data['.'] === 'function' ? encode(data['.']()) : encode(data['.']) )");
    reflexivity.
Defined.

(** The loop of [{%each%}{{.}}{%endeach%}]: the value keyword handed to
    the iteration helper is the empty string, not the dot. *)
Lemma compileLoop_value_keyword :
  run bareEach = Done (Root, template [bareLoop], []) /\
  compileLoop bareLoop
    = Ok ("map(data,'i','',data,function(data) {return "
          ++ "( typeof data['.'] === 'function' ? encode(data['.']()) : encode(data['.']) )"
          ++ "}).join('')")%string /\
  compileLoop bareLoop
    <> Ok ("map(data,'i','.',data,function(data) {return "
           ++ "( typeof data['.'] === 'function' ? encode(data['.']()) : encode(data['.']) )"
           ++ "}).join('')")%string.
Proof.
  split; [vm_compute; reflexivity|]. split; [vm_compute; reflexivity|].
  vm_compute. discriminate.
Qed.

(** C3. With one filter the parse of the property stops right after its
    end and the next token becomes a text; with two filters the loop of
    the first filter goes on after the end reached by the second: the
    next token becomes an argument of the first filter, or a fatal error
    when it is not a word. *)
Theorem constructFilter_overruns :
  run oneFilter
    = Done (Root,
            template [property Property "x" [mkFilter (Some "a"%string) []];
                      textNode "y"], []) /\
  run twoFilters
    = Done (Root,
            template [property Property "x"
                        [mkFilter (Some "a"%string) ["y"%string];
                         mkFilter (Some "b"%string) []]], []) /\
  run twoFiltersThenProperty = Raise (Error "Unexpected START_PROP encountered.").
Proof. repeat split; vm_compute; reflexivity. Qed.

Lemma constructProperty_unterminated_witness :
  constructProperty Host.trim 1 true [mkToken OTHER "hello"]
    = Raise (Error "Unterminated property.") /\
  run [mkToken START_PROP "{{"; mkToken OTHER "hello"]
    = Raise (Error "Unterminated property.").
Proof.
  destruct (@constructProperty_unterminated Host.trim Host.numeric 8 true
              [mkToken OTHER "hello"] eq_refl) as [H1 H2].
  split; [reflexivity|].
  exact (H2 templateRoot None (mkToken START_PROP "{{") [] eq_refl eq_refl).
Defined.

Lemma constructComment_discards_witness :
  make Host.trim Host.numeric 6 (template [property Property "hello" []]) None
    [mkToken START_EXPR "{%"; mkToken COMMENT "--";
     mkToken START_PROP "{{"; mkToken OTHER "test"; mkToken END_PROP "}}"]
  = Done (Root, template [property Property "hello" []], []).
Proof.
  destruct (@constructComment_discards Host.trim Host.numeric 4
              (template [property Property "hello" []]) None
              [property Property "hello" []]
              (mkToken START_EXPR "{%") (mkToken COMMENT "--")
              [mkToken START_PROP "{{"; mkToken OTHER "test"; mkToken END_PROP "}}"]
              eq_refl eq_refl eq_refl eq_refl (le_n 4))
    as (dropped & rest & _ & _ & _ & _ & H & _).
  apply H. reflexivity.
Defined.

(** The two comment tests of the repository that start with a property. *)
Lemma comment_tests :
  run openComment = Done (Root, template [property Property "hello" []], []) /\
  run (mkToken START_EXPR "{%" :: mkToken COMMENT "--" :: closedComment)
    = Done (Root, template [textNode "har"], []).
Proof. split; vm_compute; reflexivity. Qed.

(** C7. An else attaches its body to the conditional it was met in and
    adds no sibling. An elsif attaches its conditional to the one it was
    met in, and that same conditional is also pushed among the children
    of the if-body, whose parse then goes on after the end of the if. *)
Theorem elsif_becomes_sibling :
  run ifElse
    = Done (Root,
            template [ifNode "a" [textNode "A"] (Some (elseBody [textNode "B"])) None;
                      textNode "rest"], []) /\
  run ifElsif
    = Done (Root,
            template [ifNode "a"
                        [textNode "A";
                         ifNode "b" [textNode "B"] None None;
                         textNode "rest"]
                        None
                        (Some (ifNode "b" [textNode "B"] None None))], []).
Proof. split; vm_compute; reflexivity. Qed.

(** * Further properties of the compiler *)

Lemma escapeValue_unescape_bounded (n : nat) (s : string) :
  String.length s <= n -> unescape (escapeValue s) = Some s.
Proof.
  revert s. induction n as [|n IH]; intros s Hn.
  - destruct s; [reflexivity|simpl in Hn; lia].
  - destruct s as [|a r]; [reflexivity|]. simpl in Hn.
    assert (Hr : unescape (escapeValue r) = Some r) by (apply IH; lia).
    assert (Hplain :
              unescape
                (if Ascii.eqb a "\"%char then ("\\" ++ escapeValue r)%string
                 else if Ascii.eqb a "'"%char then ("\'" ++ escapeValue r)%string
                 else if Ascii.eqb a "013"%char then ("\r" ++ escapeValue r)%string
                 else if Ascii.eqb a "010"%char then ("\n" ++ escapeValue r)%string
                 else if Ascii.eqb a "009"%char then ("\t" ++ escapeValue r)%string
                 else String a (escapeValue r))
              = Some (String a r)).
    { destruct (Ascii.eqb_spec a "\"%char) as [->|H1]; [simpl; now rewrite Hr|].
      destruct (Ascii.eqb_spec a "'"%char) as [->|H2]; [simpl; now rewrite Hr|].
      destruct (Ascii.eqb_spec a "013"%char) as [->|H3]; [simpl; now rewrite Hr|].
      destruct (Ascii.eqb_spec a "010"%char) as [->|H4]; [simpl; now rewrite Hr|].
      destruct (Ascii.eqb_spec a "009"%char) as [->|H5]; [simpl; now rewrite Hr|].
      simpl.
      destruct (Ascii.eqb_spec a "\"%char); [contradiction|].
      destruct (Ascii.eqb_spec a "'"%char); [contradiction|].
      destruct (Ascii.eqb_spec a "010"%char); [contradiction|].
      destruct (Ascii.eqb_spec a "013"%char); [contradiction|].
      simpl. now rewrite Hr. }
    cbn [escapeValue]. fold escapeValue.
    destruct r as [|b [|c r']]; try exact Hplain.
    destruct (Ascii.eqb_spec a "226"%char) as [->|Ha]; [|exact Hplain].
    destruct (Ascii.eqb_spec b "128"%char) as [->|Hb]; [|exact Hplain].
    assert (Hr' : unescape (escapeValue r') = Some r')
      by (apply IH; simpl in Hn; lia).
    cbn [andb].
    destruct (Ascii.eqb_spec c "168"%char) as [->|Hc8]; [simpl; now rewrite Hr'|].
    destruct (Ascii.eqb_spec c "169"%char) as [->|Hc9]; [simpl; now rewrite Hr'|].
    exact Hplain.
Qed.

(** X1. The escaper writes the inside of a single-quoted literal that
    reads back as the text it was given: no bare quote, line feed or
    carriage return is left in it, and undoing its escapes gives the
    text. *)
Theorem escapeValue_round_trip (s : string) :
  unescape (escapeValue s) = Some s.
Proof. apply escapeValue_unescape_bounded with (n := String.length s). lia. Qed.

(** * Further properties of the parser *)

Section ParserMore.
Variable trim : string -> string.
Variable numeric : string -> bool.

Lemma make_text_step (fuel : nat) (root : Node) (END : option TokenName)
    (ns : list Node) (t : string) (node : Token) (stack : list Token) :
  nodes root = Some (ns ++ [textNode t]) ->
  textToken (name node) = true ->
  make trim numeric (S fuel) root END (node :: stack)
  = make trim numeric fuel
      (set_nodes root (Some (ns ++ [textNode (t ++ capture node)%string]))) END stack.
Proof.
  intros Hns Hn. simpl. rewrite Hns. unfold pushText.
  rewrite lastOf_snoc, removelast_last. simpl.
  destruct (name node); try discriminate; reflexivity.
Qed.

(** Text after a text: the body parse folds the whole run into the last
    sibling. *)
Lemma make_text_run (stack : list Token) (fuel : nat) (root : Node)
    (END : option TokenName) (ns : list Node) (t : string) :
  nodes root = Some (ns ++ [textNode t]) ->
  textOnly stack = true ->
  length stack < fuel ->
  make trim numeric fuel root END stack
  = Done (Root,
          set_nodes root (Some (ns ++ [textNode (t ++ sourceText stack)%string])),
          []).
Proof.
  revert fuel root t.
  induction stack as [|node stack IH]; intros fuel root t Hns Ht Hf.
  - destruct fuel as [|fuel]; [simpl in Hf; lia|]. simpl.
    unfold sourceText. simpl. rewrite append_empty, <- Hns. now destruct root.
  - destruct fuel as [|fuel]; [simpl in Hf; lia|].
    simpl in Ht. apply andb_prop in Ht as [Hn Ht].
    rewrite (make_text_step fuel root END ns t node stack Hns Hn).
    rewrite (IH fuel _ (t ++ capture node)%string); simpl in *;
      [|now destruct root|exact Ht|lia].
    unfold sourceText. simpl map. rewrite concat_empty_cons, append_assoc.
    now destruct root.
Qed.

(** C4. Body parsing never leaves two neighbouring text nodes: on every
    stack the parse ends, and all the lists of children of the tree it
    built (the template's and those of every body below it) are
    separated. A token that becomes text while the last sibling is a text
    replaces that sibling by one text node holding the sibling's text
    followed by the token's. So a run of such tokens that ends the stack
    leaves, after a text sibling, that one sibling with the captures of
    the run after its own text, and after any other sibling, or after
    none, one new text node with the captures of the run, in their
    order; the siblings before stay as they are. *)
Theorem make_coalesces (stack : list Token) :
  total (parse trim numeric stack) (fun '(_, root, _) => coalesced root = true) /\
  (forall fuel root END ns prev node rest,
     nodes root = Some (ns ++ [prev]) ->
     isText prev = true ->
     textToken (name node) = true ->
     make trim numeric (S fuel) root END (node :: rest)
     = make trim numeric fuel
         (set_nodes root
            (Some (ns ++ [textNode (JS.str (value prev) ++ capture node)%string])))
         END rest) /\
  (forall fuel root END ns prev node texts,
     nodes root = Some (ns ++ [prev]) ->
     isText prev = true ->
     textOnly (node :: texts) = true ->
     length (node :: texts) < fuel ->
     make trim numeric fuel root END (node :: texts)
     = Done (Root,
             set_nodes root
               (Some (ns ++ [textNode (JS.str (value prev)
                                       ++ sourceText (node :: texts))%string])),
             [])) /\
  (forall fuel root END ns node texts,
     nodes root = Some ns ->
     match lastOf ns with Some prev => isText prev = false | None => True end ->
     textOnly (node :: texts) = true ->
     length (node :: texts) < fuel ->
     make trim numeric fuel root END (node :: texts)
     = Done (Root,
             set_nodes root (Some (ns ++ [textNode (sourceText (node :: texts))])),
             [])).
Proof.
  assert (Hstep : forall fuel root END ns prev node rest,
            nodes root = Some (ns ++ [prev]) ->
            isText prev = true ->
            textToken (name node) = true ->
            make trim numeric (S fuel) root END (node :: rest)
            = make trim numeric fuel
                (set_nodes root
                   (Some (ns ++ [textNode (JS.str (value prev)
                                           ++ capture node)%string])))
                END rest).
  { intros fuel root END ns prev node rest Hns Hprev Htok.
    simpl. rewrite Hns. unfold pushText. rewrite lastOf_snoc, removelast_last.
    unfold isText in Hprev.
    destruct (type prev) as [[]|]; try discriminate.
    destruct (name node); try discriminate; reflexivity. }
  assert (Hsource : forall node texts,
            sourceText (node :: texts)
            = (capture node ++ sourceText texts)%string).
  { intros node texts. unfold sourceText. cbn [map]. apply concat_empty_cons. }
  split; [|split; [exact Hstep|split]].
  - unfold parse.
    destruct (parser_total trim numeric (4 * length stack + 1)) as [H _].
    eapply total_mono; [apply (H templateRoot None stack); lia|].
    intros [[m root] rest] [_ Hw].
    now destruct (wellFormed_inv _ (Hw eq_refl)) as [_ Hc].
  - intros fuel root END ns prev node texts Hns Hprev Ht Hf.
    destruct fuel as [|fuel]; [simpl in Hf; lia|].
    cbn [textOnly forallb] in Ht. apply andb_prop in Ht as [Hn Ht].
    rewrite (Hstep fuel root END ns prev node texts Hns Hprev Hn).
    rewrite make_text_run
      with (ns := ns) (t := (JS.str (value prev) ++ capture node)%string);
      [|now destruct root|exact Ht|simpl in Hf; lia].
    rewrite Hsource, append_assoc. now destruct root.
  - intros fuel root END ns node texts Hns Hlast Ht Hf.
    destruct fuel as [|fuel]; [simpl in Hf; lia|].
    cbn [textOnly forallb] in Ht. apply andb_prop in Ht as [Hn Ht].
    assert (Hfirst : make trim numeric (S fuel) root END (node :: texts)
                     = make trim numeric fuel
                         (set_nodes root (Some (ns ++ [textNode (capture node)])))
                         END texts).
    { simpl. rewrite Hns. unfold pushText.
      destruct (lastOf ns) as [prev|].
      - unfold isText in Hlast.
        destruct (type prev) as [[]|]; try discriminate;
          destruct (name node); try discriminate; reflexivity.
      - destruct (name node); try discriminate; reflexivity. }
    rewrite Hfirst.
    rewrite make_text_run with (ns := ns) (t := capture node);
      [|now destruct root|exact Ht|simpl in Hf; lia].
    rewrite Hsource. now destruct root.
Qed.

(** X2. A stack without tags, of tokens that all become text, parses to a
    template with one text node that holds the captured texts in their
    order; it compiles to one quoted literal, and the literal reads back
    as that text. *)
Theorem parse_text_only (node : Token) (stack : list Token) :
  textOnly (node :: stack) = true ->
  parse trim numeric (node :: stack)
    = Done (Root,
            set_nodes templateRoot (Some [textNode (sourceText (node :: stack))]),
            []) /\
  Compiler.process (Some [textNode (sourceText (node :: stack))])
    = Ok ("'" ++ Compiler.escapeValue (sourceText (node :: stack)) ++ "'")%string /\
  unescape (Compiler.escapeValue (sourceText (node :: stack)))
    = Some (sourceText (node :: stack)).
Proof.
  intros Ht.
  split; [|split; [reflexivity
                  |now apply escapeValue_unescape_bounded
                     with (n := String.length (sourceText (node :: stack)))]].
  unfold parse. simpl in Ht. apply andb_prop in Ht as [Hn Ht].
  replace (4 * length (node :: stack) + 1) with (S (4 * length stack + 4))
    by (simpl; lia).
  assert (Hfirst : make trim numeric (S (4 * length stack + 4)) templateRoot None
                     (node :: stack)
                   = make trim numeric (4 * length stack + 4)
                       (set_nodes templateRoot (Some ([] ++ [textNode (capture node)])))
                       None stack).
  { simpl. destruct (name node); try discriminate; reflexivity. }
  rewrite Hfirst.
  rewrite (@make_text_run stack (4 * length stack + 4) _ None [] (capture node));
    [|reflexivity|exact Ht|lia].
  unfold sourceText. simpl map. now rewrite concat_empty_cons.
Qed.

(** X3. When a body parse returns its root and not [null], it has taken
    every token: nothing of the stack is left. *)
Theorem make_root_empties (fuel : nat) (root : Node) (END : option TokenName)
    (stack : list Token) (root' : Node) (rest : list Token) :
  make trim numeric fuel root END stack = Done (Root, root', rest) ->
  rest = [].
Proof.
  revert root stack.
  induction fuel as [|fuel IH]; intros root stack; [discriminate|].
  destruct stack as [|node stack]; simpl; [now intros [= _ <-]|].
  destruct (nodes root) as [ns|]; [|discriminate].
  assert (Hproperty : forall encoded,
            ('(property, stack0) <- constructProperty trim fuel encoded stack ;;
             root0 <- push root property ;;
             make trim numeric fuel root0 END stack0) = Done (Root, root', rest) ->
            rest = []).
  { intros encoded.
    destruct (constructProperty trim fuel encoded stack) as [[p q]| |];
      simpl; [|discriminate|discriminate].
    destruct (push root p); simpl; [apply IH|discriminate|discriminate]. }
  destruct (name node); try apply Hproperty; try apply IH.
  destruct (constructExpression trim numeric fuel root END stack)
    as [[[result r] q]| |]; simpl; [|discriminate|discriminate].
  destruct result; try discriminate; [|apply IH].
  destruct (push r n); simpl; [apply IH|discriminate|discriminate].
Qed.

(** Inside an expression tag, white space is skipped. *)
Lemma constructExpression_blank (skipped rest : list Token) (fuel : nat)
    (root : Node) (END : option TokenName) :
  blank skipped = true ->
  isEnd END WHITESPACE = false ->
  constructExpression trim numeric (length skipped + fuel) root END (skipped ++ rest)
  = constructExpression trim numeric fuel root END rest.
Proof.
  intros Hb HEND. induction skipped as [|node skipped IH]; [reflexivity|].
  simpl in Hb. apply andb_prop in Hb as [Hn Hb].
  destruct (name node) eqn:En; try discriminate.
  simpl. rewrite En, HEND. now apply IH.
Qed.

(** X4. The token that names the end of a body stops the body: the
    expression tag returns [undefined], the body parse returns [null]
    with its root untouched, and the tokens after the name stay on the
    stack for the caller. *)
Theorem make_stops_at_end (fuel : nat) (root : Node) (e : TokenName)
    (ns : list Node) (open close : Token) (skipped rest : list Token) :
  nodes root = Some ns ->
  name open = START_EXPR ->
  blank skipped = true ->
  e <> WHITESPACE ->
  name close = e ->
  constructExpression trim numeric (length skipped + S fuel) root (Some e)
    (skipped ++ close :: rest)
    = Done (RUndefined, root, rest) /\
  make trim numeric (S (length skipped + S fuel)) root (Some e)
    (open :: skipped ++ close :: rest)
    = Done (Null, root, rest).
Proof.
  intros Hns Hopen Hb He Hclose.
  assert (Hw : isEnd (Some e) WHITESPACE = false).
  { unfold isEnd. destruct (TokenName_eq_dec WHITESPACE e); [now elim He|reflexivity]. }
  assert (Hexpr : constructExpression trim numeric (length skipped + S fuel) root
                    (Some e) (skipped ++ close :: rest)
                  = Done (RUndefined, root, rest)).
  { rewrite constructExpression_blank; [|exact Hb|exact Hw].
    cbn [constructExpression]. unfold isEnd. rewrite Hclose.
    destruct (TokenName_eq_dec e e) as [_|H]; [reflexivity|now elim H]. }
  split; [exact Hexpr|].
  rewrite make_expression with (ns := ns); [|exact Hns|exact Hopen].
  now rewrite Hexpr.
Qed.

(** X5. An expression tag whose first token after white space opens no
    construct and is not the end of the body is a fatal error. *)
Theorem constructExpression_invalid (fuel : nat) (root : Node)
    (END : option TokenName) (skipped rest : list Token) (bad : Token) :
  blank skipped = true ->
  isEnd END WHITESPACE = false ->
  isEnd END (name bad) = false ->
  construct (name bad) = false ->
  constructExpression trim numeric (length skipped + S fuel) root END
    (skipped ++ bad :: rest)
  = Raise (Error "Invalid expression type.").
Proof.
  intros Hb Hw HEND Hc.
  rewrite constructExpression_blank; [|exact Hb|exact Hw].
  simpl. rewrite HEND. destruct (name bad); try discriminate; reflexivity.
Qed.

End ParserMore.

Lemma make_coalesces_witness :
  total (run [mkToken OTHER "a"; mkToken WHITESPACE " "; mkToken OTHER "b"])
        (fun '(_, root, _) => coalesced root = true) /\
  make Host.trim Host.numeric 3 (template [textNode "a"]) None
    [mkToken WHITESPACE " "; mkToken OTHER "b"]
    = make Host.trim Host.numeric 2 (template [textNode "a "]) None
        [mkToken OTHER "b"] /\
  make Host.trim Host.numeric 3 (template [textNode "a"]) None
    [mkToken WHITESPACE " "; mkToken OTHER "b"]
    = Done (Root, template [textNode "a b"], []) /\
  make Host.trim Host.numeric 3 (template [property Property "x" []]) None
    [mkToken WHITESPACE " "; mkToken OTHER "b"]
    = Done (Root, template [property Property "x" []; textNode " b"], []).
Proof.
  destruct (make_coalesces Host.trim Host.numeric
              [mkToken OTHER "a"; mkToken WHITESPACE " "; mkToken OTHER "b"])
    as (H1 & H2 & H3 & H4).
  split; [exact H1|split; [|split]].
  - apply (H2 2 (template [textNode "a"]) None [] (textNode "a")
              (mkToken WHITESPACE " ") [mkToken OTHER "b"]); reflexivity.
  - apply (H3 3 (template [textNode "a"]) None [] (textNode "a")
              (mkToken WHITESPACE " ") [mkToken OTHER "b"]);
      (reflexivity || (simpl; lia)).
  - apply (H4 3 (template [property Property "x" []]) None
              [property Property "x" []]
              (mkToken WHITESPACE " ") [mkToken OTHER "b"]);
      (reflexivity || (simpl; lia)).
Defined.

Section TagFacts.
Variable trim : string -> string.
Variable numeric : string -> bool.

(** The loop of a property takes the tokens before the end or the filter
    into the value. *)
Lemma constructProperty_loop_words (words tail : list Token) (fuel : nat)
    (d : Descriptor) :
  unterminated words = true ->
  constructProperty_loop trim fuel d (words ++ tail)
  = constructProperty_loop trim fuel
      (mkDescriptor (dtype d) (dvalue d ++ propertyText trim words)%string
         (refs d) (heap d))
      tail.
Proof.
  intros Hw. revert d.
  induction words as [|node words IH]; intros d.
  - simpl. unfold propertyText. simpl. rewrite append_empty. now destruct d.
  - simpl in Hw. apply andb_prop in Hw as [Hn Hw]. simpl.
    assert (Hword : name node <> WHITESPACE ->
              propertyText trim (node :: words)
              = (trim (capture node) ++ propertyText trim words)%string).
    { intros H. unfold propertyText. simpl.
      destruct (name node); try (now elim H); simpl; apply concat_empty_cons. }
    destruct (name node) eqn:En; try discriminate;
      try (rewrite (IH Hw); simpl; rewrite Hword by discriminate;
           now rewrite append_assoc).
    rewrite (IH Hw). unfold propertyText. simpl. now rewrite En.
Qed.

(** X6. A property without filters: the texts of its tokens, trimmed and
    without the white space, run together as its value; the first end of
    property, raw or not, closes it, and the tokens after that end are
    left on the stack. *)
Theorem constructProperty_words (fuel : nat) (encoded : bool)
    (words rest : list Token) (close : Token) :
  unterminated words = true ->
  name close = END_PROP \/ name close = END_RAW ->
  constructProperty trim fuel encoded (words ++ close :: rest)
  = Done (mkNode (Some (if encoded then Property else RawProperty))
                 (Some (propertyText trim words)) None None None None (Some []) None,
          rest).
Proof.
  intros Hw Hc. unfold constructProperty.
  rewrite constructProperty_loop_words by assumption. simpl.
  destruct Hc as [-> | ->]; reflexivity.
Qed.

Lemma extend_filterOther (f : Filter) (text : string) (words : list string) :
  extend (filterOther trim text f) words = extend f (trim text :: words).
Proof.
  unfold filterOther. destruct f as [[n|] a]; simpl.
  - destruct words as [|w r]; simpl; [reflexivity|now rewrite <- app_assoc].
  - destruct words as [|w r]; simpl; [now rewrite app_nil_r|reflexivity].
Qed.

Lemma alter_middle {A} (g : A -> A) (h t : list A) (x : A) :
  alter g (length h) (h ++ x :: t) = h ++ g x :: t.
Proof. induction h as [|a h IH]; simpl; [reflexivity|now rewrite IH]. Qed.

(** The loop of a filter takes the words before the next separator or
    end into its [current] object. *)
Lemma constructFilter_loop_words (words tail : list Token) (fuel : nat)
    (ty : NodeType) (v : string) (r : list nat) (h t : list Filter) (f : Filter) :
  filterWords words = true ->
  length words <= fuel ->
  constructFilter_loop trim fuel (length h) (mkDescriptor ty v r (h ++ f :: t))
    (words ++ tail)
  = constructFilter_loop trim (fuel - length words) (length h)
      (mkDescriptor ty v r (h ++ extend f (wordsOf trim words) :: t)) tail.
Proof.
  intros Hw. revert fuel f.
  induction words as [|node words IH]; intros fuel f Hf.
  - simpl. now rewrite Nat.sub_0_r.
  - simpl in Hw. apply andb_prop in Hw as [Hn Hw]. simpl in Hf.
    destruct fuel as [|fuel]; [lia|]. simpl.
    destruct (name node) eqn:En; try discriminate.
    + rewrite (IH Hw) by lia. unfold wordsOf. simpl. now rewrite En.
    + rewrite alter_middle, (IH Hw) by lia.
      unfold wordsOf. simpl. rewrite En. simpl. now rewrite extend_filterOther.
Qed.

Lemma extend_fresh (words : list Token) :
  extend (mkFilter None []) (wordsOf trim words) = filterOf trim words.
Proof. unfold filterOf. now destruct (wordsOf trim words). Qed.

(** X7. A property with one filter: the first word after the separator
    names the filter and the later words are its arguments, in their
    order; the end of the property closes both, and the tokens after it
    are left on the stack. *)
Theorem constructProperty_one_filter (fuel : nat) (encoded : bool)
    (words fwords rest : list Token) (sep close : Token) :
  unterminated words = true ->
  name sep = FILTER ->
  filterWords fwords = true ->
  name close = END_PROP \/ name close = END_RAW ->
  length fwords < fuel ->
  constructProperty trim fuel encoded (words ++ sep :: fwords ++ close :: rest)
  = Done (mkNode (Some (if encoded then Property else RawProperty))
                 (Some (propertyText trim words)) None None None None
                 (Some [filterOf trim fwords]) None,
          rest).
Proof.
  intros Hw Hs Hfw Hc Hf. unfold constructProperty.
  rewrite constructProperty_loop_words by assumption. simpl. rewrite Hs.
  unfold constructFilter, allocate. simpl.
  rewrite (@constructFilter_loop_words fwords (close :: rest) fuel _ _ [] [] []
             (mkFilter None []) Hfw) by lia.
  destruct (fuel - length fwords) as [|k] eqn:Ek; [lia|]. simpl.
  rewrite extend_fresh.
  destruct Hc as [-> | ->]; reflexivity.
Qed.

Lemma map_nth_seq {A} (l : list A) (d : A) :
  map (fun r => nth r l d) (seq 0 (length l)) = l.
Proof.
  induction l as [|a l IH]; [reflexivity|].
  simpl. rewrite <- seq_shift, map_map. simpl. now rewrite IH.
Qed.

(** A chain of filters whose end is the last token of the stack. *)
Lemma constructFilter_loop_chain (sep close : Token) (segs : list (list Token))
    (seg : list Token) (fuel : nat) (ty : NodeType) (v : string) (r : list nat)
    (h : list Filter) (f : Filter) :
  name sep = FILTER ->
  name close = END_PROP \/ name close = END_RAW ->
  filterWords seg = true ->
  forallb filterWords segs = true ->
  length (seg ++ flat_map (cons sep) segs ++ [close]) < fuel ->
  constructFilter_loop trim fuel (length h) (mkDescriptor ty v r (h ++ [f]))
    (seg ++ flat_map (cons sep) segs ++ [close])
  = Done (mkDescriptor ty v (r ++ seq (length h) (S (length segs)))
            (h ++ extend f (wordsOf trim seg) :: map (filterOf trim) segs),
          []).
Proof.
  intros Hs Hc. revert seg fuel r h f.
  induction segs as [|seg2 segs IH]; intros seg fuel r h f Hseg Hsegs Hf.
  - simpl in *. rewrite length_app in Hf. simpl in Hf.
    rewrite constructFilter_loop_words by (assumption || lia).
    destruct (fuel - length seg) as [|k] eqn:Ek; [lia|]. simpl.
    destruct Hc as [-> | ->]; reflexivity.
  - simpl in Hsegs. apply andb_prop in Hsegs as [Hseg2 Hsegs].
    rewrite length_app in Hf. simpl in Hf. rewrite length_app in Hf.
    rewrite constructFilter_loop_words by (assumption || lia).
    destruct (fuel - length seg) as [|k] eqn:Ek; [lia|].
    cbn [flat_map app]. cbn [constructFilter_loop]. rewrite Hs.
    unfold pushFilter, allocate. cbn [refs heap dtype dvalue].
    rewrite <- (app_assoc seg2).
    rewrite (IH seg2 k (r ++ [length h]) (h ++ [extend f (wordsOf trim seg)])
               (mkFilter None []) Hseg2 Hsegs).
    + cbn [andThen]. destruct k as [|k]; [lia|]. simpl.
      rewrite extend_fresh, <- !app_assoc, length_app. simpl.
      now rewrite Nat.add_1_r.
    + rewrite !length_app. rewrite length_app in Hf. simpl in *. lia.
Qed.

(** X8. A chain of filters that ends with the stack: the property holds
    one filter a segment, in the order they are written, each with its
    name and its arguments. *)
Theorem constructProperty_chain (fuel : nat) (encoded : bool)
    (words : list Token) (sep close : Token) (seg : list Token)
    (segs : list (list Token)) :
  unterminated words = true ->
  name sep = FILTER ->
  name close = END_PROP \/ name close = END_RAW ->
  forallb filterWords (seg :: segs) = true ->
  length (flat_map (cons sep) (seg :: segs) ++ [close]) <= fuel ->
  constructProperty trim fuel encoded
    (words ++ flat_map (cons sep) (seg :: segs) ++ [close])
  = Done (mkNode (Some (if encoded then Property else RawProperty))
                 (Some (propertyText trim words)) None None None None
                 (Some (map (filterOf trim) (seg :: segs))) None,
          []).
Proof.
  intros Hw Hs Hc Hsegs Hf. unfold constructProperty.
  rewrite constructProperty_loop_words by assumption.
  replace (flat_map (cons sep) (seg :: segs) ++ [close])
    with (sep :: seg ++ flat_map (cons sep) segs ++ [close]) in *
    by (simpl; now rewrite <- app_assoc).
  cbn [constructProperty_loop]. rewrite Hs.
  unfold constructFilter, allocate. cbn [heap refs dtype dvalue length].
  simpl in Hsegs. apply andb_prop in Hsegs as [Hseg Hsegs].
  pose proof (@constructFilter_loop_chain sep close segs seg fuel
                (if encoded then Property else RawProperty)
                (EmptyString ++ propertyText trim words)%string [] []
                (mkFilter None []) Hs Hc Hseg Hsegs) as H.
  simpl in H. simpl. rewrite H by (simpl in Hf; lia).
  cbn [andThen]. unfold freeze. cbn [refs heap dtype dvalue].
  rewrite extend_fresh.
  replace (0 :: seq 1 (length segs))
    with (seq 0 (length (filterOf trim seg :: map (filterOf trim) segs)))
    by (simpl; now rewrite length_map).
  now rewrite map_nth_seq.
Qed.

Lemma named_step (v : option string) (a : list string) (w : string)
    (words : list string) :
  named (fst (named v a [w])) (snd (named v a [w])) words = named v a (w :: words).
Proof.
  destruct v as [n|]; simpl.
  - destruct words; simpl; [reflexivity|now rewrite <- app_assoc].
  - rewrite app_nil_r. destruct words; simpl; [now rewrite app_nil_r|reflexivity].
Qed.

(** The loop of a partial takes the words before the end of the tag. *)
Lemma constructPartial_loop_words (words tail : list Token)
    (v : option string) (a : list string) :
  filterWords words = true ->
  constructPartial_loop trim (partialNode v a) (words ++ tail)
  = constructPartial_loop trim
      (partialNode (fst (named v a (wordsOf trim words)))
                   (snd (named v a (wordsOf trim words))))
      tail.
Proof.
  intros Hw. revert v a.
  induction words as [|node words IH]; intros v a; [reflexivity|].
  simpl in Hw. apply andb_prop in Hw as [Hn Hw]. simpl.
  destruct (name node) eqn:En; try discriminate.
  - rewrite (IH Hw). unfold wordsOf. simpl. now rewrite En.
  - unfold wordsOf. simpl filter. rewrite En. simpl map.
    rewrite <- named_step.
    destruct v as [n|]; simpl; [|rewrite app_nil_r]; apply (IH Hw).
Qed.

(** X9. A partial tag: the first word names the partial and the later
    words are its arguments; the end of the tag closes it and leaves the
    tokens after it. The compiled call looks the name up among the
    partials and renders it with the lookup of the first argument, or
    with [null] when there is none; later arguments are not used. *)
Theorem constructPartial_words (words rest : list Token) (close : Token) :
  filterWords words = true ->
  name close = END_EXPR ->
  constructPartial trim emptyRoot (words ++ close :: rest)
    = Done (partialNode (hd_error (wordsOf trim words)) (tl (wordsOf trim words)),
            rest) /\
  Compiler.compilePartial
    (partialNode (hd_error (wordsOf trim words)) (tl (wordsOf trim words)))
    = Ok ("(partials['" ++ JS.str (hd_error (wordsOf trim words)) ++ "'].render("
          ++ match tl (wordsOf trim words) with
             | [] => "null"
             | argument :: _ => Compiler.normalizeIdentifier argument
             end
          ++ "))")%string.
Proof.
  intros Hw Hc. split.
  - unfold constructPartial.
    change (set_args (set_nodes (set_type emptyRoot (Some PartialExpression)) None)
              (Some []))
      with (partialNode None []).
    rewrite constructPartial_loop_words by assumption. simpl. rewrite Hc.
    destruct (wordsOf trim words); reflexivity.
  - unfold Compiler.compilePartial, partialNode. simpl.
    destruct (tl (wordsOf trim words)); simpl; rewrite !append_assoc; reflexivity.
Qed.

(** X10. A token in a partial tag that is no word, no white space and not
    the end of the tag is a fatal error that names the token. *)
Theorem constructPartial_unexpected (words rest : list Token) (bad : Token) :
  filterWords words = true ->
  partialToken (name bad) = false ->
  constructPartial trim emptyRoot (words ++ bad :: rest)
  = Raise (Error ("Unexpected " ++ nameString (name bad) ++ " encountered.")%string).
Proof.
  intros Hw Hb. unfold constructPartial.
  change (set_args (set_nodes (set_type emptyRoot (Some PartialExpression)) None)
            (Some []))
    with (partialNode None []).
  rewrite constructPartial_loop_words by assumption. simpl.
  destruct (name bad); try discriminate; reflexivity.
Qed.

Lemma headerConditions_cons (node : Token) (header : list Token) :
  headerConditions trim (node :: header)
  = headerConditions trim [node] ++ headerConditions trim header.
Proof. unfold headerConditions. simpl. now rewrite app_nil_r. Qed.

(** The loop of a loop tag takes the words and the assignment markers
    before the end of the tag as conditions. *)
Lemma constructEach_loop_header (header : list Token) (close : Token)
    (stack : list Token) (fuel : nat) (root : Node) (t : NodeType)
    (cs : list Condition) (loop : Node) (rest : list Token) :
  unclosed header = true ->
  name close = END_EXPR ->
  type root = Some t ->
  conditions root = Some cs ->
  constructEach_loop trim numeric fuel root (header ++ close :: stack)
    = Done (loop, rest) ->
  type loop = Some t /\
  conditions loop = Some (cs ++ headerConditions trim header).
Proof.
  intros Hh Hclose. revert fuel root cs.
  induction header as [|node header IH]; intros fuel root cs Hty Hcs.
  - destruct fuel as [|fuel]; [discriminate|]. simpl. rewrite Hclose.
    destruct (make trim numeric fuel root (Some END_EACH) stack)
      as [[[m r] q]| |] eqn:E; simpl; [|discriminate|discriminate].
    intros [= <- <-]. destruct (make_keeps _ _ _ _ _ _ E) as [Ht Hc].
    rewrite app_nil_r. split; [now apply Ht|now apply Hc].
  - destruct fuel as [|fuel]; [discriminate|].
    simpl in Hh. apply andb_prop in Hh as [Hn Hh].
    rewrite headerConditions_cons, app_assoc.
    assert (Hpush : forall c,
              (root0 <- pushCondition root c ;;
               constructEach_loop trim numeric fuel root0 (header ++ close :: stack))
              = Done (loop, rest) ->
              type loop = Some t /\
              conditions loop = Some ((cs ++ [c]) ++ headerConditions trim header)).
    { intros c. unfold pushCondition. rewrite Hcs. simpl.
      apply (IH Hh); destruct root; simpl in *; congruence. }
    assert (Hone : headerConditions trim [node]
                   = match name node with
                     | OTHER => [mkCondition Identifier (Some (trim (capture node)))]
                     | ASSIGN => [mkCondition Assignment (Some (trim (capture node)))]
                     | _ => []
                     end).
    { unfold headerConditions. simpl. now rewrite app_nil_r. }
    rewrite Hone. simpl.
    destruct (name node) eqn:En; try discriminate;
      try (rewrite app_nil_r; now apply IH); apply Hpush.
Qed.

(** X11. A loop tag: the words and the assignment markers before the end
    of the tag become the conditions of the loop, in their order, each
    with its trimmed text; every other token of the tag is skipped. *)
Theorem constructEach_header (fuel : nat) (root : Node) (header : list Token)
    (close : Token) (stack : list Token) (loop : Node) (rest : list Token) :
  unclosed header = true ->
  name close = END_EXPR ->
  constructEach trim numeric fuel root (header ++ close :: stack)
    = Done (loop, rest) ->
  type loop = Some LoopExpression /\
  conditions loop = Some (headerConditions trim header).
Proof.
  intros Hh Hclose Heach.
  destruct fuel as [|fuel]; [discriminate|]. simpl in Heach.
  apply (@constructEach_loop_header header close stack fuel (asLoop root)
           LoopExpression [] loop rest Hh Hclose);
    try exact Heach; now destruct root.
Qed.

Lemma compileLoop_source (node : Node) (source value : string)
    (first second third : Condition) (more : list Condition) (body : string) :
  conditions node = Some (first :: second :: third :: more) ->
  cvalue first = Some source ->
  source <> EmptyString ->
  cvalue third = Some value ->
  Compiler.process (nodes node) = Ok body ->
  Compiler.compileLoop node
  = Ok ("map(" ++ Compiler.normalizeIdentifier source ++ ",'"
        ++ match more with
           | [] => "i"
           | fourth :: _ => JS.elt (cvalue fourth)
           end
        ++ "','" ++ value ++ "',data,function(data) {return " ++ body
        ++ "}).join('')")%string.
Proof.
  intros Hc Hf Hs Hv Hb.
  destruct node as [ty v ns cs e ei fs ar]. unfold Compiler.process in Hb.
  simpl in *. rewrite Hc, Hb. simpl. rewrite Hf, Hv.
  destruct source as [|x source]; [now elim Hs|]. simpl.
  destruct more; simpl; rewrite ?append_assoc; simpl; rewrite ?append_assoc;
    reflexivity.
Qed.

(** X12. From the tag of a loop to its JavaScript: when the tag holds at
    least three words or assignment markers, the first is looked up on
    the data as what to iterate, the third names the value and the
    fourth, when there is one, the key, whose default is [i]; the second,
    the [as] of the template language, is never read. *)
Theorem constructEach_compiles (fuel : nat) (root : Node)
    (header : list Token) (close : Token) (stack : list Token)
    (loop : Node) (rest : list Token)
    (first second third : Condition) (more : list Condition)
    (source value body : string) :
  unclosed header = true ->
  name close = END_EXPR ->
  constructEach trim numeric fuel root (header ++ close :: stack)
    = Done (loop, rest) ->
  headerConditions trim header = first :: second :: third :: more ->
  cvalue first = Some source ->
  source <> EmptyString ->
  cvalue third = Some value ->
  Compiler.process (nodes loop) = Ok body ->
  Compiler.compileLoop loop
  = Ok ("map(" ++ Compiler.normalizeIdentifier source ++ ",'"
        ++ match more with
           | [] => "i"
           | fourth :: _ => JS.elt (cvalue fourth)
           end
        ++ "','" ++ value ++ "',data,function(data) {return " ++ body
        ++ "}).join('')")%string.
Proof.
  intros Hh Hclose Heach Hcs Hf Hs Hv Hb.
  assert (Hloop : conditions loop = Some (headerConditions trim header)).
  { destruct fuel as [|fuel]; [discriminate|]. simpl in Heach.
    apply (@constructEach_loop_header header close stack fuel (asLoop root)
             LoopExpression [] loop rest Hh Hclose);
      try exact Heach; now destruct root. }
  rewrite Hcs in Hloop.
  now apply compileLoop_source with (first := first) (second := second)
                                    (third := third).
Qed.

End TagFacts.

Section CommentFacts.

(** Plain tokens before a nested comment are dropped, and the marker after
    a tag start opens the nested comment. *)
Lemma constructComment_loop_plain (before tail : list Token) (o : Token)
    (fuel : nat) (previous : option TokenName) :
  plain before = true ->
  name o = START_EXPR ->
  previous <> Some COMMENT ->
  constructComment_loop (length before + S fuel) previous (before ++ o :: tail)
  = constructComment_loop fuel (Some START_EXPR) tail.
Proof.
  intros Hp Ho. revert previous.
  induction before as [|node before IH]; intros previous Hprev.
  - simpl. rewrite Ho. reflexivity.
  - simpl in Hp. apply andb_prop in Hp as [Hn Hp]. simpl.
    destruct (name node) eqn:En; try discriminate;
      try (apply (IH Hp); discriminate).
    destruct previous as [[]|]; try (apply (IH Hp); discriminate).
    now elim Hprev.
Qed.

(** After a nested comment, tokens that do not start with the end of a tag
    are dropped up to the end of the outer comment. *)
Lemma constructComment_loop_resumes (between after : list Token) (c e : Token)
    (fuel : nat) :
  plain between = true ->
  startsOpen between = true ->
  name c = COMMENT -> name e = END_EXPR ->
  length between + 2 <= fuel ->
  constructComment_loop fuel (Some COMMENT) (between ++ c :: e :: after)
  = Done after.
Proof.
  intros Hp Hs Hc He Hf.
  destruct between as [|node between].
  - destruct fuel as [|[|fuel]]; try (simpl in Hf; lia). simpl.
    now rewrite Hc, He.
  - destruct fuel as [|fuel]; [simpl in Hf; lia|].
    simpl in Hp, Hs, Hf. apply andb_prop in Hp as [Hn Hp]. simpl.
    destruct (name node) eqn:En; try discriminate;
      apply constructComment_loop_closes; try assumption; try discriminate; lia.
Qed.

(** X13. A comment nested in a comment is dropped with its own end, and
    the outer comment goes on to its own: after both, the tokens behind
    the outer end are left. *)
Theorem constructComment_nested (fuel : nat) (root : Node)
    (before inner between after : list Token) (o c1 c2 e2 c3 e3 : Token) :
  plain before = true -> plain inner = true -> plain between = true ->
  startsOpen between = true ->
  name o = START_EXPR ->
  name c1 = COMMENT -> name c2 = COMMENT -> name c3 = COMMENT ->
  name e2 = END_EXPR -> name e3 = END_EXPR ->
  length (before ++ o :: c1 :: inner ++ c2 :: e2 :: between ++ c3 :: e3 :: after)
    < fuel ->
  constructComment fuel root
    (before ++ o :: c1 :: inner ++ c2 :: e2 :: between ++ c3 :: e3 :: after)
  = Done after.
Proof.
  intros Hb Hi Hbw Hs Ho Hc1 Hc2 Hc3 He2 He3 Hf.
  unfold constructComment.
  rewrite length_app in Hf. simpl in Hf. rewrite length_app in Hf. simpl in Hf.
  rewrite length_app in Hf. simpl in Hf.
  replace fuel with (length before + S (fuel - length before - 1)) by lia.
  rewrite constructComment_loop_plain; try assumption; try discriminate.
  destruct (fuel - length before - 1) as [|k] eqn:Ek; [lia|].
  cbn [constructComment_loop]. rewrite Hc1.
  rewrite (@constructComment_loop_closes k None inner
             (between ++ c3 :: e3 :: after) c2 e2);
    try assumption; try discriminate; [|lia].
  cbn [andThen].
  apply constructComment_loop_resumes; try assumption. lia.
Qed.

End CommentFacts.

Section ConditionalFacts.
Variable trim : string -> string.
Variable numeric : string -> bool.

Lemma repaired_snoc (cs : list Condition) (c : Condition) :
  repaired (cs ++ [c])
  = repaired cs && match lastOf cs with
                   | Some p => negb (isIdentifier p && isIdentifier c)
                   | None => true
                   end.
Proof.
  induction cs as [|a cs IH]; [reflexivity|].
  destruct cs as [|b cs].
  - simpl. unfold lastOf. simpl. now rewrite andb_true_r.
  - change (repaired ((a :: b :: cs) ++ [c]))
      with (negb (isIdentifier a && isIdentifier b) && repaired ((b :: cs) ++ [c])).
    rewrite IH.
    change (repaired (a :: b :: cs))
      with (negb (isIdentifier a && isIdentifier b) && repaired (b :: cs)).
    replace (lastOf (a :: b :: cs)) with (lastOf (b :: cs)).
    + now rewrite andb_assoc.
    + unfold lastOf. simpl. destruct (rev cs ++ [b]) eqn:E; [|reflexivity].
      now destruct (rev cs).
Qed.

Lemma lastCondition_snoc (root : Node) (l : list Condition) (x : Condition) :
  conditions root = Some (l ++ [x]) -> lastCondition root = Some (length l).
Proof.
  unfold lastCondition. intros ->. destruct l as [|a l]; [reflexivity|].
  cbn [app length]. rewrite length_app. cbn [length]. f_equal. lia.
Qed.

Lemma previousIsIdentifier_last (root : Node) (cs : list Condition) :
  conditions root = Some cs ->
  previousIsIdentifier root (lastCondition root)
  = match lastOf cs with Some p => isIdentifier p | None => false end.
Proof.
  intros Hcs.
  destruct (lastOf_cases cs) as [[-> ->]|(x & E & ->)].
  - unfold previousIsIdentifier, lastCondition. now rewrite Hcs.
  - revert E Hcs. generalize (removelast cs) as l. intros l -> Hcs.
    rewrite (lastCondition_snoc _ _ _ Hcs). unfold previousIsIdentifier.
    rewrite Hcs, nth_error_app2 by lia. now rewrite Nat.sub_diag.
Qed.

Lemma repaired_kinds (l1 l2 : list Condition) :
  map isIdentifier l1 = map isIdentifier l2 -> repaired l1 = repaired l2.
Proof.
  revert l2. induction l1 as [|a l1 IH]; intros [|b l2] H; try discriminate;
    [reflexivity|].
  injection H as Hab H. specialize (IH l2 H).
  destruct l1 as [|a' l1], l2 as [|b' l2]; try discriminate; [reflexivity|].
  injection H as Hab' _.
  change (negb (isIdentifier a && isIdentifier a') && repaired (a' :: l1)
          = negb (isIdentifier b && isIdentifier b') && repaired (b' :: l2)).
  now rewrite Hab, Hab', IH.
Qed.

Lemma repaired_alter (f : Condition -> Condition) (i : nat) (cs : list Condition) :
  (forall c, ctype (f c) = ctype c) ->
  repaired (alter f i cs) = repaired cs.
Proof.
  intros Hf. apply repaired_kinds.
  revert i. induction cs as [|a cs IH]; intros i; [now destruct i|].
  destruct i as [|i]; simpl.
  - unfold isIdentifier at 1. now rewrite Hf.
  - now rewrite IH.
Qed.

(** The loop of a conditional keeps its conditions repaired. *)
Lemma constructConditional_loop_repaired (fuel : nat) (root : Node)
    (stack : list Token) (cs : list Condition) result root' rest :
  conditions root = Some cs ->
  repaired cs = true ->
  constructConditional_loop trim numeric fuel root (lastCondition root) stack
    = Done (result, root', rest) ->
  exists cs', conditions root' = Some cs' /\ repaired cs' = true.
Proof.
  revert root stack cs.
  induction fuel as [|fuel IH]; intros root stack cs Hcs Hr; [discriminate|].
  assert (Hbody : forall s,
            ('(_, root0, stack0) <- make trim numeric fuel root (Some END_IF) s ;;
             Done (RNode root0, root0, stack0)) = Done (result, root', rest) ->
            exists cs', conditions root' = Some cs' /\ repaired cs' = true).
  { intros s.
    destruct (make trim numeric fuel root (Some END_IF) s) as [[[m r] q]| |] eqn:E;
      simpl; [|discriminate|discriminate].
    intros [= <- <- <-]. destruct (make_keeps _ _ _ _ _ _ E) as [_ Hc].
    exists cs. split; [now apply Hc|exact Hr]. }
  destruct stack as [|node stack]; [apply Hbody|]. simpl.
  assert (Hpush : forall c,
            match lastOf cs with
            | Some p => negb (isIdentifier p && isIdentifier c)
            | None => true
            end = true ->
            (root0 <- pushCondition root c ;;
             constructConditional_loop trim numeric fuel root0 (lastCondition root0) stack)
            = Done (result, root', rest) ->
            exists cs', conditions root' = Some cs' /\ repaired cs' = true).
  { intros c Hc. unfold pushCondition. rewrite Hcs. simpl.
    apply IH with (cs := cs ++ [c]); [now destruct root|].
    now rewrite repaired_snoc, Hr, Hc. }
  assert (Hplain : forall c, isIdentifier c = false ->
            match lastOf cs with
            | Some p => negb (isIdentifier p && isIdentifier c)
            | None => true
            end = true).
  { intros c Hc. destruct (lastOf cs); [|reflexivity].
    now rewrite Hc, andb_false_r. }
  assert (Happend :
            previousIsIdentifier root (lastCondition root) = true ->
            constructConditional_loop trim numeric fuel
              (appendToPrevious root (lastCondition root) (trim (capture node)))
              (lastCondition
                 (appendToPrevious root (lastCondition root) (trim (capture node))))
              stack
            = Done (result, root', rest) ->
            exists cs', conditions root' = Some cs' /\ repaired cs' = true).
  { intros Hp. destruct cs as [|c0 cs0].
    - unfold previousIsIdentifier, lastCondition in Hp. rewrite Hcs in Hp.
      discriminate.
    - apply IH with
        (cs := alter (fun c => mkCondition (ctype c)
                                 (Some (JS.str (cvalue c)
                                        ++ trim (capture node))%string))
                     (length (c0 :: cs0) - 1) (c0 :: cs0)).
      + unfold appendToPrevious, lastCondition. rewrite Hcs. now destruct root.
      + now rewrite repaired_alter. }
  assert (Hword :
            previousIsIdentifier root (lastCondition root) = false ->
            (root0 <- pushCondition root
                        (mkCondition Identifier (Some (trim (capture node)))) ;;
             constructConditional_loop trim numeric fuel root0 (lastCondition root0) stack)
            = Done (result, root', rest) ->
            exists cs', conditions root' = Some cs' /\ repaired cs' = true).
  { intros Hp. apply Hpush. rewrite (previousIsIdentifier_last root Hcs) in Hp.
    destruct (lastOf cs); [now rewrite Hp|reflexivity]. }
  destruct (name node); try (apply Hpush; now apply Hplain);
    try (apply IH with (cs := cs); assumption); try apply Hbody;
    (destruct (_ || _); [apply Hpush; now apply Hplain|]);
    (destruct (numeric _); [apply Hpush; now apply Hplain|]);
    (destruct (isString _); [apply Hpush; now apply Hplain|]);
    (destruct (previousIsIdentifier root (lastCondition root)) eqn:Ep;
     [now apply Happend|now apply Hword]).
Qed.

(** The loop of a conditional reads the tokens before the end of the tag
    as [withToken] does. *)
Lemma constructConditional_loop_header (header : list Token) (fuel : nat)
    (root : Node) (close : Token) (stack : list Token) (cs : list Condition)
    result root' rest :
  conditions root = Some cs ->
  unclosed header = true ->
  name close = END_EXPR ->
  constructConditional_loop trim numeric fuel root (lastCondition root)
    (header ++ close :: stack) = Done (result, root', rest) ->
  conditions root' = Some (fold_left (withToken trim numeric) header cs).
Proof.
  revert fuel root cs.
  induction header as [|node header IH]; intros fuel root cs Hcs Hh Hclose;
    (destruct fuel as [|fuel]; [discriminate|]).
  - simpl. rewrite Hclose.
    destruct (make trim numeric fuel root (Some END_IF) stack)
      as [[[m r] q]| |] eqn:E; simpl; [|discriminate|discriminate].
    intros [= <- <- <-]. destruct (make_keeps _ _ _ _ _ _ E) as [_ Hc].
    now apply Hc.
  - cbn [unclosed forallb] in Hh. apply andb_prop in Hh as [Hn Hh].
    cbn [fold_left]. cbn [app]. simpl.
    assert (Hpush : forall c,
              (root0 <- pushCondition root c ;;
               constructConditional_loop trim numeric fuel root0
                 (lastCondition root0) (header ++ close :: stack))
              = Done (result, root', rest) ->
              conditions root'
              = Some (fold_left (withToken trim numeric) header (cs ++ [c]))).
    { intros c. unfold pushCondition. rewrite Hcs. simpl.
      apply IH; [now destruct root|exact Hh|exact Hclose]. }
    assert (Hskip : constructConditional_loop trim numeric fuel root
                      (lastCondition root) (header ++ close :: stack)
                    = Done (result, root', rest) ->
                    conditions root'
                    = Some (fold_left (withToken trim numeric) header cs)).
    { now apply IH. }
    assert (Hword :
              (if previousIsIdentifier root (lastCondition root)
               then constructConditional_loop trim numeric fuel
                      (appendToPrevious root (lastCondition root)
                         (trim (capture node)))
                      (lastCondition
                         (appendToPrevious root (lastCondition root)
                            (trim (capture node))))
                      (header ++ close :: stack)
               else root0 <- pushCondition root
                               (mkCondition Identifier
                                  (Some (trim (capture node)))) ;;
                    constructConditional_loop trim numeric fuel root0
                      (lastCondition root0) (header ++ close :: stack))
              = Done (result, root', rest) ->
              conditions root'
              = Some (fold_left (withToken trim numeric) header
                        (withWord cs (trim (capture node))))).
    { rewrite (previousIsIdentifier_last root Hcs). unfold withWord.
      destruct (lastOf_cases cs) as [[-> ->]|(x & E & ->)]; [apply Hpush|].
      destruct (isIdentifier x) eqn:Ex; [|apply Hpush].
      revert E Hcs. generalize (removelast cs) as l. intros l -> Hcs.
      apply IH; [|exact Hh|exact Hclose].
      unfold appendToPrevious. rewrite (lastCondition_snoc _ _ _ Hcs), Hcs.
      rewrite alter_middle. unfold isIdentifier in Ex.
      destruct (ctype x); try discriminate. now destruct root. }
    unfold withToken, literal.
    destruct (name node); try discriminate Hn; try apply Hpush;
      try exact Hskip;
      (destruct (String.eqb _ "false" || String.eqb _ "true");
       [apply Hpush|]); cbn [orb];
      (destruct (numeric _); [apply Hpush|]); cbn [orb];
      (destruct (isString _); [apply Hpush|]); exact Hword.
Qed.

(** Words that are no literals run into one identifier. *)
Lemma withToken_bareWords (words : list Token) (cs : list Condition) (v : string) :
  bareWords trim numeric words = true ->
  fold_left (withToken trim numeric) words
    (cs ++ [mkCondition Identifier (Some v)])
  = cs ++ [mkCondition Identifier
             (Some (v ++ String.concat EmptyString (wordsOf trim words))%string)].
Proof.
  revert v. induction words as [|node words IH]; intros v Hw.
  - simpl. now rewrite append_empty.
  - cbn [bareWords forallb] in Hw. apply andb_prop in Hw as [Hn Hw].
    cbn [fold_left]. unfold withToken at 2, wordsOf.
    destruct (name node) eqn:En; try discriminate Hn; cbn [filter map];
      rewrite En.
    + now apply IH.
    + apply negb_true_iff in Hn. rewrite Hn. unfold withWord.
      rewrite lastOf_snoc, removelast_last. cbn [isIdentifier ctype cvalue JS.str].
      rewrite (IH _ Hw). cbn [map]. rewrite concat_empty_cons.
      now rewrite append_assoc.
Qed.

Lemma tagConditions_bareWords (words : list Token) :
  bareWords trim numeric words = true ->
  wordsOf trim words <> [] ->
  tagConditions trim numeric words
  = [mkCondition Identifier
       (Some (String.concat EmptyString (wordsOf trim words)))].
Proof.
  unfold tagConditions. induction words as [|node words IH]; intros Hw Hne.
  - now elim Hne.
  - cbn [bareWords forallb] in Hw. apply andb_prop in Hw as [Hn Hw].
    cbn [fold_left]. unfold wordsOf in *. unfold withToken at 2.
    destruct (name node) eqn:En; try discriminate Hn; cbn [filter map] in *;
      rewrite En in *.
    + now apply IH.
    + apply negb_true_iff in Hn. rewrite Hn. unfold withWord. cbn [lastOf rev].
      change ([] ++ [mkCondition Identifier (Some (trim (capture node)))])
        with (@nil Condition
              ++ [mkCondition Identifier (Some (trim (capture node)))]).
      rewrite (withToken_bareWords _ [] _ Hw). cbn [app map].
      now rewrite concat_empty_cons.
Qed.

(** X14. The conditions of a conditional tag. They never hold two
    identifiers side by side. They are what reading the tokens before
    the end of the tag from the left gives: a word that is no literal and
    follows an identifier is added to the text of that identifier, and is
    no condition of its own. So a tag of nothing but such words, however
    many, has the one identifier whose text is the words run together. *)
Theorem constructConditional_repaired (fuel : nat) (root : Node)
    (kind : option TokenName) (stack : list Token) result root' rest :
  conditions root = None ->
  kind <> Some ELSE -> kind <> Some ELSIF ->
  constructConditional trim numeric fuel root kind stack
    = Done (result, root', rest) ->
  (exists cs, conditions root' = Some cs /\ repaired cs = true) /\
  (forall header close after,
     stack = header ++ close :: after ->
     unclosed header = true ->
     name close = END_EXPR ->
     conditions root' = Some (tagConditions trim numeric header) /\
     (bareWords trim numeric header = true ->
      wordsOf trim header <> [] ->
      conditions root'
      = Some [mkCondition Identifier
                (Some (String.concat EmptyString (wordsOf trim header)))])).
Proof.
  intros Hc H1 H2. destruct fuel as [|fuel]; [discriminate|].
  intros H.
  assert (Hloop : constructConditional_loop trim numeric fuel (asConditional root)
                    (lastCondition (asConditional root)) stack
                  = Done (result, root', rest)).
  { simpl in H. replace (lastCondition (asConditional root)) with (@None nat)
      by (destruct root; simpl in *; now rewrite Hc).
    destruct kind as [[]|]; try exact H; [now elim H2|now elim H1]. }
  assert (Hcs : conditions (asConditional root) = Some []).
  { destruct root; simpl in *. now rewrite Hc. }
  split.
  - now apply constructConditional_loop_repaired with (cs := []) in Hloop.
  - intros header close after -> Hh Hclose.
    assert (Htag : conditions root' = Some (tagConditions trim numeric header)).
    { unfold tagConditions.
      eapply constructConditional_loop_header; eassumption. }
    split; [exact Htag|]. intros Hw Hne.
    now rewrite Htag, tagConditions_bareWords.
Qed.

End ConditionalFacts.

Lemma careful_andThen {A B} (r : Run A) (k : A -> Run B) (Q1 : A -> Prop)
    (Q : B -> Prop) :
  careful r Q1 -> (forall a, Q1 a -> careful (k a) Q) -> careful (andThen r k) Q.
Proof. destruct r; simpl; auto. Qed.

Lemma careful_mono {A} (r : Run A) (Q1 Q2 : A -> Prop) :
  careful r Q1 -> (forall a, Q1 a -> Q2 a) -> careful r Q2.
Proof. destruct r; simpl; auto. Qed.

Lemma parseError_unexpected (n : TokenName) : parseError (unexpected n).
Proof. right. right. now exists n. Qed.

Section CarefulFacts.
Variable trim : string -> string.
Variable numeric : string -> bool.

Lemma constructFilter_loop_careful (fuel current : nat) (root : Descriptor)
    (stack : list Token) :
  careful (constructFilter_loop trim fuel current root stack) (fun _ => True).
Proof.
  revert current root stack.
  induction fuel as [|fuel IH]; intros current root stack; [exact I|].
  destruct stack as [|node stack]; simpl; [exact I|].
  destruct (name node); simpl; try apply parseError_unexpected; try exact I;
    try apply IH.
  eapply careful_andThen; [apply IH|]. intros [r q] _. apply IH.
Qed.

Lemma constructProperty_careful (fuel : nat) (encoded : bool) (stack : list Token) :
  careful (constructProperty trim fuel encoded stack) (fun _ => True).
Proof.
  unfold constructProperty. generalize (mkDescriptor
    (if encoded then Property else RawProperty) EmptyString [] []) as d.
  induction stack as [|node stack IH]; intros d; simpl; [now left|].
  destruct (name node); simpl; try apply IH; try exact I.
  unfold constructFilter. destruct (allocate d) as [c d'].
  eapply careful_andThen; [apply constructFilter_loop_careful|].
  now intros [r q] _.
Qed.

Lemma constructPartial_careful (root : Node) (stack : list Token) :
  careful (constructPartial trim root stack) (fun _ => True).
Proof.
  unfold constructPartial.
  assert (H : forall r, args r <> None ->
                careful (constructPartial_loop trim r stack) (fun _ => True)).
  { induction stack as [|node stack IH]; intros r Hr; simpl; [exact I|].
    destruct (name node); simpl; try apply parseError_unexpected; try exact I;
      try (now apply IH).
    destruct (value r).
    - destruct (args r) eqn:Ea; [|now elim Hr]. apply IH. now destruct r.
    - apply IH. now destruct r. }
  apply H. now destruct root.
Qed.

Lemma constructComment_careful (fuel : nat) (root : Node) (stack : list Token) :
  careful (constructComment fuel root stack) (fun _ => True).
Proof.
  unfold constructComment. generalize (@None TokenName) as previous.
  revert stack. induction fuel as [|fuel IH]; intros stack previous; [exact I|].
  destruct stack as [|node stack]; simpl; [exact I|].
  destruct (name node); try apply IH.
  - destruct previous as [[]|]; try apply IH. exact I.
  - destruct previous as [[]|]; try apply IH.
    eapply careful_andThen; [apply IH|]. intros q _. apply IH.
Qed.

Lemma hasNodes_push (root n : Node) :
  hasNodes root = true ->
  careful (push root n) (fun root' => hasNodes root' = true).
Proof.
  unfold push, hasNodes. destruct (nodes root) eqn:E; [|discriminate].
  intros _. simpl. now destruct root.
Qed.

Lemma pushCondition_careful (root : Node) (c : Condition) :
  hasNodes root = true -> hasConditions root = true ->
  careful (pushCondition root c)
          (fun root' => hasNodes root' = true /\ hasConditions root' = true).
Proof.
  unfold pushCondition, hasConditions, hasNodes.
  destruct (conditions root) eqn:E; [|discriminate].
  intros Hn _. simpl. destruct root; simpl in *. now split.
Qed.

Lemma make_careful_step (fuel : nat) :
  carefulAt trim numeric fuel ->
  forall root END stack,
    hasNodes root = true ->
    careful (make trim numeric (S fuel) root END stack)
            (fun '(_, root', _) => hasNodes root' = true).
Proof.
  intros (IHmake & IHexpr & _) root END stack Hr.
  destruct stack as [|node stack]; [exact Hr|]. simpl.
  destruct (nodes root) as [ns|] eqn:Ens;
    [|unfold hasNodes in Hr; now rewrite Ens in Hr].
  assert (Hproperty : forall encoded,
            careful ('(property, stack0) <- constructProperty trim fuel encoded stack ;;
                     root0 <- push root property ;;
                     make trim numeric fuel root0 END stack0)
                    (fun '(_, root', _) => hasNodes root' = true)).
  { intros encoded.
    eapply careful_andThen; [apply constructProperty_careful|].
    intros [p q] _.
    eapply careful_andThen; [now apply hasNodes_push|].
    intros r Hr'. now apply IHmake. }
  destruct (name node); try apply Hproperty;
    try (apply IHmake; unfold pushText;
         destruct (lastOf ns) as [p|]; [destruct (type p) as [[]|]|];
         now destruct root);
    try (now apply IHmake).
  eapply careful_andThen; [now apply IHexpr|].
  intros [[result r] q] Hr'.
  destruct result; try exact Hr'; [|now apply IHmake].
  eapply careful_andThen; [now apply hasNodes_push|].
  intros r' Hr''. now apply IHmake.
Qed.

Lemma constructExpression_careful_step (fuel : nat) :
  carefulAt trim numeric fuel ->
  forall root END stack,
    hasNodes root = true ->
    careful (constructExpression trim numeric (S fuel) root END stack)
            (fun '(_, root', _) => hasNodes root' = true).
Proof.
  intros (_ & IHexpr & IHeach & _ & IHcond & _) root END stack Hr.
  destruct stack as [|type stack]; [exact Hr|]. simpl.
  destruct (isEnd END (name type)); [exact Hr|].
  destruct (name type); try (right; now left); try (now apply IHexpr);
    try (now apply IHcond).
  - eapply careful_andThen; [now apply IHeach|]. now intros [l q] _.
  - eapply careful_andThen; [now apply (IHcond emptyRoot)|].
    now intros [[result r] q] _.
  - eapply careful_andThen; [apply constructComment_careful|]. now intros q _.
  - eapply careful_andThen; [apply constructPartial_careful|]. now intros [p q] _.
Qed.

Lemma constructEach_loop_careful_step (fuel : nat) :
  carefulAt trim numeric fuel ->
  forall root stack,
    hasNodes root = true -> hasConditions root = true ->
    careful (constructEach_loop trim numeric (S fuel) root stack) (fun _ => True).
Proof.
  intros (IHmake & _ & _ & IHloop & _) root stack Hr Hc.
  assert (Hbody : forall s,
            careful ('(_, root0, stack0) <- make trim numeric fuel root (Some END_EACH) s ;;
                     Done (root0, stack0)) (fun _ => True)).
  { intros s. eapply careful_andThen; [now apply IHmake|]. now intros [[m r] q] _. }
  destruct stack as [|node stack]; [apply Hbody|]. simpl.
  assert (Hpush : forall c,
            careful (root0 <- pushCondition root c ;;
                     constructEach_loop trim numeric fuel root0 stack) (fun _ => True)).
  { intros c. eapply careful_andThen; [now apply pushCondition_careful|].
    intros r [H1 H2]. now apply IHloop. }
  destruct (name node); try apply Hpush; try apply Hbody; now apply IHloop.
Qed.

Lemma constructConditional_careful_step (fuel : nat) :
  carefulAt trim numeric fuel ->
  forall root kind stack,
    hasNodes root = true ->
    careful (constructConditional trim numeric (S fuel) root kind stack)
            (fun '(_, root', _) => hasNodes root' = true).
Proof.
  intros (IHmake & _ & _ & _ & IHcond & IHloop) root kind stack Hr. simpl.
  assert (Hloop : careful (constructConditional_loop trim numeric fuel
                             (asConditional root) None stack)
                          (fun '(_, root', _) => hasNodes root' = true)).
  { apply IHloop; now destruct root. }
  destruct kind as [[]|]; try exact Hloop.
  - eapply careful_andThen; [now apply (IHcond emptyRoot)|].
    intros [[result r] q] _. simpl. now destruct root.
  - eapply careful_andThen; [now apply (IHmake emptyRoot)|].
    intros [[m r] q] _. simpl. now destruct root.
Qed.

Lemma constructConditional_loop_careful_step (fuel : nat) :
  carefulAt trim numeric fuel ->
  forall root previous stack,
    hasNodes root = true -> hasConditions root = true ->
    careful (constructConditional_loop trim numeric (S fuel) root previous stack)
            (fun '(_, root', _) => hasNodes root' = true).
Proof.
  intros (IHmake & _ & _ & _ & _ & IHloop) root previous stack Hr Hc.
  assert (Hbody : forall s,
            careful ('(_, root0, stack0) <- make trim numeric fuel root (Some END_IF) s ;;
                     Done (RNode root0, root0, stack0))
                    (fun '(_, root', _) => hasNodes root' = true)).
  { intros s. eapply careful_andThen; [now apply IHmake|]. now intros [[m r] q] H. }
  destruct stack as [|node stack]; [apply Hbody|]. simpl.
  assert (Hpush : forall c,
            careful (root0 <- pushCondition root c ;;
                     constructConditional_loop trim numeric fuel root0
                       (lastCondition root0) stack)
                    (fun '(_, root', _) => hasNodes root' = true)).
  { intros c. eapply careful_andThen; [now apply pushCondition_careful|].
    intros r [H1 H2]. now apply IHloop. }
  assert (Happend : forall v,
            careful (constructConditional_loop trim numeric fuel
                       (appendToPrevious root previous v)
                       (lastCondition (appendToPrevious root previous v)) stack)
                    (fun '(_, root', _) => hasNodes root' = true)).
  { intros v. unfold appendToPrevious.
    destruct previous; [|now apply IHloop].
    destruct (conditions root) eqn:E; [|now apply IHloop].
    apply IHloop; now destruct root. }
  destruct (name node); try apply Hpush; try apply Hbody; try (now apply IHloop);
    (destruct (_ || _); [apply Hpush|]);
    (destruct (numeric _); [apply Hpush|]);
    (destruct (isString _); [apply Hpush|]);
    (destruct (previousIsIdentifier _ _); [apply Happend|apply Hpush]).
Qed.

Lemma parser_careful (fuel : nat) : carefulAt trim numeric fuel.
Proof.
  induction fuel as [|fuel IH].
  - repeat split; intros; exact I.
  - repeat split.
    + now apply make_careful_step.
    + now apply constructExpression_careful_step.
    + intros root stack Hr. simpl.
      destruct IH as (_ & _ & _ & IHloop & _). apply IHloop; now destruct root.
    + now apply constructEach_loop_careful_step.
    + now apply constructConditional_careful_step.
    + now apply constructConditional_loop_careful_step.
Qed.

(** X15. When the parse of a stack throws, it throws one of the three
    errors of the parser: the unterminated property, the invalid
    expression type, or the unexpected token. It never fails on a missing
    field, and it never rejects a conditional for having no condition. *)
Theorem parse_errors (stack : list Token) (e : Exn) :
  parse trim numeric stack = Raise e ->
  e = Error "Unterminated property." \/
  e = Error "Invalid expression type." \/
  exists n, e = Error ("Unexpected " ++ nameString n ++ " encountered.")%string.
Proof.
  intros H. unfold parse in H.
  destruct (parser_careful (4 * length stack + 1)) as [Hmake _].
  specialize (Hmake templateRoot None stack eq_refl).
  rewrite H in Hmake. exact Hmake.
Qed.

End CarefulFacts.

Lemma prefix_empty (s : string) : String.prefix EmptyString s = true.
Proof. now destruct s. Qed.

Lemma prefix_app (n a b : string) :
  String.prefix n a = true -> String.prefix n (a ++ b) = true.
Proof.
  revert n. induction a as [|y a IH]; intros [|x n]; simpl.
  - intros _. apply prefix_empty.
  - discriminate.
  - reflexivity.
  - destruct (ascii_dec x y); [apply IH|discriminate].
Qed.

Section OccursFacts.
Variable needle : string.

Lemma occurs_of_empty (s : string) :
  JS.occurs needle EmptyString = true -> JS.occurs needle s = true.
Proof.
  intros H. destruct needle; [now destruct s|discriminate].
Qed.

Lemma occurs_app_l (a b : string) :
  JS.occurs needle a = true -> JS.occurs needle (a ++ b) = true.
Proof.
  induction a as [|x a IH].
  - intros H. now apply occurs_of_empty.
  - intros H. simpl in H. apply orb_prop in H as [H|H].
    + change (String x a ++ b)%string with (String x (a ++ b)).
      change (JS.occurs needle (String x (a ++ b)))
        with (String.prefix needle (String x a ++ b)
              || JS.occurs needle (a ++ b)).
      now rewrite prefix_app.
    + change (JS.occurs needle (String x a ++ b))
        with (String.prefix needle (String x a ++ b)
              || JS.occurs needle (a ++ b)).
      rewrite (IH H). apply orb_true_r.
Qed.

Lemma occurs_app_r (a b : string) :
  JS.occurs needle b = true -> JS.occurs needle (a ++ b) = true.
Proof.
  intros H. induction a as [|x a IH]; simpl; [exact H|].
  rewrite IH. apply orb_true_r.
Qed.

Lemma occurs_join (sep : string) (l : list string) (s : string) :
  In s l -> JS.occurs needle s = true -> JS.occurs needle (JS.join sep l) = true.
Proof.
  unfold JS.join. intros Hin Hs.
  induction l as [|x l IH]; [contradiction|].
  destruct l as [|y l].
  - destruct Hin as [->|[]]. exact Hs.
  - change (String.concat sep (x :: y :: l))
      with (x ++ sep ++ String.concat sep (y :: l))%string.
    destruct Hin as [->|Hin].
    + now apply occurs_app_l.
    + apply occurs_app_r, occurs_app_r. now apply IH.
Qed.
End OccursFacts.

Lemma mapM_in {A B} (f : A -> Result B) (l : list A) (ys : list B) (x : A) :
  mapM f l = Ok ys -> In x l -> exists y, f x = Ok y /\ In y ys.
Proof.
  revert ys. induction l as [|a l IH]; intros ys H Hin; [contradiction|].
  simpl in H. destruct (f a) as [b|] eqn:Ea; [simpl in H|discriminate].
  destruct (mapM f l) as [bs|]; [simpl in H|discriminate].
  injection H as <-. destruct Hin as [->|Hin].
  - exists b. split; [exact Ea|now left].
  - destruct (IH bs eq_refl Hin) as (y & Hy & Hiny). exists y.
    split; [exact Hy|now right].
Qed.

Lemma Ok_eq {A} (a b : A) : Ok a = Ok b -> a = b.
Proof. now intros [= ->]. Qed.

Lemma compileConditional_eq (node : Node) :
  compileConditional node =
  match conditions node with
  | None => Throw TypeError
  | Some [] => Throw (Error "Missing conditions to if statement.")
  | Some cs =>
      do compiled <- mapM compileCondition cs;
      do els <- match els node with
                | Some e => do s <- process (nodes e); Ok (Some s)
                | None => Ok None
                end;
      do elsif <- match elsif node with
                  | Some e => do s <- compileConditional e; Ok (Some s)
                  | None => Ok None
                  end;
      do body <- process (nodes node);
      Ok (JS.join EmptyString
            [ "("; "("; JS.join " " (map JS.elt compiled); ")"; "?"; body; ":";
              alternative els elsif;
              ")" ])
  end.
Proof. destruct node as [? ? ? [[|]|] ? ? ? ?]; reflexivity. Qed.

Lemma compileLoop_eq (node : Node) :
  compileLoop node =
  let conditions := match conditions node with Some cs => cs | None => [] end in
  let keyVal := keyVal conditions in
  let value := loopValue conditions in
  do body <- process (nodes node);
  Ok (JS.join EmptyString
        [ "map("; if JS.truthy value then normalizeIdentifier (JS.elt value) else "data"; ",";
          "'"; fst keyVal; "'"; ",";
          "'"; if JS.truthy value then snd keyVal else EmptyString; "'"; ",";
          "data"; ",";
          "function(data) {";
            ("return " ++ body)%string;
          "}";
          ").join('')" ]).
Proof. destruct node; reflexivity. Qed.

Lemma conditional_eq (leaf : Node -> bool) (node : Node) :
  Reaches.conditional leaf node =
  Reaches.tree leaf (nodes node)
  || match els node with
     | Some e => Reaches.tree leaf (nodes e)
     | None => match elsif node with
               | Some e => Reaches.conditional leaf e
               | None => false
               end
     end.
Proof. destruct node; reflexivity. Qed.

Lemma loop_eq (leaf : Node -> bool) (node : Node) :
  Reaches.loop leaf node = Reaches.tree leaf (nodes node).
Proof. destruct node; reflexivity. Qed.

Section ReachFacts.
Variable needle : string.
Variable leaf : Node -> bool.

(** What [leaf] picks compiles to an expression that holds the needle. *)
Hypothesis leaf_occurs :
  forall node s,
    leaf node = true ->
    compileNode compileConditional compileLoop node = Ok s ->
    JS.occurs needle s = true.

Lemma process_reaches (ns : option (list Node)) (s : string) :
  (forall l, ns = Some l ->
     Forall (fun n =>
               (Reaches.conditional leaf n = true ->
                forall s, compileConditional n = Ok s -> JS.occurs needle s = true) /\
               (Reaches.loop leaf n = true ->
                forall s, compileLoop n = Ok s -> JS.occurs needle s = true)) l) ->
  Reaches.tree leaf ns = true ->
  process ns = Ok s ->
  JS.occurs needle s = true.
Proof.
  intros Hall Hr Hs. destruct ns as [l|]; [|discriminate].
  specialize (Hall l eq_refl). unfold process in Hs. simpl in Hr, Hs.
  destruct (mapM (compileNode compileConditional compileLoop) l) as [cmds|] eqn:E;
    [|discriminate].
  injection Hs as <-.
  apply existsb_exists in Hr as (n & Hin & Hn).
  destruct (mapM_in _ _ n E Hin) as (c & Hc & Hinc).
  apply occurs_join with (s := c); [exact Hinc|].
  rewrite Forall_forall in Hall. destruct (Hall n Hin) as [HC HL].
  unfold Reaches.child in Hn. apply orb_prop in Hn as [Hn|Hn].
  - eapply leaf_occurs; eassumption.
  - unfold compileNode in Hc.
    destruct (type n) as [[]|]; try discriminate; auto.
Qed.

Lemma compile_reaches (node : Node) :
  (Reaches.conditional leaf node = true ->
   forall s, compileConditional node = Ok s -> JS.occurs needle s = true) /\
  (Reaches.loop leaf node = true ->
   forall s, compileLoop node = Ok s -> JS.occurs needle s = true) /\
  (Reaches.tree leaf (nodes node) = true ->
   forall s, process (nodes node) = Ok s -> JS.occurs needle s = true).
Proof.
  induction node as [node Hnodes Hels Helsif] using Node_nested_ind.
  assert (Hbody : Reaches.tree leaf (nodes node) = true ->
                  forall s, process (nodes node) = Ok s ->
                            JS.occurs needle s = true).
  { intros Hr s. apply process_reaches; [|exact Hr].
    intros l Hl. specialize (Hnodes l Hl).
    eapply Forall_impl; [|exact Hnodes]. intros n (HC & HL & _). now split. }
  split; [|split; [|exact Hbody]].
  - intros Hr s H. rewrite conditional_eq in Hr.
    rewrite compileConditional_eq in H.
    destruct (conditions node) as [[|c cs]|]; try discriminate.
    destruct (mapM compileCondition (c :: cs)) as [compiled|];
      unfold bind in H; cbv beta iota in H; [|discriminate].
    destruct (els node) as [e|] eqn:Ee.
    + destruct (process (nodes e)) as [se|] eqn:Ese; unfold bind in H; cbv beta iota in H;
        [|discriminate].
      destruct (match elsif node with Some _ => _ | None => _ end) as [sei|];
        unfold bind in H; cbv beta iota in H; [|discriminate].
      destruct (process (nodes node)) as [body|] eqn:Eb; unfold bind in H; cbv beta iota in H;
        [|discriminate].
      apply Ok_eq in H. subst s. apply orb_prop in Hr as [Hr|Hr].
      * apply occurs_join with (s := body); [simpl; tauto|now apply Hbody].
      * assert (Hse : JS.occurs needle se = true).
        { destruct (Hels e eq_refl) as (_ & _ & HT). now apply HT. }
        apply occurs_join with (s := alternative (Some se) sei); [simpl; tauto|].
        unfold alternative. destruct se as [|a se]; [|exact Hse].
        now apply occurs_of_empty.
    + unfold bind in H; cbv beta iota in H. destruct (elsif node) as [ei|] eqn:Eei.
      * destruct (compileConditional ei) as [sei|] eqn:Esei; unfold bind in H; cbv beta iota in H;
          [|discriminate].
        destruct (process (nodes node)) as [body|] eqn:Eb; unfold bind in H; cbv beta iota in H;
          [|discriminate].
        apply Ok_eq in H. subst s. apply orb_prop in Hr as [Hr|Hr].
        -- apply occurs_join with (s := body); [simpl; tauto|now apply Hbody].
        -- assert (Hsei : JS.occurs needle sei = true).
           { destruct (Helsif ei eq_refl) as (HC & _). now apply HC. }
           apply occurs_join with (s := alternative None (Some sei));
             [simpl; tauto|].
           unfold alternative. destruct sei as [|a sei]; [|exact Hsei].
           now apply occurs_of_empty.
      * unfold bind in H; cbv beta iota in H.
        destruct (process (nodes node)) as [body|] eqn:Eb; unfold bind in H; cbv beta iota in H;
          [|discriminate].
        apply Ok_eq in H. subst s. rewrite orb_false_r in Hr.
        apply occurs_join with (s := body); [simpl; tauto|now apply Hbody].
  - intros Hr s H. rewrite loop_eq in Hr. rewrite compileLoop_eq in H.
    cbn zeta in H.
    destruct (process (nodes node)) as [body|] eqn:Eb; unfold bind in H; cbv beta iota in H;
      [|discriminate].
    apply Ok_eq in H. subst s.
    apply occurs_join with (s := ("return " ++ body)%string); [simpl; tauto|].
    apply occurs_app_r. now apply Hbody.
Qed.

Lemma process_tree_reaches (ns : option (list Node)) (s : string) :
  Reaches.tree leaf ns = true -> process ns = Ok s -> JS.occurs needle s = true.
Proof.
  apply process_reaches. intros l _. apply Forall_forall. intros n _.
  destruct (compile_reaches n) as (HC & HL & _). now split.
Qed.
End ReachFacts.

Lemma isLoop_occurs (node : Node) (s : string) :
  isLoop node = true ->
  compileNode compileConditional compileLoop node = Ok s ->
  JS.occurs "map(" s = true.
Proof.
  unfold isLoop, compileNode.
  destruct (type node) as [[]|]; try discriminate. intros _ H.
  rewrite compileLoop_eq in H. cbv zeta in H.
  destruct (process (nodes node)) as [body|]; unfold bind in H;
    cbv beta iota in H; [|discriminate].
  apply Ok_eq in H. subst s.
  apply occurs_join with (s := "map("); [simpl; tauto|reflexivity].
Qed.

Lemma nestFilter_occurs (needle : string) (fs : list Filter) (memo : string) :
  JS.occurs needle memo = true ->
  JS.occurs needle (fold_left nestFilter fs memo) = true.
Proof.
  revert memo. induction fs as [|f fs IH]; intros memo H; [exact H|].
  simpl. apply IH. unfold nestFilter.
  apply occurs_app_r, occurs_app_r, occurs_app_r, occurs_app_r.
  now apply occurs_app_l.
Qed.

Lemma isEncoded_occurs (node : Node) (s : string) :
  isEncoded node = true ->
  compileNode compileConditional compileLoop node = Ok s ->
  JS.occurs "encode(" s = true.
Proof.
  unfold isEncoded, compileNode.
  destruct (type node) as [[]|]; try discriminate. intros _ H.
  unfold compileProperty in H.
  destruct (value node) as [v|]; [|discriminate].
  destruct (filters node) as [fs|]; [|discriminate].
  apply Ok_eq in H. subst s. apply nestFilter_occurs.
  unfold propertyValue.
  apply occurs_join
    with (s := ("encode(" ++ propertyIdentifier v ++ "())")%string);
    [simpl; tauto|].
  now apply (@occurs_app_l "encode(" "encode(").
Qed.

Lemma occurs_nonempty (needle s : string) :
  needle <> EmptyString -> JS.occurs needle s = true -> s <> EmptyString.
Proof.
  intros Hn H ->. destruct needle; [now apply Hn|discriminate].
Qed.

Section BodyFacts.
Variables createObject type map encode : string.

(** X16. The body of the compiled function: when the tree holds a loop
    that the compiler reaches, the body starts with the three helpers of
    the loops; when it holds an encoded property that the compiler
    reaches, the two helpers of the encoding stand just before the
    [return] of the compiled source. *)
Theorem body_includes_helpers (tree : Node) (s : string) :
  process (nodes tree) = Ok s ->
  (Reaches.tree isLoop (nodes tree) = true ->
   exists rest,
     body createObject type map encode tree
     = Ok (JS.join semicolonNewline (createObject :: type :: map :: rest))) /\
  (Reaches.tree isEncoded (nodes tree) = true ->
   exists front,
     body createObject type map encode tree
     = Ok (JS.join semicolonNewline
             (front ++ [type; encode; ("return '' + " ++ s)%string]))).
Proof.
  intros Hs. unfold body. rewrite Hs. unfold bind. split; intros Hr.
  - assert (Ho : JS.occurs "map(" s = true).
    { eapply process_tree_reaches; [|exact Hr|exact Hs].
      intros n c. apply isLoop_occurs. }
    destruct s as [|a s]; [discriminate|].
    rewrite (occurs_app_r "map(" " + " (String a s) Ho).
    eexists. reflexivity.
  - assert (Ho : JS.occurs "encode(" s = true).
    { eapply process_tree_reaches; [|exact Hr|exact Hs].
      intros n c. apply isEncoded_occurs. }
    destruct s as [|a s]; [discriminate|].
    rewrite (occurs_app_r "encode(" " + " (String a s) Ho).
    exists (if JS.occurs "map(" (" + " ++ String a s)
            then [createObject; type; map] else []).
    rewrite <- app_assoc. reflexivity.
Qed.
End BodyFacts.

Lemma mapM_app {A B} (f : A -> Result B) (l1 l2 : list A) :
  mapM f (l1 ++ l2)
  = bind (mapM f l1) (fun a => bind (mapM f l2) (fun b => Ok (a ++ b))).
Proof.
  induction l1 as [|x l1 IH]; simpl.
  - destruct (mapM f l2); reflexivity.
  - destruct (f x) as [y|]; [simpl|reflexivity]. rewrite IH.
    destruct (mapM f l1) as [a|]; [simpl|reflexivity].
    destruct (mapM f l2); reflexivity.
Qed.

Lemma mapM_length {A B} (f : A -> Result B) (l : list A) (ys : list B) :
  mapM f l = Ok ys -> length ys = length l.
Proof.
  revert ys. induction l as [|x l IH]; intros ys H; simpl in H.
  - now injection H as <-.
  - destruct (f x); [simpl in H|discriminate].
    destruct (mapM f l) as [bs|]; [simpl in H|discriminate].
    injection H as <-. simpl. now rewrite (IH bs).
Qed.

Lemma join_app (sep : string) (a b : list string) :
  a <> [] -> b <> [] ->
  JS.join sep (a ++ b) = (JS.join sep a ++ sep ++ JS.join sep b)%string.
Proof.
  unfold JS.join. intros Ha Hb. induction a as [|x a IH]; [now elim Ha|].
  destruct a as [|y a].
  - destruct b as [|z b]; [now elim Hb|]. reflexivity.
  - change (String.concat sep ((x :: y :: a) ++ b))
      with (x ++ sep ++ String.concat sep ((y :: a) ++ b))%string.
    rewrite IH by discriminate.
    change (String.concat sep (x :: y :: a))
      with (x ++ sep ++ String.concat sep (y :: a))%string.
    now rewrite !append_assoc.
Qed.

(** X17. Siblings compile on their own: the source of a list of nodes
    is the source of its front and the source of its back with a plus
    sign between them, whatever stands in either. *)
Theorem process_siblings (front back : list Node) (s1 s2 : string) :
  front <> [] -> back <> [] ->
  process (Some front) = Ok s1 ->
  process (Some back) = Ok s2 ->
  process (Some (front ++ back)) = Ok (s1 ++ "+" ++ s2)%string.
Proof.
  intros Hf Hb H1 H2. unfold process, processWith in *.
  rewrite mapM_app.
  destruct (mapM (compileNode compileConditional compileLoop) front)
    as [a|] eqn:Ea; [|discriminate].
  destruct (mapM (compileNode compileConditional compileLoop) back)
    as [b|] eqn:Eb; [|discriminate].
  unfold bind in *. apply Ok_eq in H1, H2. subst s1 s2.
  rewrite join_app; [reflexivity| |].
  - apply mapM_length in Ea. destruct a; [|discriminate].
    destruct front; [now elim Hf|discriminate].
  - apply mapM_length in Eb. destruct b; [|discriminate].
    destruct back; [now elim Hb|discriminate].
Qed.

(** ** An else-body that runs to the end of the stack *)

Section Frame.
Variable trim : string -> string.
Variable numeric : string -> bool.
Variable P : Node -> Prop.

Hypothesis P_set_nodes : forall r ns, P r -> P (set_nodes r ns).
Hypothesis P_asConditional : forall r, P r -> P (asConditional r).
Hypothesis P_set_els : forall r e, P r -> P (set_els r e).
Hypothesis P_set_elsif : forall r e, P r -> P (set_elsif r e).

(** What holds of a root and only depends on fields that a body parse
    does not write, holds of the root after the parse. *)
Lemma make_frame (fuel : nat) (root : Node) (END : option TokenName)
    (stack : list Token) made root' rest :
  make trim numeric fuel root END stack = Done (made, root', rest) ->
  P root -> P root'.
Proof.
  revert root stack.
  induction fuel as [|fuel IH]; intros root stack; [discriminate|].
  destruct stack as [|node stack]; simpl; [now intros [= _ <- _]|].
  destruct (nodes root) as [ns|] eqn:Ens; [|discriminate].
  assert (Hpush : forall n r, push root n = Done r -> P root -> P r).
  { intros n r. unfold push. rewrite Ens. intros [= <-]. apply P_set_nodes. }
  assert (Hproperty : forall encoded,
            ('(property, stack0) <- constructProperty trim fuel encoded stack ;;
             root0 <- push root property ;;
             make trim numeric fuel root0 END stack0) = Done (made, root', rest) ->
            P root -> P root').
  { intros encoded.
    destruct (constructProperty trim fuel encoded stack) as [[p q]| |];
      simpl; [|discriminate|discriminate].
    destruct (push root p) as [r| |] eqn:E; simpl; [|discriminate|discriminate].
    intros H HP. eapply IH; [exact H|]. eapply Hpush; eassumption. }
  assert (Htext : make trim numeric fuel (pushText root ns node) END stack
                  = Done (made, root', rest) -> P root -> P root').
  { intros H HP. eapply IH; [exact H|].
    unfold pushText. destruct (lastOf ns) as [p|]; [|now apply P_set_nodes].
    destruct (type p) as [[]|]; now apply P_set_nodes. }
  destruct (name node); try apply Hproperty; try exact Htext; try apply IH.
  destruct (constructExpression trim numeric fuel root END stack)
    as [[[result r] q]| |] eqn:E; simpl; [|discriminate|discriminate].
  assert (Hr : P root -> P r).
  { intros HP.
    destruct (@constructExpression_root trim numeric _ _ _ _ _ _ _ E)
      as [->|[(e & -> & _)|(e & -> & _)]]; auto. }
  destruct result as [n| | |].
  - destruct (push r n) as [r'| |] eqn:Ep; simpl; [|discriminate|discriminate].
    intros H HP. eapply IH; [exact H|].
    unfold push in Ep. destruct (nodes r); [|discriminate].
    injection Ep as <-. auto.
  - intros [= _ <- _]. exact Hr.
  - intros [= _ <- _]. exact Hr.
  - intros H HP. eapply IH; [exact H|auto].
Qed.
End Frame.

Lemma uncompilable_throws (n : Node) :
  uncompilable n = true ->
  exists e,
    Compiler.compileNode Compiler.compileConditional Compiler.compileLoop n
    = Throw e.
Proof.
  unfold uncompilable, Compiler.compileNode. intros H.
  apply andb_prop in H as [Hc Ht].
  destruct (type n) as [[]|] eqn:Et; try discriminate.
  - rewrite compileConditional_eq.
    destruct (conditions n) as [[|c cs]|]; try discriminate; eexists; reflexivity.
  - destruct (value n); [discriminate|eexists; reflexivity].
Qed.

Lemma mapM_throws {A B} (f : A -> Result B) (l : list A) (x : A) (e : Exn) :
  In x l -> f x = Throw e -> exists e', mapM f l = Throw e'.
Proof.
  intros Hin Hx. induction l as [|a l IH]; [contradiction|]. simpl.
  destruct Hin as [->|Hin].
  - rewrite Hx. eexists. reflexivity.
  - destruct (f a); [|eexists; reflexivity]. simpl.
    destruct (IH Hin) as [e' ->]. eexists. reflexivity.
Qed.

Section ElseFacts.
Variable trim : string -> string.
Variable numeric : string -> bool.

(** X18. An else whose body takes the rest of the stack: the else-body is
    attached to the root and is also pushed among its children, where it
    is a node that the compiler cannot compile, so the compilation of
    these children throws. *)
Theorem else_without_end (fuel : nat) (root : Node) (END : option TokenName)
    (ns : list Node) (open marker : Token) (stack : list Token) (e : Node) :
  nodes root = Some ns ->
  name open = START_EXPR ->
  name marker = ELSE ->
  isEnd END ELSE = false ->
  make trim numeric fuel emptyRoot (Some END_IF) stack = Done (Root, e, []) ->
  make trim numeric (S (S (S fuel))) root END (open :: marker :: stack)
    = Done (Root,
            set_nodes (set_els (asConditional root) (Some e)) (Some (ns ++ [e])),
            []) /\
  exists error, Compiler.process (Some (ns ++ [e])) = Throw error.
Proof.
  intros Hns Hopen Hmarker Hend Hmake. split.
  - rewrite make_expression with (ns := ns); [|exact Hns|exact Hopen].
    assert (HE : constructExpression trim numeric (S (S fuel)) root END
                   (marker :: stack)
                 = Done (RNode e, set_els (asConditional root) (Some e), [])).
    { simpl. rewrite Hmarker, Hend. simpl. now rewrite Hmake. }
    rewrite HE.
    destruct root as [ty v nds cs el ei fs ar]. simpl in Hns. subst nds.
    reflexivity.
  - assert (Hu : uncompilable e = true).
    { apply (@make_frame trim numeric (fun n => uncompilable n = true))
        with (5 := Hmake); try reflexivity.
      - intros [] ?; exact id.
      - intros [ty v nds [[|c cs]|] el ei fs ar]; try discriminate;
          destruct ty as [[]|]; try discriminate; reflexivity.
      - intros [] ?; exact id.
      - intros [] ?; exact id. }
    destruct (uncompilable_throws _ Hu) as [err Herr].
    destruct (@mapM_throws _ _
                (Compiler.compileNode Compiler.compileConditional
                   Compiler.compileLoop)
                (ns ++ [e]) e err) as [err' Herr'];
      [apply in_or_app; right; now left|exact Herr|].
    exists err'. unfold Compiler.process, Compiler.processWith.
    now rewrite Herr'.
Qed.
End ElseFacts.

(** ** The further properties on sample templates *)

Import Stacks.

Lemma parse_text_only_witness :
  run words = Done (Root, template [textNode "a b"], []) /\
  Compiler.process (Some [textNode "a b"]) = Ok "'a b'"%string /\
  unescape (Compiler.escapeValue "a b") = Some "a b"%string.
Proof.
  exact (@parse_text_only Host.trim Host.numeric (mkToken OTHER "a")
           [mkToken WHITESPACE " "; mkToken OTHER "b"] eq_refl).
Defined.

Lemma make_root_empties_witness :
  run oneFilter
    = Done (Root,
            template [property Property "x" [mkFilter (Some "a"%string) []];
                      textNode "y"],
            []) /\
  @nil Token = [].
Proof.
  split; [reflexivity|].
  apply (@make_root_empties Host.trim Host.numeric 25 templateRoot None oneFilter
           (template [property Property "x" [mkFilter (Some "a"%string) []];
                      textNode "y"])).
  reflexivity.
Defined.

Lemma make_stops_at_end_witness :
  constructExpression Host.trim Host.numeric 2 (template [textNode "x"])
    (Some END_EACH)
    [mkToken WHITESPACE " "; mkToken END_EACH "endeach"; mkToken END_EXPR "%}"]
    = Done (RUndefined, template [textNode "x"], [mkToken END_EXPR "%}"]) /\
  make Host.trim Host.numeric 3 (template [textNode "x"]) (Some END_EACH)
    [mkToken START_EXPR "{%"; mkToken WHITESPACE " ";
     mkToken END_EACH "endeach"; mkToken END_EXPR "%}"]
    = Done (Null, template [textNode "x"], [mkToken END_EXPR "%}"]).
Proof.
  apply (@make_stops_at_end Host.trim Host.numeric 0 (template [textNode "x"])
           END_EACH [textNode "x"] (mkToken START_EXPR "{%")
           (mkToken END_EACH "endeach") [mkToken WHITESPACE " "]
           [mkToken END_EXPR "%}"]);
    (reflexivity || discriminate).
Defined.

Lemma constructExpression_invalid_witness :
  constructExpression Host.trim Host.numeric 2 templateRoot None
    [mkToken WHITESPACE " "; mkToken OTHER "foo"; mkToken END_EXPR "%}"]
  = Raise (Error "Invalid expression type.").
Proof.
  apply (@constructExpression_invalid Host.trim Host.numeric 0 templateRoot None
           [mkToken WHITESPACE " "] [mkToken END_EXPR "%}"] (mkToken OTHER "foo"));
    reflexivity.
Defined.

Lemma constructProperty_words_witness :
  constructProperty Host.trim 1 false
    (dotted ++ [mkToken END_RAW "}}}"; mkToken OTHER "y"])
  = Done (property RawProperty "user.name" [], [mkToken OTHER "y"]).
Proof.
  apply (@constructProperty_words Host.trim 1 false dotted [mkToken OTHER "y"]
           (mkToken END_RAW "}}}")); [reflexivity|right; reflexivity].
Defined.

Lemma constructProperty_one_filter_witness :
  constructProperty Host.trim 5 true
    (mkToken OTHER "x" :: mkToken FILTER "|"
       :: truncate ++ [mkToken END_PROP "}}"; mkToken OTHER "y"])
  = Done (property Property "x" [mkFilter (Some "truncate"%string) ["5"%string]],
          [mkToken OTHER "y"]).
Proof.
  apply (@constructProperty_one_filter Host.trim 5 true [mkToken OTHER "x"]
           truncate [mkToken OTHER "y"] (mkToken FILTER "|")
           (mkToken END_PROP "}}"));
    [reflexivity|reflexivity|reflexivity|left; reflexivity|simpl; lia].
Defined.

Lemma constructProperty_chain_witness :
  constructProperty Host.trim 8 true
    (mkToken OTHER "x" :: mkToken FILTER "|" :: upper
       ++ mkToken FILTER "|" :: truncate ++ [mkToken END_PROP "}}"])
  = Done (upperTruncate, []).
Proof.
  apply (@constructProperty_chain Host.trim 8 true [mkToken OTHER "x"]
           (mkToken FILTER "|") (mkToken END_PROP "}}") upper [truncate]);
    [reflexivity|reflexivity|left; reflexivity|reflexivity|simpl; lia].
Defined.

Lemma constructPartial_words_witness :
  constructPartial Host.trim emptyRoot
    (header ++ [mkToken END_EXPR "%}"; mkToken OTHER "y"])
    = Done (partialNode (Some "header"%string) ["user"%string],
            [mkToken OTHER "y"]) /\
  Compiler.compilePartial (partialNode (Some "header"%string) ["user"%string])
    = Ok "(partials['header'].render(data['user']))"%string.
Proof.
  apply (@constructPartial_words Host.trim header [mkToken OTHER "y"]
           (mkToken END_EXPR "%}")); reflexivity.
Defined.

Lemma constructPartial_unexpected_witness :
  constructPartial Host.trim emptyRoot comparison
  = Raise (Error "Unexpected GREATER_THAN encountered.").
Proof.
  apply (@constructPartial_unexpected Host.trim
           [mkToken WHITESPACE " "; mkToken OTHER "5"; mkToken WHITESPACE " "]
           [mkToken WHITESPACE " "; mkToken OTHER "4"; mkToken END_EXPR "%}"]
           (mkToken GREATER_THAN ">")); reflexivity.
Defined.

Lemma constructEach_header_witness :
  type itemsLoop = Some LoopExpression /\
  conditions itemsLoop = Some (headerConditions Host.trim items).
Proof.
  apply (@constructEach_header Host.trim Host.numeric 20 emptyRoot items
           (mkToken END_EXPR "%}") (mkToken OTHER "x" :: endeach) itemsLoop
           [mkToken END_EXPR "%}"]); reflexivity.
Defined.

Lemma constructEach_compiles_witness :
  Compiler.compileLoop itemsLoop
  = Ok "map(data['items'],'k','v',data,function(data) {return 'x'}).join('')"%string.
Proof.
  apply (@constructEach_compiles Host.trim Host.numeric 20 emptyRoot items
           (mkToken END_EXPR "%}") (mkToken OTHER "x" :: endeach) itemsLoop
           [mkToken END_EXPR "%}"]
           (mkCondition Identifier (Some "items"%string))
           (mkCondition Assignment (Some "as"%string))
           (mkCondition Identifier (Some "v"%string))
           [mkCondition Identifier (Some "k"%string)]
           "items" "v" "'x'");
    (reflexivity || discriminate).
Defined.

Lemma constructComment_nested_witness :
  constructComment 11 emptyRoot
    [ mkToken START_EXPR "{%"; mkToken COMMENT "--"; mkToken WHITESPACE " ";
      mkToken OTHER "lol"; mkToken WHITESPACE " "; mkToken COMMENT "--";
      mkToken END_EXPR "%}"; mkToken COMMENT "--"; mkToken END_EXPR "%}";
      mkToken OTHER "har" ]
  = Done [mkToken OTHER "har"].
Proof.
  apply (@constructComment_nested 11 emptyRoot []
           [mkToken WHITESPACE " "; mkToken OTHER "lol"; mkToken WHITESPACE " "]
           [] [mkToken OTHER "har"]
           (mkToken START_EXPR "{%") (mkToken COMMENT "--") (mkToken COMMENT "--")
           (mkToken END_EXPR "%}") (mkToken COMMENT "--") (mkToken END_EXPR "%}"));
    (reflexivity || (simpl; lia)).
Defined.

Lemma constructConditional_repaired_witness :
  (exists cs, conditions negatedNode = Some cs /\ repaired cs = true) /\
  conditions negatedNode
    = Some [ mkCondition Not None;
             mkCondition Identifier (Some "ab"%string);
             mkCondition Equality (Some "=="%string);
             mkCondition Identifier (Some "cd"%string) ] /\
  conditions (ifNode "abc" [] None None)
    = Some [mkCondition Identifier (Some "abc"%string)].
Proof.
  destruct (@constructConditional_repaired Host.trim Host.numeric 40 emptyRoot
              (Some START_IF) negated (RNode negatedNode) negatedNode
              [mkToken END_EXPR "%}"]
              eq_refl ltac:(discriminate) ltac:(discriminate) eq_refl)
    as [H1 H2].
  destruct (H2 (firstn 12 negated) (mkToken END_EXPR "%}") (skipn 13 negated)
              eq_refl eq_refl eq_refl) as [Htag _].
  destruct (@constructConditional_repaired Host.trim Host.numeric 40 emptyRoot
              (Some START_IF)
              (threeWords ++ mkToken END_EXPR "%}" :: endif)
              (RNode (ifNode "abc" [] None None)) (ifNode "abc" [] None None)
              [mkToken END_EXPR "%}"]
              eq_refl ltac:(discriminate) ltac:(discriminate) eq_refl)
    as [_ H3].
  destruct (H3 threeWords (mkToken END_EXPR "%}") endif
              eq_refl eq_refl eq_refl) as [_ Hwords].
  split; [exact H1|]. split; [exact Htag|].
  apply Hwords; [reflexivity|discriminate].
Defined.

Lemma parse_errors_witness :
  Error "Invalid expression type." = Error "Unterminated property." \/
  Error "Invalid expression type." = Error "Invalid expression type." \/
  exists n,
    Error "Invalid expression type."
    = Error ("Unexpected " ++ nameString n ++ " encountered.")%string.
Proof.
  apply (@parse_errors Host.trim Host.numeric unknown). reflexivity.
Defined.

Lemma body_includes_helpers_witness :
  (exists rest,
     Compiler.body "createObject" "type" "map" "encode" (template [loopOver])
     = Ok (JS.join semicolonNewline
             ("createObject"%string :: "type"%string :: "map"%string :: rest))) /\
  (exists front,
     Compiler.body "createObject" "type" "map" "encode" (template [loopOver])
     = Ok (JS.join semicolonNewline
             (front ++ ["type"%string; "encode"%string;
                        ("return '' + " ++ loopOverSource)%string]))).
Proof.
  destruct (@body_includes_helpers "createObject" "type" "map" "encode"
              (template [loopOver]) loopOverSource eq_refl) as [H1 H2].
  split; [apply H1|apply H2]; reflexivity.
Defined.

Lemma process_siblings_witness :
  Compiler.process (Some ([textNode "a"] ++ [loopOver]))
  = Ok ("'a'" ++ "+" ++ loopOverSource)%string.
Proof.
  apply (@process_siblings [textNode "a"] [loopOver] "'a'" loopOverSource);
    (reflexivity || discriminate).
Defined.

Lemma else_without_end_witness :
  make Host.trim Host.numeric 6 (ifNode "a" [textNode "A"] None None)
    (Some END_IF)
    [ mkToken START_EXPR "{%"; mkToken ELSE "else"; mkToken END_EXPR "%}";
      mkToken OTHER "B" ]
    = Done (Root,
            ifNode "a" [textNode "A"; elseBody [textNode "B"]]
              (Some (elseBody [textNode "B"])) None,
            []) /\
  exists error,
    Compiler.process (Some ([textNode "A"] ++ [elseBody [textNode "B"]]))
    = Throw error.
Proof.
  apply (@else_without_end Host.trim Host.numeric 3
           (ifNode "a" [textNode "A"] None None) (Some END_IF) [textNode "A"]
           (mkToken START_EXPR "{%") (mkToken ELSE "else")
           [mkToken END_EXPR "%}"; mkToken OTHER "B"]
           (elseBody [textNode "B"])); reflexivity.
Defined.
